(** * Increasing Faith Ministries: newsletter pipeline, subscribers, alerts

    A shallow embedding of the automation scripts of the repository
    (content gatherer, AI section generator, publisher, subscriber
    utilities, batch sender, live-alert notifier, signup function, the
    pipeline entry point, the invitation mailing, the Apps Script sender)
    and the properties the specification states about them, followed by
    further properties read off the code.

    Conventions of the embedding.
    - A JavaScript string is a [string]: a sequence of code units, here
      restricted to U+0000..U+00FF (one [ascii] per code unit).
    - Network calls, the clock and the environment are explicit inputs:
      a call that may reject is given its outcome as an argument (an
      inductive type listing the outcomes the code distinguishes) or reads
      it from an oracle indexed by the number of the call.
    - A function that can throw returns a [Res]; [try ... catch] is
      [try_catch].
    - Console output is not modelled; writes of rendered documents are not
      part of the modelled state. *)

From Stdlib Require Import Ascii String ZArith NArith Lia List Permutation Sorted.
From Stdlib Require Import DecimalString DecimalPos DecimalN.
From stdpp Require Import base decidable option list gmap strings.

Local Open Scope list_scope.

(** ** Exceptions *)

Inductive Res (A : Type) : Type :=
| Ok (a : A)
| Throw (msg : string).
Arguments Ok {A} a.
Arguments Throw {A} msg.

#[global] Instance res_ret : MRet Res := λ A a, Ok a.

#[global] Instance res_bind : MBind Res := λ A B k m,
  match m with
  | Ok a => k a
  | Throw e => Throw e
  end.

Definition try_catch {A} (body : Res A) (handler : string → A) : A :=
  match body with
  | Ok a => a
  | Throw e => handler e
  end.

(** The monthly theme, shared by the gatherer, the generator and the
    publisher. *)
Record Theme := { theme : string; focus : string }.

(** ** JavaScript string primitives used by the scripts *)

Module JS.

(** WhiteSpace and LineTerminator code units below U+0100: the set that
    [String.prototype.trim] strips and that [\s] matches. *)
Definition is_ws (c : ascii) : bool :=
  let n := N_of_ascii c in
  ((9 <=? n) && (n <=? 13) || (n =? 32) || (n =? 160))%N.

(** [toLowerCase] on one code unit: A-Z, and the Latin-1 capitals
    U+00C0..U+00DE except the multiplication sign U+00D7. *)
Definition lower_char (c : ascii) : ascii :=
  let n := N_of_ascii c in
  if ((65 <=? n) && (n <=? 90)
      || (192 <=? n) && (n <=? 222) && negb (n =? 215))%N
  then ascii_of_N (n + 32)
  else c.

Fixpoint toLowerCase (s : string) : string :=
  match s with
  | EmptyString => EmptyString
  | String c s' => String (lower_char c) (toLowerCase s')
  end.

Fixpoint trimStart (s : string) : string :=
  match s with
  | EmptyString => EmptyString
  | String c s' => if is_ws c then trimStart s' else s
  end.

Fixpoint trimEnd (s : string) : string :=
  match s with
  | EmptyString => EmptyString
  | String c s' =>
      match trimEnd s' with
      | EmptyString => if is_ws c then EmptyString else String c EmptyString
      | t => String c t
      end
  end.

Definition trim (s : string) : string := trimEnd (trimStart s).

Fixpoint startsWith (s p : string) {struct p} : bool :=
  match p, s with
  | EmptyString, _ => true
  | String _ _, EmptyString => false
  | String a p', String b s' => Ascii.eqb a b && startsWith s' p'
  end.

(** [s.includes(k)]: [k] occurs in [s] as a contiguous substring. *)
Fixpoint includes (s k : string) : bool :=
  startsWith s k ||
  match s with
  | EmptyString => false
  | String _ s' => includes s' k
  end.

(** [s.substring(0, n)] *)
Fixpoint substring0 (n : nat) (s : string) : string :=
  match n, s with
  | O, _ => EmptyString
  | S _, EmptyString => EmptyString
  | S n', String c s' => String c (substring0 n' s')
  end.

(** [s.replace(/<[^>]*>/g, '')]: scanning from the left, a [<] that is
    followed somewhere by a [>] starts a match that runs to the first such
    [>]; the match is dropped and the scan resumes after it.  A [<] with
    no [>] after it matches nothing and is kept.  [afterGt s] is the rest
    of [s] after its first [>], if there is one. *)
Fixpoint afterGt (s : string) : option string :=
  match s with
  | EmptyString => None
  | String c s' => if Ascii.eqb c ">" then Some s' else afterGt s'
  end.

Fixpoint stripTagsFuel (fuel : nat) (s : string) : string :=
  match fuel with
  | O => s
  | S fuel' =>
      match s with
      | EmptyString => EmptyString
      | String c s' =>
          if Ascii.eqb c "<" then
            match afterGt s' with
            | Some rest => stripTagsFuel fuel' rest
            | None => s
            end
          else String c (stripTagsFuel fuel' s')
      end
  end.

Definition stripTags (s : string) : string :=
  stripTagsFuel (String.length s) s.

(** Whether [/<[^>]*>/] still has a match in [s]: some [<] of [s] has a
    [>] after it. *)
Fixpoint hasTag (s : string) : bool :=
  match s with
  | EmptyString => false
  | String c s' =>
      Ascii.eqb c "<" && bool_decide (is_Some (afterGt s')) || hasTag s'
  end.

(** [String(n).padStart(width, '0')] for a natural number, as date-fns's
    [addLeadingZeros] does. *)
Definition decimal (n : N) : string := NilZero.string_of_uint (N.to_uint n).

Fixpoint zeros (k : nat) : string :=
  match k with
  | O => EmptyString
  | S k' => String "0" (zeros k')
  end.

Definition addLeadingZeros (n : N) (width : nat) : string :=
  let d := decimal n in
  zeros (width - String.length d) +:+ d.

(** [Array.prototype.sort] with a comparator.  The sort is stable
    (ECMAScript 2019), and for a comparator that is a consistent ordering
    the stable result is unique; it is computed here by insertion from
    the right, an element going before the first element it does not
    compare greater than. *)
Fixpoint insertBy {A} (cmp : A → A → Z) (x : A) (l : list A) : list A :=
  match l with
  | [] => [x]
  | y :: l' => if (cmp x y <=? 0)%Z then x :: l else y :: insertBy cmp x l'
  end.

Definition sortBy {A} (cmp : A → A → Z) (l : list A) : list A :=
  foldr (insertBy cmp) [] l.

End JS.

(** ** Dates: [new Date(year, month - 1, 1)] printed by date-fns [format] *)

Module DateFns.

(** The Date constructor maps years 0..99 to 1900..1999 and carries a
    month index outside 0..11 into the year.  [format] throws on a date
    outside the range of ECMAScript time values (about 275760 years
    either side of 1970); the functions below give what it prints for a
    date inside the range, and [JSDate.newDate] says which dates are. *)
Definition fullYear (year month : Z) : Z :=
  ((if (0 <=? year) && (year <=? 99) then 1900 + year else year)
   + (month - 1) `div` 12)%Z.

Definition monthIndex (month : Z) : Z := ((month - 1) `mod` 12)%Z.

(** ['yyyy']: the year of a date before year 1 is printed as
    [1 - year]; the number is padded to four digits. *)
Definition format_yyyy (year month : Z) : string :=
  let signedYear := fullYear year month in
  let y := (if 0 <? signedYear then signedYear else 1 - signedYear)%Z in
  JS.addLeadingZeros (Z.to_N y) 4.

(** ['MM'] *)
Definition format_MM (month : Z) : string :=
  JS.addLeadingZeros (Z.to_N (monthIndex month + 1)) 2.

(** ['MMMM'] in the default (English) locale *)
Definition format_MMMM (month : Z) : string :=
  default ""
    ([ "January"; "February"; "March"; "April"; "May"; "June"; "July";
       "August"; "September"; "October"; "November"; "December" ]
       !! Z.to_nat (monthIndex month)).

End DateFns.

(** ** Dates: validity and the day of the week

    A [Date] built as [new Date(year, monthIndex, 1)] and moved on by
    [setDate(getDate() + 1)] stands at one local day; it is given by the
    number of that day, counted from 1 January 1970, or it is an Invalid
    Date.  What ECMAScript leaves to the implementation is an input: the
    time zone, and the reading of a date string that is not in the ISO
    format. *)

Module JSDate.

Definition msPerDay : Z := 86400000.

(** The largest time value: 100,000,000 days either side of the epoch. *)
Definition maxTime : Z := 8640000000000000.

(** [localTZA t]: the offset of local time from UTC, in ms, at the local
    time [t].  [monthOf monthName year]: [getMonth()] of
    [new Date(monthName + ' 1, ' + year)], [None] when the host reads no
    date from the string ([NaN]). *)
Record Host := {
  localTZA : Z → Z;
  monthOf : string → Z → option Z;
}.

(** The day number of the first day of month [m] (1..12) of the year
    [y], in the proleptic Gregorian calendar. *)
Definition daysFromCivil (y m : Z) : Z :=
  let y' := if (m <=? 2)%Z then (y - 1)%Z else y in
  let era := (y' `div` 400)%Z in
  let yoe := (y' - era * 400)%Z in
  let doy := ((153 * (if (2 <? m)%Z then m - 3 else m + 9) + 2) `div` 5)%Z in
  let doe := (yoe * 365 + yoe `div` 4 - yoe `div` 100 + doy)%Z in
  (era * 146097 + doe - 719468)%Z.

(** [None] is an Invalid Date. *)
Definition Date : Type := option Z.

(** [TimeClip] of the local day [day] taken to UTC. *)
Definition timeClip (host : Host) (day : Z) : Date :=
  let t := (day * msPerDay)%Z in
  let utc := (t - localTZA host t)%Z in
  if ((- maxTime <=? utc) && (utc <=? maxTime))%Z then Some day else None.

(** [new Date(year, monthIndex, 1)]: years 0..99 stand for 1900..1999,
    and a month index outside 0..11 is carried into the year. *)
Definition newDate (host : Host) (year monthIndex : Z) : Date :=
  let yr := (if (0 <=? year) && (year <=? 99) then 1900 + year else year)%Z in
  timeClip host (daysFromCivil (yr + monthIndex `div` 12) (monthIndex `mod` 12 + 1)).

(** [d.getDay()]: 0 is Sunday, 6 is Saturday; [None] is [NaN].  1 January
    1970 was a Thursday. *)
Definition getDay (d : Date) : option Z :=
  (λ day, ((day + 4) `mod` 7)%Z) <$> d.

(** [d.setDate(d.getDate() + 1)]; an Invalid Date stays one. *)
Definition nextDay (host : Host) (d : Date) : Date :=
  d ≫= λ day, timeClip host (day + 1).

End JSDate.

(** ** publish.js: the archive index *)

Module Publish.

Record Metadata := {
  title : string;
  subtitle : string;
  month : Z;
  year : Z;
  monthName : string;
  dateString : string;
  generatedAt : string;
  ministry : string;
  pastor : string;
  contentSource : string;
  meta_theme : option Theme;
}.

Record Section := { sec_title : string; content : string }.

Record Sections := {
  pastoralMessage : Section;
  kingdomIntelligence : Section;
  kingdomLiving : Section;
  prayerFocus : Section;
  scriptureFocus : Section;
  upcoming : Section;
}.

Record Newsletter := { metadata : Metadata; sections : Sections }.

Record ArchiveEntry := {
  dateKey : string;
  ae_title : string;
  ae_dateString : string;
  ae_theme : option string;
  ae_generatedAt : string;
  jsonFile : string;
  htmlFile : string;
}.

(** [format(new Date(year, month - 1, 1), 'yyyy-MM')] *)
Definition formatDateKey (year month : Z) : string :=
  DateFns.format_yyyy year month +:+ "-" +:+ DateFns.format_MM month.

(** What the publisher finds at the archive path: no file, a file that
    [JSON.parse] rejects, or a parsed array of archive entries. *)
Inductive ArchiveFile :=
| Missing
| Unparsable
| Parsed (entries : list ArchiveEntry).

Definition readArchive (f : ArchiveFile) : list ArchiveEntry :=
  match f with
  | Missing => []
  | Unparsable => []
  | Parsed entries => entries
  end.

Definition newEntry (nl : Newsletter) (dk : string) : ArchiveEntry :=
  let m := metadata nl in
  {| dateKey := dk;
     ae_title := title m;
     ae_dateString := dateString m;
     ae_theme := theme <$> meta_theme m;
     ae_generatedAt := generatedAt m;
     jsonFile := dk +:+ ".json";
     htmlFile := dk +:+ ".html" |}.

Record PublishResult := {
  pr_dateKey : string;
  archiveEntries : nat;
  archiveWritten : list ArchiveEntry;
}.

(** Step 4 of [publishNewsletter]: read the archive, drop the entries of
    this month, [unshift] the new entry, write the array back.
    [archiveWritten] is the content of archive.json afterwards. *)
Definition publishNewsletter (file : ArchiveFile) (nl : Newsletter) : PublishResult :=
  let dk := formatDateKey (year (metadata nl)) (month (metadata nl)) in
  let archive := readArchive file in
  let archive := filter (λ entry, dateKey entry ≠ dk) archive in
  let archive := newEntry nl dk :: archive in
  {| pr_dateKey := dk;
     archiveEntries := length archive;
     archiveWritten := archive |}.

(** The number of entries of an archive filed under a date key. *)
Definition entriesFor (k : string) (archive : list ArchiveEntry) : nat :=
  length (filter (λ entry, dateKey entry = k) archive).

End Publish.

(** ** content-gatherer.js *)

Module Gatherer.

(** An article object.  Feed articles carry [link] and [pubDate]; the
    curated fallback stories do not; [relevanceScore] is added by
    [categorizeContent]. *)
Record Article := {
  title : string;
  link : option string;
  description : string;
  pubDate : option string;
  category : string;
  source : string;
  relevanceScore : option nat;
}.

(** What cheerio hands to the callbacks: for each [<item>] (or
    [<entry>]) element of the document, in document order, the text of
    the first matching child, empty when there is none. *)
Record ItemEl := {
  i_title : string;
  i_link : string;
  i_description : string;
  i_pubDate : string;
  i_category : string;
}.

Record EntryEl := {
  e_title : string;
  e_href : option string;
  e_summary : string;
  e_published : string;
}.

Record Document := { items : list ItemEl; entries : list EntryEl }.

Record FeedSource := { name : string; url : string }.

(** The outcomes of one feed request that [fetchRSSFeed] tells apart. *)
Inductive FetchOutcome :=
| NetworkError (msg : string)
| HttpError (status : nat)
| BodyError (msg : string)
| Body (doc : Document).

Definition nonEmpty (s : string) : bool :=
  match s with
  | EmptyString => false
  | String _ _ => true
  end.

(** [a || b] on strings *)
Definition orElse (a b : string) : string := if nonEmpty a then a else b.

Definition cleanText (s : string) : string :=
  JS.substring0 300 (JS.stripTags s).

Definition itemArticle (feedName : string) (el : ItemEl) : Article :=
  let title := JS.trim (i_title el) in
  let link := JS.trim (i_link el) in
  let description := JS.trim (i_description el) in
  let pubDate := JS.trim (i_pubDate el) in
  let category := JS.trim (i_category el) in
  let cleanDescription := cleanText description in
  {| title := title; link := Some link; description := cleanDescription;
     pubDate := Some pubDate; category := orElse category "General";
     source := feedName; relevanceScore := None |}.

Definition entryArticle (feedName : string) (el : EntryEl) : Article :=
  let title := JS.trim (e_title el) in
  let link := orElse (default "" (e_href el)) "" in
  let summary := JS.trim (e_summary el) in
  let published := JS.trim (e_published el) in
  let cleanSummary := cleanText summary in
  {| title := title; link := Some link; description := cleanSummary;
     pubDate := Some published; category := "General";
     source := feedName; relevanceScore := None |}.

(** [$(sel).each((i, el) => { if (i >= 5) return false; ...; if (title)
    articles.push(...) })]: the callback runs on the elements in order
    with their index and a [false] stops the iteration. *)
Fixpoint each {El} (mk : El → Article) (i : nat) (els : list El)
    (articles : list Article) : list Article :=
  match els with
  | [] => articles
  | el :: rest =>
      if (5 <=? i)%nat then articles
      else
        let a := mk el in
        let articles := if nonEmpty (title a) then articles ++ [a] else articles in
        each mk (S i) rest articles
  end.

Definition parseFeed (feedName : string) (doc : Document) : list Article :=
  let articles := each (itemArticle feedName) 0 (items doc) [] in
  if (length articles =? 0)%nat
  then each (entryArticle feedName) 0 (entries doc) articles
  else articles.

Definition fetchRSSFeed (feedSource : FeedSource) (outcome : FetchOutcome) : list Article :=
  try_catch
    (match outcome with
     | NetworkError msg => Throw msg
     | HttpError _ => Ok []
     | BodyError msg => Throw msg
     | Body doc => Ok (parseFeed (name feedSource) doc)
     end)
    (λ _, []).

Definition rssFeeds : list FeedSource :=
  [ {| name := "Christianity Today"; url := "https://www.christianitytoday.com/feed/" |};
    {| name := "Desiring God"; url := "https://www.desiringgod.org/feeds/all" |};
    {| name := "The Gospel Coalition"; url := "https://www.thegospelcoalition.org/feed/" |};
    {| name := "Mission Network News"; url := "https://www.mnnonline.org/feed/" |};
    {| name := "International Christian Concern"; url := "https://www.persecution.org/feed/" |} ].

(** A settled promise, as [Promise.allSettled] reports it. *)
Inductive Settled (A : Type) :=
| Fulfilled (value : A)
| Rejected (reason : string).
Arguments Fulfilled {A} value.
Arguments Rejected {A} reason.

(** [net] gives the outcome of the request to each feed.  [fetchRSSFeed]
    catches everything, so each promise is fulfilled. *)
Definition gatherWebContent (net : FeedSource → FetchOutcome) : Res (list Article) :=
  let results := (λ feed, Fulfilled (fetchRSSFeed feed (net feed))) <$> rssFeeds in
  let allArticles :=
    foldl (λ allArticles result,
             match result with
             | Fulfilled value =>
                 if (0 <? length value)%nat then allArticles ++ value else allArticles
             | Rejected _ => allArticles
             end) [] results in
  Ok allArticles.

Definition relevanceKeywords : list string :=
  [ "kingdom"; "church"; "gospel"; "mission"; "revival"; "disciple";
    "persecution"; "faith"; "prayer"; "worship"; "christian"; "jesus";
    "lord"; "spirit"; "god"; "bible"; "scripture"; "ministry";
    "plant"; "evangel"; "believer"; "salvation"; "bapti"; "pastor";
    "community"; "transform"; "redemp"; "grace"; "mercy"; "hope" ].

Definition fullText (a : Article) : string :=
  title a +:+ " " +:+ description a.

(** The scoring loop: [for (const keyword of relevanceKeywords) if
    (text.includes(keyword)) score += 1]. *)
Definition scoreOf (a : Article) : nat :=
  let text := JS.toLowerCase (fullText a) in
  foldl (λ score keyword, if JS.includes text keyword then score + 1 else score)%nat
        0%nat relevanceKeywords.

Definition withScore (a : Article) : Article :=
  {| title := title a; link := link a; description := description a;
     pubDate := pubDate a; category := category a; source := source a;
     relevanceScore := Some (scoreOf a) |}.

Definition score (a : Article) : nat := default 0%nat (relevanceScore a).

Definition byScoreDesc (a b : Article) : Z :=
  (Z.of_nat (score b) - Z.of_nat (score a))%Z.

Definition relevantOf (articles : list Article) : list Article :=
  let scored := withScore <$> articles in
  JS.sortBy byScoreDesc (filter (λ a, (0 < score a)%nat) scored).

(** [/k1|k2|.../i.test(text)] for lower-case literal alternatives. *)
Definition testAny (alternatives : list string) (a : Article) : bool :=
  existsb (JS.includes (JS.toLowerCase (fullText a))) alternatives.

Record Metadata := {
  month : Z;
  year : Z;
  gatheredAt : string;
  articleCount : nat;
  usedFallback : option bool;
}.

(** The content object.  [categorizeContent] returns it without
    [monthlyTheme], [isFallback] and [metadata]; [gatherContent] fills
    them in. *)
Record Content := {
  topStories : list Article;
  missionNews : list Article;
  persecutionUpdates : list Article;
  revivalReports : list Article;
  cultureInfluence : list Article;
  monthlyTheme : option Theme;
  isFallback : option bool;
  metadata : option Metadata;
}.

Definition categorizeContent (articles : list Article) : Content :=
  let relevant := relevantOf articles in
  {| topStories := take 6 relevant;
     missionNews :=
       take 3 (List.filter (testAny ["mission"; "plant"; "evangel"; "unreached"]) relevant);
     persecutionUpdates :=
       take 3 (List.filter (testAny ["persecut"; "martyr"; "imprison"; "underground"]) relevant);
     revivalReports :=
       take 3 (List.filter (testAny ["revival"; "awaken"; "movement"; "growth"; "bapti"]) relevant);
     cultureInfluence :=
       take 3 (List.filter (testAny ["culture"; "societ"; "education"; "government";
                                     "business"; "art"; "media"; "transform"]) relevant);
     monthlyTheme := None;
     isFallback := None;
     metadata := None |}.

Definition monthlyThemes : gmap Z Theme :=
  list_to_map
    [ (1%Z, {| theme := "New Kingdom Beginnings"; focus := "Starting the year under Kingdom authority" |});
      (2%Z, {| theme := "Kingdom Love"; focus := "The radical, sacrificial love of King Jesus" |});
      (3%Z, {| theme := "Kingdom Advancement"; focus := "Pressing forward into new territory for the King" |});
      (4%Z, {| theme := "Resurrection Power"; focus := "Living in the power of the risen Christ" |});
      (5%Z, {| theme := "Kingdom Mothers"; focus := "Raising the next generation of Kingdom citizens" |});
      (6%Z, {| theme := "Kingdom Fathers"; focus := "Fatherhood as Kingdom leadership" |});
      (7%Z, {| theme := "Kingdom Freedom"; focus := "True freedom under the reign of Christ" |});
      (8%Z, {| theme := "Kingdom Education"; focus := "Developing a Kingdom worldview" |});
      (9%Z, {| theme := "Kingdom Harvest"; focus := "The harvest is plentiful - laboring for the Kingdom" |});
      (10%Z, {| theme := "Kingdom Authority"; focus := "Walking in the authority Christ delegated to His Church" |});
      (11%Z, {| theme := "Kingdom Gratitude"; focus := "Thanksgiving as a Kingdom discipline" |});
      (12%Z, {| theme := "The King Has Come"; focus := "Advent - celebrating the arrival of the King" |}) ].

Definition story (t d c : string) : Article :=
  {| title := t; link := None; description := d; pubDate := None;
     category := c; source := "Kingdom Intelligence Report";
     relevanceScore := None |}.

Definition fallbackStories : list Article :=
  [ story "Underground Church Growth Continues in Restricted Nations"
      "Despite increasing persecution, the underground church continues to grow in nations where Christianity is restricted. Reports indicate that house churches are multiplying as believers share the gospel with boldness."
      "Persecution & Growth";
    story "Church Planting Movements Accelerate Across Global South"
      "Church planting movements in Africa, Asia, and Latin America continue to accelerate, with thousands of new congregations forming as the gospel penetrates unreached communities."
      "Missions";
    story "Christians Making Impact in Business and Marketplace"
      "Kingdom-minded entrepreneurs and business leaders are increasingly using their platforms to advance Kingdom values, create jobs, and demonstrate the lordship of Christ in the marketplace."
      "Kingdom Influence";
    story "Global Prayer Movement Intensifies"
      "Prayer movements around the world are growing in intensity and unity, with millions joining in coordinated intercession for revival, persecuted believers, and Kingdom breakthrough."
      "Prayer";
    story "Youth Revival Sweeping College Campuses"
      "A fresh wave of spiritual awakening is being reported on college campuses, with students committing to radical discipleship and Kingdom living in the face of cultural pressure."
      "Revival";
    story "Christian Education Initiatives Transforming Communities"
      "Kingdom-centered education initiatives are transforming communities by equipping students with both academic excellence and a biblical worldview rooted in the lordship of Christ."
      "Education" ].

(** [fallbackStories[i]] wrapped in an array literal *)
Definition pick (i : nat) : list Article := option_list (fallbackStories !! i).

Definition getFallbackContent (month : Z) : Content :=
  let current :=
    match monthlyThemes !! month with
    | Some t => Some t
    | None => monthlyThemes !! 1%Z
    end in
  {| topStories := fallbackStories;
     missionNews := pick 1;
     persecutionUpdates := pick 0;
     revivalReports := pick 4;
     cultureInfluence := pick 2 ++ pick 5;
     monthlyTheme := current;
     isFallback := Some true;
     metadata := None |}.

Definition setIsFallback (c : Content) (b : bool) : Content :=
  {| topStories := topStories c; missionNews := missionNews c;
     persecutionUpdates := persecutionUpdates c;
     revivalReports := revivalReports c;
     cultureInfluence := cultureInfluence c;
     monthlyTheme := monthlyTheme c; isFallback := Some b;
     metadata := metadata c |}.

Definition setMonthlyTheme (c : Content) (t : option Theme) : Content :=
  {| topStories := topStories c; missionNews := missionNews c;
     persecutionUpdates := persecutionUpdates c;
     revivalReports := revivalReports c;
     cultureInfluence := cultureInfluence c;
     monthlyTheme := t; isFallback := isFallback c;
     metadata := metadata c |}.

Definition setMetadata (c : Content) (m : Metadata) : Content :=
  {| topStories := topStories c; missionNews := missionNews c;
     persecutionUpdates := persecutionUpdates c;
     revivalReports := revivalReports c;
     cultureInfluence := cultureInfluence c;
     monthlyTheme := monthlyTheme c; isFallback := isFallback c;
     metadata := Some m |}.

(** [gatherContent(month, year)]; [net] is the network, [now] the clock
    reading of [new Date().toISOString()]. *)
Definition gatherContent (net : FeedSource → FetchOutcome) (now : string)
    (month year : Z) : Res Content :=
  let articles := try_catch (gatherWebContent net) (λ _, []) in
  let content :=
    if (0 <? length articles)%nat
    then setIsFallback (categorizeContent articles) false
    else getFallbackContent month in
  let content :=
    if bool_decide (monthlyTheme content = None)
    then setMonthlyTheme content (monthlyTheme (getFallbackContent month))
    else content in
  let content :=
    setMetadata content
      {| month := month; year := year; gatheredAt := now;
         articleCount := length articles;
         usedFallback := isFallback content |} in
  Ok content.

End Gatherer.

(** ** subscribers.js *)

Module Subscribers.

Record Subscriber := {
  name : string;
  email : string;
  subscribedAt : string;
}.

(** [sub.email.toLowerCase().trim()] *)
Definition normalizeEmail (e : string) : string :=
  JS.trim (JS.toLowerCase e).

(** [{ ...sub, email: normalizedEmail }] *)
Definition withEmail (sub : Subscriber) (e : string) : Subscriber :=
  {| name := name sub; email := e; subscribedAt := subscribedAt sub |}.

(** The body of the [for (const sub of subscribers)] loop over the state
    [(seen, unique)]. *)
Definition dedupStep (st : gset string * list Subscriber) (sub : Subscriber)
    : gset string * list Subscriber :=
  let normalizedEmail := normalizeEmail (email sub) in
  if decide (normalizedEmail ∈ st.1) then st
  else ({[normalizedEmail]} ∪ st.1, st.2 ++ [withEmail sub normalizedEmail]).

Definition deduplicateSubscribers (subscribers : list Subscriber) : list Subscriber :=
  (foldl dedupStep (∅, []) subscribers).2.

(** ISO 8601 timestamps of one format and zone, as the forms API issues
    them, are ordered in time as they are ordered as strings. *)
Definition earlier (t1 t2 : string) : bool :=
  match String.compare t1 t2 with
  | Lt => true
  | _ => false
  end.

End Subscribers.

(** ** newsletter-generator.js *)

Module Generator.

(** What one POST to the completion API can come to. *)
Inductive ApiResponse :=
| FetchRejected (msg : string)
| NotOk (status : nat) (errorBody : string)
| BadJson (msg : string)
| NoChoice
| ContentNotString (msg : string)
| Completion (content : string).

Inductive Event :=
| Request (systemPrompt userPrompt : string)
| Sleep (ms : nat).

(** The world of a run: how many requests were sent, and the requests
    and timer waits in the order they happened. *)
Record World := { calls : nat; trace : list Event }.

(** A computation that reads and changes the world and may throw. *)
Definition M (A : Type) : Type := World → Res A * World.

#[global] Instance M_ret : MRet M := λ A a w, (Ok a, w).

#[global] Instance M_bind : MBind M := λ A B k m w,
  match m w with
  | (Ok a, w') => k a w'
  | (Throw e, w') => (Throw e, w')
  end.

Definition throw {A} (msg : string) : M A := λ w, (Throw msg, w).

Definition sleep (ms : nat) : M unit :=
  λ w, (Ok tt, {| calls := calls w; trace := trace w ++ [Sleep ms] |}).

(** [config.ai] *)
Definition maxRetries : nat := 3.
Definition retryDelayMs : nat := 2000.

Definition showNat (n : nat) : string := JS.decimal (N.of_nat n).

(** The [try] block of one attempt: the text returned, or the message of
    the error thrown. *)
Definition attemptResult (r : ApiResponse) : string + string :=
  match r with
  | FetchRejected msg => inl msg
  | NotOk status errorBody => inl ("Groq API " +:+ showNat status +:+ ": " +:+ errorBody)
  | BadJson msg => inl msg
  | NoChoice => inl "Unexpected API response structure"
  | ContentNotString msg => inl msg
  | Completion content => inr (JS.trim content)
  end.

Section WithEnvironment.

(** [api j] is what the [j]-th request of the run comes to;
    [GROQ_API_KEY] is the environment variable. *)
Variable api : nat → ApiResponse.
Variable GROQ_API_KEY : option string.

Definition fetch (systemPrompt userPrompt : string) : M ApiResponse :=
  λ w, (Ok (api (calls w)),
        {| calls := S (calls w);
           trace := trace w ++ [Request systemPrompt userPrompt] |}).

(** The loop [for (attempt = 1; attempt <= maxRetries; attempt++)], with
    [remaining = maxRetries + 1 - attempt] iterations to go. *)
Fixpoint attemptLoop (remaining attempt : nat) (lastError : string)
    (systemPrompt userPrompt : string) : M string :=
  match remaining with
  | O =>
      throw ("Groq API failed after " +:+ showNat maxRetries +:+ " attempts: "
             +:+ lastError)
  | S remaining' =>
      r ← fetch systemPrompt userPrompt;
      match attemptResult r with
      | inr text => mret text
      | inl message =>
          _ ← (if (attempt <? maxRetries)%nat
               then sleep (retryDelayMs * attempt)
               else mret tt);
          attemptLoop remaining' (S attempt) message systemPrompt userPrompt
      end
  end.

Definition callGroqAI (systemPrompt userPrompt : string) : M string :=
  match GROQ_API_KEY with
  | None | Some EmptyString =>
      throw "GROQ_API_KEY is not set. Check your .env file."
  | Some _ => attemptLoop maxRetries 1 "" systemPrompt userPrompt
  end.

(** The six sections, and the prompt templates.  The templates are string
    concatenations over the content, the configuration and the month;
    they are kept abstract. *)
Inductive SectionKey :=
| PastoralMessage
| KingdomIntelligence
| KingdomLiving
| PrayerFocus
| ScriptureFocus
| Upcoming.

Variable buildSystemPrompt : string.
Variable buildPrompt : SectionKey → Gatherer.Content → string → Z → string.

(** The host's dates. *)
Variable host : JSDate.Host.

Definition generateSection (key : SectionKey) (content : Gatherer.Content)
    (monthName : string) (year : Z) : M string :=
  callGroqAI buildSystemPrompt (buildPrompt key content monthName year).

(** [while (firstSaturday.getDay() !== 6) firstSaturday.setDate(...)] of
    [generateUpcoming], with [fuel] bounding the iterations; [None] is a
    loop that is still running when the fuel is used up. *)
Fixpoint saturdayLoop (fuel : nat) (firstSaturday : JSDate.Date) : option JSDate.Date :=
  match fuel with
  | O => None
  | S fuel' =>
      if decide (JSDate.getDay firstSaturday = Some 6%Z) then Some firstSaturday
      else saturdayLoop fuel' (JSDate.nextDay host firstSaturday)
  end.

(** The date computed at the head of [generateUpcoming]: the month index
    read from the date string, the first day of that month, the loop.
    Seven iterations decide the loop: a loop that has ended is not
    changed by more of them (lemma [saturdayLoop_more_fuel]), and when
    seven do not reach a Saturday no number of iterations does (lemma
    [saturdayLoop_never]): [None] is then a loop that never ends. *)
Definition firstDay (monthName : string) (year : Z) : JSDate.Date :=
  match JSDate.monthOf host monthName year with
  | Some monthIndex => JSDate.newDate host year monthIndex
  | None => None
  end.

Definition firstSaturday (monthName : string) (year : Z) : option JSDate.Date :=
  saturdayLoop 7 (firstDay monthName year).

(** The first five sections, generated one after the other. *)
Definition firstFive (content : Gatherer.Content) (monthName : string) (year : Z)
    : M (string * string * string * string * string) :=
  pastoralMessage ← generateSection PastoralMessage content monthName year;
  kingdomIntelligence ← generateSection KingdomIntelligence content monthName year;
  kingdomLiving ← generateSection KingdomLiving content monthName year;
  prayerFocus ← generateSection PrayerFocus content monthName year;
  scriptureFocus ← generateSection ScriptureFocus content monthName year;
  mret (pastoralMessage, kingdomIntelligence, kingdomLiving, prayerFocus, scriptureFocus).

(** [generateNewsletter(content, month, year)].  [format] throws a
    RangeError on an Invalid Date, before any section is asked for; the
    date of [generateUpcoming] is computed after the first five sections
    and before the request for the sixth (its formatted form goes into
    that section's prompt).  The result is [None] for a run that never
    returns. *)
Definition generateNewsletter (now : string) (content : Gatherer.Content)
    (month year : Z) : World → option (Res Publish.Newsletter) * World :=
  λ w,
  match JSDate.newDate host year (month - 1) with
  | None => (Some (Throw "Invalid time value"), w)
  | Some _ =>
      let monthName := DateFns.format_MMMM month in
      let dateString := monthName +:+ " " +:+ DateFns.format_yyyy year month in
      match firstFive content monthName year w with
      | (Throw e, w) => (Some (Throw e), w)
      | (Ok (pastoralMessage, kingdomIntelligence, kingdomLiving, prayerFocus,
             scriptureFocus), w) =>
          match firstSaturday monthName year with
          | None => (None, w)
          | Some _ =>
              match generateSection Upcoming content monthName year w with
              | (Throw e, w) => (Some (Throw e), w)
              | (Ok upcoming, w) =>
                  (Some (Ok
                     {| Publish.metadata :=
                          {| Publish.title := "The Kingdom Report";
                             Publish.subtitle :=
                               "Monthly Intelligence from Increasing Faith Ministries";
                             Publish.month := month;
                             Publish.year := year;
                             Publish.monthName := monthName;
                             Publish.dateString := dateString;
                             Publish.generatedAt := now;
                             Publish.ministry := "Increasing Faith Ministries";
                             Publish.pastor := "Curtis Stephens Jr.";
                             Publish.contentSource :=
                               if default false (Gatherer.isFallback content)
                               then "fallback" else "web";
                             Publish.meta_theme := Gatherer.monthlyTheme content |};
                        Publish.sections :=
                          {| Publish.pastoralMessage :=
                               {| Publish.sec_title := "From the Desk of Pastor Curtis";
                                  Publish.content := pastoralMessage |};
                             Publish.kingdomIntelligence :=
                               {| Publish.sec_title := "Kingdom Intelligence";
                                  Publish.content := kingdomIntelligence |};
                             Publish.kingdomLiving :=
                               {| Publish.sec_title := "Kingdom Living";
                                  Publish.content := kingdomLiving |};
                             Publish.prayerFocus :=
                               {| Publish.sec_title := "Prayer Focus";
                                  Publish.content := prayerFocus |};
                             Publish.scriptureFocus :=
                               {| Publish.sec_title := "Scripture of the Month";
                                  Publish.content := scriptureFocus |};
                             Publish.upcoming :=
                               {| Publish.sec_title := "Upcoming at IFM";
                                  Publish.content := upcoming |} |} |}),
                   w)
              end
          end
      end
  end.

End WithEnvironment.

End Generator.

(** ** send-newsletter.js: batch sending *)

Module Sender.

(** [CONFIG] *)
Definition batchSize : nat := 10.
Definition batchDelay : nat := 2000.

(** What happens during a run, in order: the batch announcement that is
    logged (batch number, batch length), each call of [sendEmail], each
    timer wait. *)
Inductive Event :=
| BatchStart (number size : nat)
| Send (to : string)
| Sleep (ms : nat).

(** The outcome of one call of [sendEmail]: the API answers 2xx, or the
    call throws (rejected fetch, other status). *)
Inductive SendOutcome :=
| Delivered
| SendError (msg : string).

Record State := {
  sent : nat;
  failed : nat;
  calls : nat;
  trace : list Event;
}.

Definition initial : State :=
  {| sent := 0; failed := 0; calls := 0; trace := [] |}.

Definition logEvent (ev : Event) (st : State) : State :=
  {| sent := sent st; failed := failed st; calls := calls st;
     trace := trace st ++ [ev] |}.

Section WithMailer.

(** [resend j] is the outcome of the [j]-th call of [sendEmail]. *)
Variable resend : nat → SendOutcome.

(** The body of [for (const subscriber of batch)]: the call and its
    [try]/[catch]. *)
Definition sendOne (st : State) (subscriber : Subscribers.Subscriber) : State :=
  let st' := {| sent := sent st; failed := failed st; calls := S (calls st);
                trace := trace st ++ [Send (Subscribers.email subscriber)] |} in
  match resend (calls st) with
  | Delivered =>
      {| sent := S (sent st'); failed := failed st'; calls := calls st';
         trace := trace st' |}
  | SendError _ =>
      {| sent := sent st'; failed := S (failed st'); calls := calls st';
         trace := trace st' |}
  end.

(** [subscribers.slice(i, j)] *)
Definition slice {A} (i j : nat) (l : list A) : list A := take (j - i) (drop i l).

(** [for (let i = 0; i < subscribers.length; i += batchSize)], started at
    [i], with [fuel] bounding the number of iterations. *)
Fixpoint batchLoop (fuel : nat) (subscribers : list Subscribers.Subscriber)
    (i : nat) (st : State) : State :=
  match fuel with
  | O => st
  | S fuel' =>
      if (i <? length subscribers)%nat then
        let batch := slice i (i + batchSize) subscribers in
        let st := logEvent (BatchStart (i / batchSize + 1) (length batch)) st in
        let st := foldl sendOne st batch in
        let st :=
          if (i + batchSize <? length subscribers)%nat
          then logEvent (Sleep batchDelay) st
          else st in
        batchLoop fuel' subscribers (i + batchSize) st
      else st
  end.

(** The loop of [main].  Each iteration advances [i] by 10, so one
    iteration per subscriber is more than the loop can use. *)
Definition sendAll (subscribers : list Subscribers.Subscriber) : State :=
  batchLoop (length subscribers) subscribers 0 initial.

(** How a run ends once it has come to the check of the API key:
    [process.exit(code)], or a return. *)
Inductive Run :=
| Exit (code : nat)
| Return (st : State).

(** The part of [main] from the check of the API key on (lines 77 to
    128).  [testEmail] is the argument after [--test], if any; [netlify]
    is what [getSubscribers] comes to. *)
Definition mainFromKeyCheck (RESEND_API_KEY : option string) (testEmail : option string)
    (netlify : Res (list Subscribers.Subscriber)) : Run :=
  match RESEND_API_KEY with
  | None | Some EmptyString => Exit 1
  | Some _ =>
      let subscribers :=
        match testEmail with
        | Some (String c e) =>
            Ok [ {| Subscribers.name := "Test Subscriber";
                    Subscribers.email := String c e;
                    Subscribers.subscribedAt := "" |} ]
        | _ => netlify
        end in
      match subscribers with
      | Throw _ => Exit 1
      | Ok subscribers =>
          match testEmail, subscribers with
          | Some (String _ _), _ => Return (sendAll subscribers)
          | _, [] => Return initial
          | _, _ => Return (sendAll subscribers)
          end
      end
  end.

(** What the script finds on disk: whether [loadContent()] gives a
    value that is not falsy (the file is there and parses), whether
    [loadTemplate()] gives a text that is not empty, what
    [buildEmailHtml(template, content)] comes to, and what writing the
    preview file comes to. *)
Record Files := {
  content : bool;
  template : bool;
  emailHtml : Res string;
  previewWrite : Res unit;
}.

(** How a run of [main] ends: [process.exit(code)], also from the
    [catch] of the last line; the return after the preview is written;
    the return at the end, or on an empty subscriber list, with the
    sends made. *)
Inductive Ending :=
| Exited (code : nat)
| PreviewSaved
| Returned (st : State).

(** [testIndex !== -1 ? args[testIndex + 1] : null]; [None] is [null] or
    [undefined]. *)
Definition testEmailOf (args : list string) : option string :=
  match fst <$> list_find (λ a, a = "--test") args with
  | Some testIndex => args !! (testIndex + 1)%nat
  | None => None
  end.

(** [main()], lines 39 to 128: the loading of the content and of the
    template, the building of the email, the preview, and then the part
    from the check of the API key on. *)
Definition main (args : list string) (files : Files)
    (RESEND_API_KEY : option string)
    (netlify : Res (list Subscribers.Subscriber)) : Ending :=
  let isPreview := bool_decide ("--preview" ∈ args) in
  let testEmail := testEmailOf args in
  if negb (content files) then Exited 1
  else if negb (template files) then Exited 1
  else
    match emailHtml files with
    | Throw _ => Exited 1
    | Ok _ =>
        if isPreview then
          match previewWrite files with
          | Throw _ => Exited 1
          | Ok _ => PreviewSaved
          end
        else
          match mainFromKeyCheck RESEND_API_KEY testEmail netlify with
          | Exit code => Exited code
          | Return st => Returned st
          end
    end.

End WithMailer.

(** The sends, waits and batch lengths of a trace, in order. *)
Definition sendsOf (t : list Event) : list string :=
  omap (λ ev, match ev with Send to => Some to | _ => None end) t.

Definition sleepsOf (t : list Event) : list nat :=
  omap (λ ev, match ev with Sleep ms => Some ms | _ => None end) t.

Definition batchesOf (t : list Event) : list nat :=
  omap (λ ev, match ev with BatchStart _ size => Some size | _ => None end) t.

End Sender.

(** ** send-alert.js: the live-alert notifier *)

Module LiveAlert.

Record Env := {
  TELEGRAM_BOT_TOKEN : option string;
  TELEGRAM_CHANNEL_ID : option string;
  RESEND_API_KEY : option string;
}.

(** [process.env.X || ''] *)
Definition orEmpty (v : option string) : string := default "" v.

Definition truthy (s : string) : bool :=
  match s with
  | EmptyString => false
  | String _ _ => true
  end.

(** [CONFIG.email.subscribers] *)
Definition subscribers : list string :=
  [ "curtisstephensjr@gmail.com"; "deborahliadi@gmail.com";
    "andrewstaneatia@gmail.com"; "hawkins.lynette@yahoo.com";
    "tammystephens66@yahoo.com"; "cdubdub23@gmail.com" ].

Inductive Channel := Ntfy | Telegram | Email.

#[global] Instance Channel_eq_dec : EqDecision Channel.
Proof. solve_decision. Defined.

(** A request sent (to the push topic, to the bot API, to the mail API
    for one recipient) or a timer wait. *)
Inductive Event :=
| Post (channel : Channel) (target : string)
| Sleep (ms : nat).

(** What a request comes to: the fetch rejects, or it answers with a
    status inside or outside 2xx and a body that the sender can or cannot
    read as it expects. *)
Inductive Response :=
| Rejected (msg : string)
| Answer (ok : bool) (bodyReadable : bool).

Record State := { calls : nat; trace : list Event }.

Definition initial : State := {| calls := 0; trace := [] |}.

Section WithNetwork.

Variable env : Env.

(** [net j] is what the [j]-th request of the run comes to. *)
Variable net : nat → Response.

Definition request (channel : Channel) (target : string) (st : State)
    : Response * State :=
  (net (calls st),
   {| calls := S (calls st); trace := trace st ++ [Post channel target] |}).

Definition wait (ms : nat) (st : State) : State :=
  {| calls := calls st; trace := trace st ++ [Sleep ms] |}.

(** The [try] block of [sendNtfy] and [sendTelegram]: a status outside
    2xx throws, and so does a body that is not what is read from it. *)
Definition delivered (r : Response) : bool :=
  match r with
  | Rejected _ => false
  | Answer ok bodyReadable => ok && bodyReadable
  end.

Definition sendNtfy (message : option string) (st : State) : bool * State :=
  let '(r, st) := request Ntfy "https://ntfy.sh/ifm-live-alerts-2026" st in
  (delivered r, st).

Definition sendTelegram (message : option string) (st : State) : bool * State :=
  let botToken := orEmpty (TELEGRAM_BOT_TOKEN env) in
  let channelId := orEmpty (TELEGRAM_CHANNEL_ID env) in
  if negb (truthy botToken) || negb (truthy channelId) then (false, st)
  else
    let url := "https://api.telegram.org/bot" +:+ botToken +:+ "/sendMessage" in
    let '(r, st) := request Telegram url st in
    (delivered r, st).

(** The body of [for (const email of subscribers)] over [(sent, failed)]
    and the state: on a 2xx answer the count and the 600 ms wait, on
    anything else the failure count. *)
Definition emailOne (acc : nat * nat * State) (email : string) : nat * nat * State :=
  let '(sent, failed, st) := acc in
  let '(r, st) := request Email email st in
  match r with
  | Answer true _ => (S sent, failed, wait 600 st)
  | _ => (sent, S failed, st)
  end.

Definition sendEmail (message : option string) (st : State) : bool * State :=
  let apiKey := orEmpty (RESEND_API_KEY env) in
  if negb (truthy apiKey) then (false, st)
  else if (length subscribers =? 0)%nat then (false, st)
  else
    let '(sent, failed, st) := foldl emailOne (0%nat, 0%nat, st) subscribers in
    ((0 <? sent)%nat, st).

(** [args.indexOf(flag)] and the argument after it *)
Definition indexOf (flag : string) (args : list string) : option nat :=
  fst <$> list_find (λ a, a = flag) args.

(** [i !== -1 ? args[i + 1] : dflt]; [None] is [undefined]. *)
Definition argAfter (flag : string) (args : list string) (dflt : string)
    : option string :=
  match indexOf flag args with
  | Some i => args !! (i + 1)%nat
  | None => Some dflt
  end.

Definition DEFAULT_MESSAGE : string :=
  "Pastors Curtis & Tammy Stephens are LIVE now! Tap to watch Kingdom truth, faith, and discipleship.".

Definition platformIs (platform : option string) (name : string) : bool :=
  bool_decide (platform = Some name).

(** [main]: the [results] object, keyed by channel name, and the state
    at the end. *)
Definition main (args : list string) : gmap string bool * State :=
  let isTest := bool_decide ("--test" ∈ args) in
  let message := argAfter "--message" args DEFAULT_MESSAGE in
  let platform := argAfter "--platform" args "all" in
  let results : gmap string bool := ∅ in
  let st := initial in
  let '(results, st) :=
    if isTest || platformIs platform "all" || platformIs platform "ntfy"
    then let '(b, st) := sendNtfy message st in (<["ntfy" := b]> results, st)
    else (results, st) in
  let '(results, st) :=
    if negb isTest && (platformIs platform "all" || platformIs platform "telegram")
    then let '(b, st) := sendTelegram message st in (<["telegram" := b]> results, st)
    else (results, st) in
  let '(results, st) :=
    if negb isTest && (platformIs platform "all" || platformIs platform "email")
    then let '(b, st) := sendEmail message st in (<["email" := b]> results, st)
    else (results, st) in
  (results, st).

End WithNetwork.

(** Whether a run sent a request on a channel. *)
Definition attempted (channel : Channel) (st : State) : bool :=
  existsb (λ ev, match ev with
                 | Post c _ => bool_decide (c = channel)
                 | Sleep _ => false
                 end) (trace st).

End LiveAlert.

(** ** netlify/functions/newsletter-signup.js *)

Module Signup.

(** [[^\s@]] *)
Definition plainChar (c : ascii) : bool :=
  negb (JS.is_ws c) && negb (Ascii.eqb c "@").

Fixpoint allPlain (s : string) : bool :=
  match s with
  | EmptyString => true
  | String c s' => plainChar c && allPlain s'
  end.

(** The string split at its first [@]. *)
Fixpoint splitAt (s : string) : option (string * string) :=
  match s with
  | EmptyString => None
  | String c s' =>
      if Ascii.eqb c "@" then Some (EmptyString, s')
      else match splitAt s' with
           | Some (l, r) => Some (String c l, r)
           | None => None
           end
  end.

(** A [.] with something after it *)
Fixpoint dotBeforeEnd (s : string) : bool :=
  match s with
  | EmptyString => false
  | String c s' =>
      Ascii.eqb c "." && negb (String.eqb s' "") || dotBeforeEnd s'
  end.

(** A [.] with something before it and something after it *)
Definition innerDot (s : string) : bool :=
  match s with
  | EmptyString => false
  | String _ s' => dotBeforeEnd s'
  end.

(** [/^[^\s@]+@[^\s@]+\.[^\s@]+$/.test(s)]: the part before the first [@]
    is not empty, the part after it holds a [.] that is neither its first
    nor its last character, and no character of either part is white
    space or a further [@]. *)
Definition emailRegex (s : string) : bool :=
  match splitAt s with
  | Some (l, r) =>
      negb (String.eqb l "") && allPlain l && allPlain r && innerDot r
  | None => false
  end.

(** [isValidEmail(email)]; [None] is a value that is missing or not a
    string. *)
Definition isValidEmail (email : option string) : bool :=
  match email with
  | None | Some EmptyString => false
  | Some e => emailRegex (JS.trim e)
  end.

(** The fields the handler reads from the parsed body. *)
Record Data := { email : option string; name : option string }.

(** The request body, given by what the two parsers make of it:
    [JSON.parse] followed by the destructuring (which throw on text that
    is not JSON and on [null]), and [URLSearchParams] (which accepts any
    text). *)
Record Body := { asJson : Res Data; asForm : Data }.

Record Event := {
  httpMethod : string;
  headers : gmap string string;
  body : Body;
}.

(** The JSON body of a response. *)
Record Payload := {
  success : bool;
  message : string;
  emailSent : option bool;
}.

Record Response := { statusCode : nat; payload : option Payload }.

(** A JSON body as the handler looks at it: [null], or a value with the
    truthiness of its [skipped] and of its [error] field (both false for
    a value without these fields: a number, a string, an array, an object
    such as the mail API's [{ id }]). *)
Inductive JsonBody :=
| JsonNull
| JsonValue (skipped error : bool).

(** What the POST to the mail API comes to: the fetch rejects; or it
    answers with a status, inside 2xx or not, and a body that can or
    cannot be read, as text for an error status and, for a 2xx status,
    as the JSON object that the mail API sends, which has no [skipped]
    and no [error] field; or it answers 2xx with some other JSON body. *)
Inductive MailResponse :=
| FetchRejected (msg : string)
| Status (ok : bool) (status : nat) (bodyReadable : bool)
| Json2xx (status : nat) (body : JsonBody).

(** What [sendWelcomeEmail] returns: [{ skipped: true }],
    [{ error: true, status }], the mail API's object, or another parsed
    body. *)
Inductive EmailResult :=
| Skipped
| Failed (status : nat)
| Accepted
| Parsed (body : JsonBody).

(** A request to the mail API for one recipient *)
Inductive Effect := WelcomePost (to : string).

Section WithEnvironment.

Variable RESEND_API_KEY : option string.
Variable mail : MailResponse.

(** [sendWelcomeEmail(email, name)]: the result, or the exception, and
    the requests made. *)
Definition sendWelcomeEmail (email name : string) : Res EmailResult * list Effect :=
  match RESEND_API_KEY with
  | None | Some EmptyString => (Ok Skipped, [])
  | Some _ =>
      let effects := [WelcomePost email] in
      match mail with
      | FetchRejected msg => (Throw msg, effects)
      | Status false status true => (Ok (Failed status), effects)
      | Status false _ false => (Throw "body stream failed", effects)
      | Status true _ true => (Ok Accepted, effects)
      | Status true _ false => (Throw "Unexpected token in JSON", effects)
      | Json2xx _ body => (Ok (Parsed body), effects)
      end
  end.

(** [emailResult.skipped] and [emailResult.error] as the handler reads
    them; reading a field of [null] throws a TypeError. *)
Definition flags (emailResult : EmailResult) : Res (bool * bool) :=
  match emailResult with
  | Skipped => Ok (true, false)
  | Failed _ => Ok (false, true)
  | Accepted => Ok (false, false)
  | Parsed JsonNull => Throw "Cannot read properties of null"
  | Parsed (JsonValue skipped error) => Ok (skipped, error)
  end.

Definition reply (code : nat) (ok : bool) (msg : string) (sent : option bool) : Response :=
  {| statusCode := code;
     payload := Some {| success := ok; message := msg; emailSent := sent |} |}.

Definition handler (event : Event) : Response * list Effect :=
  if String.eqb (httpMethod event) "OPTIONS" then
    ({| statusCode := 204; payload := None |}, [])
  else if negb (String.eqb (httpMethod event) "POST") then
    (reply 405 false "Method not allowed. Please use POST." None, [])
  else
    let failure effects :=
      (reply 500 false
         "Something went wrong. Please try again or email us directly at increasingfaithministry@gmail.com."
         None, effects) in
    let contentType := default "" (headers event !! "content-type") in
    let data :=
      if JS.includes contentType "application/json"
      then asJson (body event)
      else Ok (asForm (body event)) in
    match data with
    | Throw _ => failure []
    | Ok data =>
        if negb (isValidEmail (email data)) then
          (reply 400 false "Please provide a valid email address." None, [])
        else
          let address := JS.trim (default "" (email data)) in
          let name := default "" (name data) in
          match sendWelcomeEmail address name with
          | (Throw _, effects) => failure effects
          | (Ok emailResult, effects) =>
              match flags emailResult with
              | Throw _ => failure effects
              | Ok (skipped, error) =>
                  (reply 200 true
                     "Welcome to the Kingdom Report! Check your inbox for a welcome message."
                     (Some (negb skipped && negb error)),
                   effects)
              end
          end
    end.

End WithEnvironment.

End Signup.

(** ** subscribers.js: reading the subscriber list from the forms API *)

Module Forms.

Record Env := {
  NETLIFY_ACCESS_TOKEN : option string;
  NETLIFY_SITE_ID : option string;
}.

Definition FORM_NAME : string := "newsletter-subscribers".

(** [perPage] *)
Definition perPage : nat := 100.

(** The fields of the parsed JSON that the script reads: of a form its
    name and id, of a submission the four data fields (a form field is a
    string, or is missing) and the creation time. *)
Record Form := { form_name : string; id : string }.

Record Submission := {
  data_name : option string;
  data_Name : option string;
  data_email : option string;
  data_Email : option string;
  created_at : string;
}.

(** What a GET comes to: the fetch rejects; a status outside 2xx with a
    body that can or cannot be read as text; a 2xx body that is not JSON;
    the parsed JSON. *)
Inductive Answer (A : Type) :=
| FetchRejected (msg : string)
| NotOk (status : nat) (errorBody : Res string)
| BadJson (msg : string)
| Json (a : A).

Arguments FetchRejected {A} msg.
Arguments NotOk {A} status errorBody.
Arguments BadJson {A} msg.
Arguments Json {A} a.

(** The requests of a run, in order. *)
Inductive Endpoint :=
| FormsOf (siteId : string)
| SubmissionsPage (siteId formId : string) (page : nat).

(** [a || b] where [a] is a string or missing *)
Definition orStr (a : option string) (b : string) : string :=
  match a with
  | Some (String c s) => String c s
  | _ => b
  end.

Definition validateConfig (env : Env) : Res unit :=
  match NETLIFY_ACCESS_TOKEN env with
  | None | Some EmptyString =>
      Throw "Missing NETLIFY_ACCESS_TOKEN. Get one at: Netlify > User Settings > Applications > Personal Access Tokens."
  | Some _ =>
      match NETLIFY_SITE_ID env with
      | None | Some EmptyString =>
          Throw "Missing NETLIFY_SITE_ID. Find it at: Netlify Dashboard > Site Settings > General > Site ID."
      | Some _ => Ok tt
      end
  end.

(** [netlifyGet(endpoint)], given what the request comes to. *)
Definition netlifyGet {A} (answer : Answer A) : Res A :=
  match answer with
  | FetchRejected msg => Throw msg
  | NotOk status (Ok errorBody) =>
      Throw ("Netlify API error (" +:+ JS.decimal (N.of_nat status) +:+ "): "
             +:+ errorBody)
  | NotOk _ (Throw msg) => Throw msg
  | BadJson msg => Throw msg
  | Json a => Ok a
  end.

(** [{ name: data.name || data.Name || "", email: ..., subscribedAt }] *)
Definition toSubscriber (submission : Submission) : Subscribers.Subscriber :=
  {| Subscribers.name := orStr (data_name submission) (orStr (data_Name submission) "");
     Subscribers.email := orStr (data_email submission) (orStr (data_Email submission) "");
     Subscribers.subscribedAt := created_at submission |}.

(** [sub.email && sub.email.includes("@")] *)
Definition hasAt (sub : Subscribers.Subscriber) : bool :=
  match Subscribers.email sub with
  | EmptyString => false
  | String _ _ => JS.includes (Subscribers.email sub) "@"
  end.

Section WithApi.

Variable env : Env.

(** [forms] is what the request for the site's forms comes to, [pages n]
    what the request for page [n] of the submissions comes to. *)
Variable forms : Answer (list Form).
Variable pages : nat → Answer (list Submission).

Definition siteId : string := default "" (NETLIFY_SITE_ID env).

Definition getFormId (reqs : list Endpoint) : Res string * list Endpoint :=
  let reqs := reqs ++ [FormsOf siteId] in
  match netlifyGet forms with
  | Throw e => (Throw e, reqs)
  | Ok forms =>
      match List.find (λ form, String.eqb (form_name form) FORM_NAME) forms with
      | None =>
          (Throw ("Form " +:+ String (ascii_of_nat 34) FORM_NAME
                  +:+ String (ascii_of_nat 34) " not found on this site. "
                  +:+ "Make sure your HTML form has name="
                  +:+ String (ascii_of_nat 34) FORM_NAME
                  +:+ String (ascii_of_nat 34) " and data-netlify="
                  +:+ String (ascii_of_nat 34) "true"
                  +:+ String (ascii_of_nat 34) ", "
                  +:+ "and that at least one submission has been made."),
           reqs)
      | Some newsletterForm => (Ok (id newsletterForm), reqs)
      end
  end.

(** The [while (true)] loop over the pages.  [None] is a run that is
    still asking for pages when the fuel is used up. *)
Fixpoint pageLoop (fuel : nat) (formId : string) (page : nat)
    (allSubmissions : list Submission) (reqs : list Endpoint)
    : option (Res (list Submission)) * list Endpoint :=
  match fuel with
  | O => (None, reqs)
  | S fuel' =>
      let reqs := reqs ++ [SubmissionsPage siteId formId page] in
      match netlifyGet (pages page) with
      | Throw e => (Some (Throw e), reqs)
      | Ok submissions =>
          if (length submissions =? 0)%nat then (Some (Ok allSubmissions), reqs)
          else
            let allSubmissions := allSubmissions ++ submissions in
            if (length submissions <? perPage)%nat
            then (Some (Ok allSubmissions), reqs)
            else pageLoop fuel' formId (S page) allSubmissions reqs
      end
  end.

Definition getSubscribers (fuel : nat)
    : option (Res (list Subscribers.Subscriber)) * list Endpoint :=
  match validateConfig env with
  | Throw e => (Some (Throw e), [])
  | Ok _ =>
      match getFormId [] with
      | (Throw e, reqs) => (Some (Throw e), reqs)
      | (Ok formId, reqs) =>
          match pageLoop fuel formId 1 [] reqs with
          | (None, reqs) => (None, reqs)
          | (Some (Throw e), reqs) => (Some (Throw e), reqs)
          | (Some (Ok allSubmissions), reqs) =>
              let subscribers := toSubscriber <$> allSubmissions in
              (Some (Ok (List.filter hasAt subscribers)), reqs)
          end
      end
  end.

End WithApi.

End Forms.

(** ** index.js: arguments and pipeline *)

Module Index.

Record Options := { month : Z; year : Z; dryRun : bool }.

(** How a run of [main] ends: [process.exit(code)]; the preview of a dry
    run; the call [publishNewsletter(newsletter)], after which the run
    ends normally, or with code 1 if that call throws; or not at all. *)
Inductive Run :=
| Exit (code : nat)
| Preview (newsletter : Publish.Newsletter)
| Published (newsletter : Publish.Newsletter)
| Hangs.

Section WithEnvironment.

(** [parseInt(s, 10)]: the integer read, [None] for [NaN]. *)
Variable parseInt : string → option Z.

(** [new Date().getMonth() + 1] and [new Date().getFullYear()] *)
Variables (thisMonth thisYear : Z).

(** The [for] loop of [parseArgs] over the arguments that are left; the
    value of [--month] and [--year] is the argument after the flag,
    [undefined] at the end of the list, which [parseInt] reads as [NaN].
    [None] is [process.exit(1)]. *)
Fixpoint parseLoop (args : list string) (options : Options) : option Options :=
  match args with
  | [] => Some options
  | arg :: rest =>
      if String.eqb arg "--month" then
        match rest with
        | [] => None
        | value :: rest' =>
            match parseInt value with
            | None => None
            | Some m =>
                if (m <? 1)%Z || (12 <? m)%Z then None
                else parseLoop rest'
                       {| month := m; year := year options; dryRun := dryRun options |}
            end
        end
      else if String.eqb arg "--year" then
        match rest with
        | [] => None
        | value :: rest' =>
            match parseInt value with
            | None => None
            | Some y =>
                if (y <? 2020)%Z then None
                else parseLoop rest'
                       {| month := month options; year := y; dryRun := dryRun options |}
            end
        end
      else if String.eqb arg "--dry-run" then
        parseLoop rest
          {| month := month options; year := year options; dryRun := true |}
      else None
  end.

Definition parseArgs (args : list string) : option Options :=
  parseLoop args {| month := thisMonth; year := thisYear; dryRun := false |}.

(** The environment of the pipeline: the key, the feeds, the completion
    API, the prompt templates, and the clock as read by the gatherer and
    by the generator. *)
Variable GROQ_API_KEY : option string.
Variable feeds : Gatherer.FeedSource → Gatherer.FetchOutcome.
Variable api : nat → Generator.ApiResponse.
Variable buildSystemPrompt : string.
Variable buildPrompt : Generator.SectionKey → Gatherer.Content → string → Z → string.
Variables (gatheredAt generatedAt : string).
Variable host : JSDate.Host.

Definition main (args : list string) : Run * Generator.World :=
  let start := {| Generator.calls := 0; Generator.trace := [] |} in
  match parseArgs args with
  | None => (Exit 1, start)
  | Some options =>
      match GROQ_API_KEY with
      | None | Some EmptyString => (Exit 1, start)
      | Some _ =>
          match Gatherer.gatherContent feeds gatheredAt (month options) (year options) with
          | Throw _ => (Exit 1, start)
          | Ok content =>
              match Generator.generateNewsletter api GROQ_API_KEY buildSystemPrompt
                      buildPrompt host generatedAt content (month options)
                      (year options) start with
              | (None, w) => (Hangs, w)
              | (Some (Throw _), w) => (Exit 1, w)
              | (Some (Ok newsletter), w) =>
                  if dryRun options then (Preview newsletter, w)
                  else (Published newsletter, w)
              end
          end
      end
  end.

End WithEnvironment.

End Index.

(** ** live-alerts/send-invite.js *)

Module Invite.

Inductive Event :=
| Post (to : string)
| Sleep (ms : nat).

(** What one POST to the mail API comes to: the fetch rejects with an
    error; the API answers outside 2xx, with a body that can be read as
    text or not; the API answers 2xx. *)
Inductive Response :=
| Rejected (msg : string)
| Refused (status : nat) (body : Res string)
| Accepted.

Record State := {
  sent : nat;
  failed : nat;
  calls : nat;
  trace : list Event;
}.

Definition initial : State :=
  {| sent := 0; failed := 0; calls := 0; trace := [] |}.

(** [error.message] in the [catch] block; [None] when nothing is
    thrown. *)
Definition errorMessage (r : Response) : option string :=
  match r with
  | Rejected msg => Some msg
  | Refused status (Ok err) =>
      Some ("Resend " +:+ JS.decimal (N.of_nat status) +:+ ": " +:+ err)
  | Refused _ (Throw msg) => Some msg
  | Accepted => None
  end.

Section WithNetwork.

(** [net j] is what the [j]-th request of the run comes to. *)
Variable net : nat → Response.

(** The body of [for (const email of emails)]. *)
Definition inviteOne (st : State) (email : string) : State :=
  let posted := trace st ++ [Post email] in
  match errorMessage (net (calls st)) with
  | None =>
      {| sent := S (sent st); failed := failed st; calls := S (calls st);
         trace := posted ++ [Sleep 600] |}
  | Some message =>
      {| sent := sent st; failed := S (failed st); calls := S (calls st);
         trace := if JS.includes message "429"
                  then posted ++ [Sleep 3000]
                  else posted |}
  end.

Definition main (emails : list string) : State :=
  foldl inviteOne initial emails.

End WithNetwork.

End Invite.

(** ** The Apps Script sender: subscriber sheet, sending, import *)

Module AppsScript.

(** A cell as [getValues] gives it: a boolean, a string (empty for an
    empty cell), or a number or date, of which the script uses only the
    string form and the truthiness. *)
Inductive Cell :=
| Flag (b : bool)
| Text (s : string)
| Other (shown : string) (truthy : bool).

Definition truthy (c : Cell) : bool :=
  match c with
  | Flag b => b
  | Text EmptyString => false
  | Text (String _ _) => true
  | Other _ t => t
  end.

(** [c.toString()] *)
Definition toString (c : Cell) : string :=
  match c with
  | Flag true => "true"
  | Flag false => "false"
  | Text s => s
  | Other shown _ => shown
  end.

(** [c !== false && c !== 'FALSE' && c !== 'No'] *)
Definition active (c : Cell) : bool :=
  match c with
  | Flag b => b
  | Text s => negb (String.eqb s "FALSE") && negb (String.eqb s "No")
  | Other _ _ => true
  end.

(** A row of the data range, columns A to F: Name, Email, Subscribed
    Date, Active, Last Sent and the time of the last send.  The data
    range is taken to span these columns. *)
Record Row := {
  colA : Cell; colB : Cell; colC : Cell; colD : Cell; colE : Cell; colF : Cell;
}.

Definition blank : Row :=
  {| colA := Text ""; colB := Text ""; colC := Text ""; colD := Text "";
     colE := Text ""; colF := Text "" |}.

Record Subscriber := { name : Cell; email : string; row : nat }.

(** [NEWSLETTER_CONFIG] *)
Definition maxPerRun : nat := 50.
Definition delayBetweenEmails : nat := 2000.

(** The body of the loop of [getActiveSubscribers] for [data[i]]:
    [email.trim()] throws when the cell holds a number, a date or
    [true]. *)
Definition rowSubscriber (i : nat) (r : Row) : Res (option Subscriber) :=
  if truthy (colB r) && active (colD r) then
    match colB r with
    | Text s =>
        Ok (Some {| name := if truthy (colA r) then colA r else Text "Friend";
                    email := JS.trim s;
                    row := i + 1 |})
    | _ => Throw "email.trim is not a function"
    end
  else Ok None.

(** [for (let i = 1; i < data.length; i++)], from row index [i] on. *)
Fixpoint activeLoop (i : nat) (rows : list Row) (subscribers : list Subscriber)
    : Res (list Subscriber) :=
  match rows with
  | [] => Ok subscribers
  | r :: rest =>
      match rowSubscriber i r with
      | Throw e => Throw e
      | Ok None => activeLoop (S i) rest subscribers
      | Ok (Some sub) => activeLoop (S i) rest (subscribers ++ [sub])
      end
  end.

(** [getActiveSubscribers()]; [None] is a spreadsheet without the
    subscriber sheet. *)
Definition getActiveSubscribers (sheet : option (list Row)) : Res (list Subscriber) :=
  match sheet with
  | None => Ok []
  | Some data => activeLoop 1 (drop 1 data) []
  end.

(** The two [setValue] calls of [markAsSent(row, month)] on the rows of
    the sheet; [cells] is how many of them are carried out (both, unless
    the spreadsheet service throws).  A row below the data range comes
    into being, with blank rows between. *)
Definition markAsSent (cells : nat) (row : nat) (month now : Cell)
    (data : list Row) : list Row :=
  let data := data ++ replicate (row - length data) blank in
  alter (λ r, {| colA := colA r; colB := colB r; colC := colC r; colD := colD r;
                 colE := if (1 <=? cells)%nat then month else colE r;
                 colF := if (2 <=? cells)%nat then now else colF r |})
    (row - 1) data.

Inductive Event :=
| Email (to : string)
| Sleep (ms : nat).

(** What happens in the [try] block for one subscriber: [GmailApp]
    throws; or the mail goes out and the row is marked; or the mail goes
    out and [markAsSent] throws after [cells] of its two writes. *)
Inductive Outcome :=
| SendThrows
| SentMarked
| SentMarkThrows (cells : nat).

Record State := {
  sent : nat;
  failed : nat;
  trace : list Event;
  data : list Row;
}.

(** What [fetchNewsletterContent()] returned: [month] is the value of
    [content.month] as a cell, [emailHtml] what
    [buildNewsletterEmail(content)] comes to. *)
Record Content := { month : Cell; emailHtml : Res string }.

Section WithServices.

(** [gmail i] is what happens for [subscribers[i]]; [now] is the clock
    as [markAsSent] reads it. *)
Variable gmail : nat → Outcome.
Variable now : Cell.

(** The body of [for (let i = 0; i < limit; i++)]. *)
Definition sendTo (content : Content) (limit i : nat) (sub : Subscriber)
    (st : State) : State :=
  let mailed := trace st ++ [Email (email sub)] in
  let st :=
    match gmail i with
    | SendThrows =>
        {| sent := sent st; failed := S (failed st); trace := mailed;
           data := data st |}
    | SentMarked =>
        {| sent := S (sent st); failed := failed st; trace := mailed;
           data := markAsSent 2 (row sub) (month content) now (data st) |}
    | SentMarkThrows cells =>
        {| sent := S (sent st); failed := S (failed st); trace := mailed;
           data := markAsSent (Nat.min cells 1) (row sub) (month content) now (data st) |}
    end in
  if (i <? limit - 1)%nat
  then {| sent := sent st; failed := failed st;
          trace := trace st ++ [Sleep delayBetweenEmails]; data := data st |}
  else st.

(** The loop, with [subscribers] the list from index [i] on. *)
Fixpoint sendLoop (content : Content) (limit i : nat) (subscribers : list Subscriber)
    (st : State) : State :=
  match subscribers with
  | [] => st
  | sub :: rest =>
      if (i <? limit)%nat
      then sendLoop content limit (S i) rest (sendTo content limit i sub st)
      else st
  end.

(** [sendNewsletter()]: [content] is [None] when the content could not
    be fetched; [sheet] is the subscriber sheet.  The result is the
    state at the end, or the exception. *)
Definition sendNewsletter (content : option Content) (sheet : option (list Row))
    : Res State :=
  let untouched :=
    {| sent := 0; failed := 0; trace := []; data := default [] sheet |} in
  match content with
  | None => Ok untouched
  | Some content =>
      match getActiveSubscribers sheet with
      | Throw e => Throw e
      | Ok subscribers =>
          if (length subscribers =? 0)%nat then Ok untouched
          else
            match emailHtml content with
            | Throw e => Throw e
            | Ok _ =>
                let limit := Nat.min (length subscribers) maxPerRun in
                Ok (sendLoop content limit 0 subscribers untouched)
            end
      end
  end.

End WithServices.

(** A form submission as the import reads it. *)
Record Submission := {
  sub_email : option string;
  sub_name : option string;
  created_at : string;
}.

(** [existingData.slice(1).map(row => row[1].toString().toLowerCase())]
    as a set *)
Definition existingEmails (data : list Row) : gset string :=
  list_to_set ((λ r, JS.toLowerCase (toString (colB r))) <$> drop 1 data).

(** The body of [for (const sub of submissions)] over the set, the rows
    and the count. *)
Definition importOne (st : gset string * list Row * nat) (sub : Submission)
    : gset string * list Row * nat :=
  let '(existing, data, added) := st in
  let email := JS.trim (JS.toLowerCase (default "" (sub_email sub))) in
  let name := default "" (sub_name sub) in
  match email with
  | EmptyString => st
  | String _ _ =>
      if decide (email ∈ existing) then st
      else ({[email]} ∪ existing,
            data ++ [ {| colA := Text name; colB := Text email;
                         colC := Other (created_at sub) true;
                         colD := Flag true; colE := Text ""; colF := Text "" |} ],
            S added)
  end.

(** [importFromNetlify()] from the sheet lookup on: the rows afterwards
    and the number added. *)
Definition importFromNetlify (submissions : list Submission) (data : list Row)
    : list Row * nat :=
  let '(_, data, added) :=
    foldl importOne (existingEmails data, data, 0%nat) submissions in
  (data, added).

End AppsScript.

(** * Properties *)

(** ** String primitives *)

Section JSFacts.
Import JS.

Lemma append_nil_l s : "" +:+ s = s.
Proof. reflexivity. Qed.

Lemma append_cons c a b : String c a +:+ b = String c (a +:+ b).
Proof. reflexivity. Qed.

Lemma append_nil_r s : s +:+ "" = s.
Proof. induction s as [|c s IH]; [done|]. by rewrite append_cons, IH. Qed.

Lemma append_assoc a b c : (a +:+ b) +:+ c = a +:+ (b +:+ c).
Proof. induction a as [|x a IH]; [done|]. by rewrite !append_cons, IH. Qed.

Lemma length_append a b :
  String.length (a +:+ b) = (String.length a + String.length b)%nat.
Proof. induction a as [|x a IH]; [done|]. rewrite append_cons. simpl. by rewrite IH. Qed.

Lemma startsWith_spec s p :
  startsWith s p = true ↔ ∃ suf, s = p +:+ suf.
Proof.
  revert s. induction p as [|a p IH]; intros s; simpl.
  - split; [intros _; by exists s | done].
  - destruct s as [|b s].
    + split; [done | intros [suf Hs]; discriminate].
    + rewrite andb_true_iff, Ascii.eqb_eq, IH. split.
      * intros [-> [suf ->]]. by exists suf.
      * intros [suf Hs]. rewrite append_cons in Hs.
        injection Hs as -> ->. split; [done | by exists suf].
Qed.

(** A substring in the sense of [includes]: a contiguous run of code
    units. *)
Definition occursIn (k s : string) : Prop :=
  ∃ pre suf, s = pre +:+ k +:+ suf.

Lemma includes_spec s k : includes s k = true ↔ occursIn k s.
Proof.
  induction s as [|c s IH].
  - simpl. rewrite orb_false_r, startsWith_spec. split.
    + intros [suf Hs]. by exists "", suf.
    + intros [pre [suf Hs]]. destruct pre; [by exists suf | discriminate].
  - cbn [includes]. rewrite orb_true_iff, startsWith_spec, IH. split.
    + intros [[suf Hs] | [pre [suf Hs]]].
      * by exists "", suf.
      * exists (String c pre), suf. by rewrite append_cons, Hs.
    + intros [pre [suf Hs]]. destruct pre as [|x pre].
      * left. by exists suf.
      * right. rewrite append_cons in Hs. injection Hs as -> ->. by exists pre, suf.
Qed.

Lemma toLowerCase_append a b :
  toLowerCase (a +:+ b) = toLowerCase a +:+ toLowerCase b.
Proof.
  induction a as [|x a IH]; [done|].
  rewrite append_cons. simpl. by rewrite IH.
Qed.

Lemma toLowerCase_split s a b :
  toLowerCase s = a +:+ b →
  ∃ a' b', s = a' +:+ b' ∧ toLowerCase a' = a ∧ toLowerCase b' = b.
Proof.
  revert s. induction a as [|x a IH]; intros s Hs.
  - by exists "", s.
  - destruct s as [|c s]; [discriminate|]. rewrite append_cons in Hs.
    simpl in Hs. injection Hs as Hc Hs.
    destruct (IH _ Hs) as (a' & b' & -> & <- & <-).
    exists (String c a'), b'. simpl. by rewrite Hc.
Qed.

Lemma lower_char_idemp c : lower_char (lower_char c) = lower_char c.
Proof. by destruct c as [[] [] [] [] [] [] [] []]. Qed.

Lemma is_ws_lower_char c : is_ws (lower_char c) = is_ws c.
Proof. by destruct c as [[] [] [] [] [] [] [] []]. Qed.

Lemma toLowerCase_idemp s : toLowerCase (toLowerCase s) = toLowerCase s.
Proof. induction s as [|c s IH]; simpl; by rewrite ?lower_char_idemp, ?IH. Qed.

Lemma toLowerCase_trimStart s :
  toLowerCase (trimStart s) = trimStart (toLowerCase s).
Proof.
  induction s as [|c s IH]; [done|]. simpl. rewrite is_ws_lower_char.
  by destruct (is_ws c).
Qed.

Lemma toLowerCase_trimEnd s :
  toLowerCase (trimEnd s) = trimEnd (toLowerCase s).
Proof.
  induction s as [|c s IH]; [done|]. simpl. rewrite <- IH, is_ws_lower_char.
  destruct (trimEnd s); simpl; [by destruct (is_ws c) | done].
Qed.

Lemma toLowerCase_trim s : toLowerCase (trim s) = trim (toLowerCase s).
Proof. unfold trim. by rewrite toLowerCase_trimEnd, toLowerCase_trimStart. Qed.

Lemma trimEnd_idemp s : trimEnd (trimEnd s) = trimEnd s.
Proof.
  induction s as [|c s IH]; [done|]. simpl.
  destruct (trimEnd s) as [|d t] eqn:Ht.
  - destruct (is_ws c) eqn:Hc; simpl; by rewrite ?Hc.
  - cbn [trimEnd] in *. by rewrite IH.
Qed.

(** A string that does not begin with white space *)
Definition noLeadingWs (s : string) : Prop :=
  match s with
  | EmptyString => True
  | String c _ => is_ws c = false
  end.

Lemma trimStart_noLeadingWs s : noLeadingWs (trimStart s).
Proof.
  induction s as [|c s IH]; [done|]. simpl.
  by destruct (is_ws c) eqn:Hc.
Qed.

Lemma trimStart_id s : noLeadingWs s → trimStart s = s.
Proof. destruct s as [|c s]; [done|]. simpl. by intros ->. Qed.

Lemma trimEnd_noLeadingWs s : noLeadingWs s → noLeadingWs (trimEnd s).
Proof.
  destruct s as [|c s]; [done|]. simpl. intros Hc.
  destruct (trimEnd s); [by rewrite Hc | done].
Qed.

Lemma trim_idemp s : trim (trim s) = trim s.
Proof.
  unfold trim. rewrite (trimStart_id (trimEnd _)).
  - apply trimEnd_idemp.
  - apply trimEnd_noLeadingWs, trimStart_noLeadingWs.
Qed.

Lemma length_substring0 n s : (String.length (substring0 n s) ≤ n)%nat.
Proof.
  revert s. induction n as [|n IH]; intros [|c s]; simpl; try lia.
  specialize (IH s). lia.
Qed.

Lemma substring0_prefix n s : ∃ suf, s = substring0 n s +:+ suf.
Proof.
  revert s. induction n as [|n IH]; intros s.
  - by exists s.
  - destruct s as [|c s]; [by exists ""|].
    destruct (IH s) as [suf Hs]. exists suf. simpl.
    by rewrite append_cons, <- Hs.
Qed.

End JSFacts.

(** ** Publisher *)

Section PublishFacts.
Import Publish.



Lemma addLeadingZeros_4_length z :
  (0 ≤ z < 10000)%Z → String.length (JS.addLeadingZeros (Z.to_N z) 4) = 4%nat.
Proof.
  intros Hz.
  assert (Hall : forallb (λ k, String.length (JS.addLeadingZeros (Z.to_N k) 4) =? 4)%nat
                   (seqZ 0 10000) = true) by (vm_compute; reflexivity).
  rewrite forallb_forall in Hall.
  apply Nat.eqb_eq, Hall, list_elem_of_In, elem_of_seqZ. lia.
Qed.

Lemma addLeadingZeros_2_length z :
  (0 ≤ z < 100)%Z → String.length (JS.addLeadingZeros (Z.to_N z) 2) = 2%nat.
Proof.
  intros Hz.
  assert (Hall : forallb (λ k, String.length (JS.addLeadingZeros (Z.to_N k) 2) =? 2)%nat
                   (seqZ 0 100) = true) by (vm_compute; reflexivity).
  rewrite forallb_forall in Hall.
  apply Nat.eqb_eq, Hall, list_elem_of_In, elem_of_seqZ. lia.
Qed.

Lemma decimal_4_digits z :
  (1000 ≤ z < 10000)%Z → String.length (JS.decimal (Z.to_N z)) = 4%nat.
Proof.
  intros Hz.
  assert (Hall : forallb (λ k, String.length (JS.decimal (Z.to_N k)) =? 4)%nat
                   (seqZ 1000 9000) = true) by (vm_compute; reflexivity).
  rewrite forallb_forall in Hall.
  apply Nat.eqb_eq, Hall, list_elem_of_In, elem_of_seqZ. lia.
Qed.

(** For a month 1..12 of a four-digit year the date key is the year, a
    hyphen and the month on two digits: seven characters. *)
Lemma formatDateKey_zero_padded year month :
  (1 ≤ month ≤ 12)%Z → (1000 ≤ year ≤ 9999)%Z →
  formatDateKey year month
  = JS.decimal (Z.to_N year) +:+ "-" +:+ JS.addLeadingZeros (Z.to_N month) 2
  ∧ String.length (formatDateKey year month) = 7%nat.
Proof.
  intros Hm Hy. unfold formatDateKey, DateFns.format_yyyy, DateFns.format_MM,
    DateFns.fullYear, DateFns.monthIndex.
  assert (Hdiv : ((month - 1) `div` 12 = 0)%Z) by (apply Z.div_small; lia).
  assert (Hmod : ((month - 1) `mod` 12 = month - 1)%Z) by (apply Z.mod_small; lia).
  rewrite Hdiv, Hmod.
  destruct (Z.leb_spec 0 year) as [_|?]; [|lia].
  destruct (Z.leb_spec year 99) as [?|_]; [lia|]. cbn [andb].
  rewrite Z.add_0_r. destruct (Z.ltb_spec 0 year) as [_|?]; [|lia].
  replace (month - 1 + 1)%Z with month by lia.
  assert (Hy4 : JS.addLeadingZeros (Z.to_N year) 4 = JS.decimal (Z.to_N year)).
  { unfold JS.addLeadingZeros. by rewrite decimal_4_digits by lia. }
  rewrite Hy4. split; [done|].
  rewrite !length_append, decimal_4_digits, addLeadingZeros_2_length by lia.
  reflexivity.
Qed.

Example formatDateKey_examples :
  formatDateKey 2025 6 = "2025-06" ∧ formatDateKey 2026 12 = "2026-12"
  ∧ formatDateKey 2025 13 = "2026-01" ∧ formatDateKey 25 1 = "1925-01".
Proof. by vm_compute. Qed.


(** End-to-end scenario 2: two entries filed under 2025-06 (and one under
    2025-05) before publishing the June 2025 issue, one entry under
    2025-06 afterwards, at the head, and the May entry kept. *)
Definition june2025 : Newsletter :=
  {| metadata := {| title := "The Kingdom Report";
                    subtitle := "Monthly Intelligence from Increasing Faith Ministries";
                    month := 6; year := 2025; monthName := "June";
                    dateString := "June 2025";
                    generatedAt := "2025-06-01T12:00:00.000Z";
                    ministry := "Increasing Faith Ministries";
                    pastor := "Curtis Stephens Jr.";
                    contentSource := "fallback";
                    meta_theme := Some {| theme := "Kingdom Fathers";
                                          focus := "Fatherhood as Kingdom leadership" |} |};
     sections := let s := {| sec_title := "t"; content := "c" |} in
                 {| pastoralMessage := s; kingdomIntelligence := s;
                    kingdomLiving := s; prayerFocus := s;
                    scriptureFocus := s; upcoming := s |} |}.

Definition staleEntry (dk t : string) : ArchiveEntry :=
  {| dateKey := dk; ae_title := t; ae_dateString := "old";
     ae_theme := None; ae_generatedAt := "2025-01-01T00:00:00.000Z";
     jsonFile := dk +:+ ".json"; htmlFile := dk +:+ ".html" |}.

Example publish_scenario_2025_06 :
  let old := [staleEntry "2025-06" "first"; staleEntry "2025-05" "may";
              staleEntry "2025-06" "second"] in
  let r := publishNewsletter (Parsed old) june2025 in
  entriesFor "2025-06" old = 2
  ∧ pr_dateKey r = "2025-06"
  ∧ entriesFor "2025-06" (archiveWritten r) = 1
  ∧ archiveWritten r = [newEntry june2025 "2025-06"; staleEntry "2025-05" "may"]
  ∧ ae_theme (newEntry june2025 "2025-06") = Some "Kingdom Fathers".
Proof. vm_compute. done. Qed.

(** An archive that is missing or does not parse is replaced by the
    one-entry archive. *)
Lemma publishNewsletter_fresh_archive nl :
  archiveWritten (publishNewsletter Missing nl) = archiveWritten (publishNewsletter Unparsable nl)
  ∧ archiveEntries (publishNewsletter Missing nl) = 1.
Proof. done. Qed.

End PublishFacts.

(** ** Content gatherer: scoring and ranking *)

Section GathererScore.
Import JS Gatherer.

Lemma foldl_count {A} (f : A → bool) (l : list A) (n0 : nat) :
  foldl (λ n k, if f k then n + 1 else n)%nat n0 l
  = (n0 + length (List.filter f l))%nat.
Proof.
  revert n0. induction l as [|k l IH]; intros n0; simpl; [lia|].
  rewrite IH. destruct (f k); simpl; lia.
Qed.

Lemma scoreOf_filter a :
  scoreOf a =
  length (List.filter (includes (toLowerCase (fullText a))) relevanceKeywords).
Proof. unfold scoreOf. by rewrite foldl_count. Qed.

Lemma relevanceKeywords_NoDup : NoDup relevanceKeywords.
Proof. apply (bool_decide_unpack _). by vm_compute. Qed.

Lemma relevanceKeywords_length : length relevanceKeywords = 30%nat.
Proof. reflexivity. Qed.

Lemma relevanceKeywords_lower :
  Forall (λ k, toLowerCase k = k) relevanceKeywords.
Proof. repeat constructor. Qed.

(** A keyword occurs in a text case-insensitively when some substring of
    the text equals it up to letter case. *)
Definition occursCI (k text : string) : Prop :=
  ∃ pre u suf, text = pre +:+ u +:+ suf ∧ toLowerCase u = toLowerCase k.

Lemma includes_lower_occursCI text k :
  toLowerCase k = k →
  includes (toLowerCase text) k = true ↔ occursCI k text.
Proof.
  intros Hk. rewrite includes_spec. unfold occursIn, occursCI. split.
  - intros (pre & suf & Hs).
    apply toLowerCase_split in Hs as (pre' & rest & -> & _ & Hrest).
    apply toLowerCase_split in Hrest as (u & suf' & -> & Hu & _).
    exists pre', u, suf'. by rewrite Hk.
  - intros (pre & u & suf & -> & Hu).
    exists (toLowerCase pre), (toLowerCase suf).
    by rewrite !toLowerCase_append, Hu, Hk.
Qed.

(** The set of keywords that match an article *)
Definition matched (a : Article) : gset string :=
  list_to_set (List.filter (includes (toLowerCase (fullText a))) relevanceKeywords).

Lemma matched_spec a k :
  k ∈ matched a ↔ k ∈ relevanceKeywords ∧ occursCI k (fullText a).
Proof.
  unfold matched. rewrite elem_of_list_to_set, list_elem_of_In, filter_In.
  rewrite <- list_elem_of_In. split.
  - intros [Hk Hin]. split; [done|].
    apply includes_lower_occursCI; [|done].
    by apply (proj1 (Forall_forall _ _) relevanceKeywords_lower).
  - intros [Hk Hin]. split; [done|].
    apply includes_lower_occursCI; [|done].
    by apply (proj1 (Forall_forall _ _) relevanceKeywords_lower).
Qed.

Lemma NoDup_List_filter {A} (f : A → bool) (l : list A) :
  NoDup l → NoDup (List.filter f l).
Proof.
  induction 1 as [|x l Hx Hl IH]; simpl; [constructor|].
  destruct (f x); [|done]. constructor; [|done].
  rewrite list_elem_of_In, filter_In, <- list_elem_of_In. tauto.
Qed.

Lemma scoreOf_size_matched a : scoreOf a = size (matched a).
Proof.
  rewrite scoreOf_filter. unfold matched.
  rewrite size_list_to_set; [done|].
  apply NoDup_List_filter, relevanceKeywords_NoDup.
Qed.

Lemma scoreOf_le_30 a : (scoreOf a ≤ 30)%nat.
Proof.
  rewrite scoreOf_filter, <- relevanceKeywords_length.
  apply filter_length_le.
Qed.

End GathererScore.

(** ** Content gatherer: the stable sort *)

Section StableSort.
Import JS.
Context {A : Type} (cmp : A → A → Z).

Lemma insertBy_Permutation x l : insertBy cmp x l ≡ₚ x :: l.
Proof.
  induction l as [|y l IH]; simpl; [done|].
  destruct (cmp x y <=? 0)%Z; [done|].
  rewrite IH. apply Permutation_swap.
Qed.

Lemma sortBy_Permutation l : sortBy cmp l ≡ₚ l.
Proof.
  induction l as [|x l IH]; simpl; [done|].
  by rewrite insertBy_Permutation, IH.
Qed.

(** Inserting [x] puts it in front of every element of its own rank: the
    elements it passes compare strictly smaller than it. *)
Lemma filter_insertBy (P : A → Prop) `{!∀ a, Decision (P a)} x l :
  (∀ y, P x → P y → (cmp x y <=? 0)%Z = true) →
  filter P (insertBy cmp x l) = filter P (x :: l).
Proof.
  intros Hrank. induction l as [|y l IH]; simpl; [done|].
  destruct (cmp x y <=? 0)%Z eqn:Hxy; [done|].
  rewrite !filter_cons in *.
  destruct (decide (P x)) as [Hx|Hx], (decide (P y)) as [Hy|Hy];
    rewrite ?IH; try done.
  by rewrite Hrank in Hxy.
Qed.

Lemma filter_sortBy (P : A → Prop) `{!∀ a, Decision (P a)} l :
  (∀ x y, P x → P y → (cmp x y <=? 0)%Z = true) →
  filter P (sortBy cmp l) = filter P l.
Proof.
  intros Hrank. induction l as [|x l IH]; simpl; [done|].
  rewrite filter_insertBy by eauto.
  by rewrite !filter_cons, IH.
Qed.

End StableSort.

Section GathererRank.
Import JS Gatherer.

Definition scoreGe (a b : Article) : Prop := (score b ≤ score a)%nat.

Lemma byScoreDesc_le x y :
  (byScoreDesc x y <=? 0)%Z = true ↔ scoreGe x y.
Proof. unfold byScoreDesc, scoreGe. rewrite Z.leb_le. lia. Qed.

Lemma insertBy_score_sorted x l :
  StronglySorted scoreGe l → StronglySorted scoreGe (insertBy byScoreDesc x l).
Proof.
  induction 1 as [|y l Hl IH Hy]; simpl.
  - repeat constructor.
  - destruct (byScoreDesc x y <=? 0)%Z eqn:Hxy.
    + apply byScoreDesc_le in Hxy. constructor; [by constructor|].
      constructor; [done|].
      eapply Forall_impl; [exact Hy|]. unfold scoreGe in *. intros; lia.
    + assert (Hlt : (score x < score y)%nat).
      { destruct (decide (score y ≤ score x)%nat) as [Hle|]; [|lia].
        apply byScoreDesc_le in Hle. congruence. }
      constructor; [done|].
      rewrite insertBy_Permutation. constructor; [|done].
      unfold scoreGe. lia.
Qed.

Lemma sortBy_score_sorted l : StronglySorted scoreGe (sortBy byScoreDesc l).
Proof.
  induction l as [|x l IH]; simpl; [constructor|].
  by apply insertBy_score_sorted.
Qed.

Lemma sortBy_score_stable v l :
  filter (λ a, score a = v) (sortBy byScoreDesc l) = filter (λ a, score a = v) l.
Proof.
  apply filter_sortBy. intros x y Hx Hy.
  apply byScoreDesc_le. unfold scoreGe. lia.
Qed.

Lemma score_withScore a : score (withScore a) = scoreOf a.
Proof. reflexivity. Qed.

Lemma fullText_withScore a : fullText (withScore a) = fullText a.
Proof. reflexivity. Qed.

End GathererRank.

Section GathererText.
Import JS Gatherer.

Lemma append_eq_append a b c d :
  a +:+ b = c +:+ d →
  (∃ m, a = c +:+ m ∧ d = m +:+ b) ∨ (∃ m, c = a +:+ m ∧ b = m +:+ d).
Proof.
  revert c. induction a as [|x a IH]; intros c Heq.
  - right. by exists c.
  - destruct c as [|y c].
    + left. by exists (String x a).
    + rewrite !append_cons in Heq. injection Heq as -> Heq.
      destruct (IH _ Heq) as [(m & -> & ->) | (m & -> & ->)].
      * left. by exists m.
      * right. by exists m.
Qed.

(** The space that joins title and description belongs to no keyword, so
    a keyword occurs in the joined text exactly when it occurs in the
    title or in the description. *)
Lemma occursIn_joined k t d :
  k ≠ "" → ¬ occursIn " " k →
  occursIn k (t +:+ " " +:+ d) ↔ occursIn k t ∨ occursIn k d.
Proof.
  intros Hne Hsp. split.
  - intros (pre & suf & Heq). symmetry in Heq.
    apply append_eq_append in Heq as [(m & -> & Hd) | (m & -> & Hk)].
    + destruct m as [|x m].
      * destruct k as [|x k]; [done|].
        rewrite append_nil_l, !append_cons in Hd. injection Hd as <- _.
        destruct Hsp. by exists "", k.
      * rewrite !append_cons, append_nil_l in Hd. injection Hd as _ ->.
        right. by exists m, suf.
    + apply append_eq_append in Hk as [(m2 & -> & Hd) | (m2 & -> & _)].
      * destruct m2 as [|x m2].
        -- left. exists pre, "". by rewrite !append_nil_r.
        -- rewrite !append_cons in Hd. injection Hd as <- _.
           destruct Hsp. by exists m, m2.
      * left. by exists pre, m2.
  - intros [(pre & suf & ->) | (pre & suf & ->)].
    + exists pre, (suf +:+ " " +:+ d). by rewrite !append_assoc.
    + exists (t +:+ " " +:+ pre), suf. by rewrite !append_assoc.
Qed.

Lemma relevanceKeywords_words :
  Forall (λ k, k ≠ "" ∧ ¬ occursIn " " k) relevanceKeywords.
Proof.
  apply Forall_forall. intros k Hk.
  assert (Hb : nonEmpty k && negb (includes k " ") = true).
  { revert k Hk. apply Forall_forall. by repeat constructor. }
  apply andb_true_iff in Hb as [Hne Hsp]. split.
  - by destruct k.
  - rewrite <- includes_spec. by destruct (includes k " ").
Qed.

Lemma occursCI_lower k text :
  toLowerCase k = k → occursCI k text ↔ occursIn k (toLowerCase text).
Proof.
  intros Hk. by rewrite <- includes_lower_occursCI, includes_spec.
Qed.

Lemma occursCI_fullText k a :
  k ∈ relevanceKeywords →
  occursCI k (fullText a) ↔ occursCI k (title a) ∨ occursCI k (description a).
Proof.
  intros Hin.
  pose proof (proj1 (Forall_forall _ _) relevanceKeywords_lower _ Hin) as Hlow.
  pose proof (proj1 (Forall_forall _ _) relevanceKeywords_words _ Hin) as [Hne Hsp].
  simpl in Hlow. rewrite !occursCI_lower by done. unfold fullText.
  rewrite !toLowerCase_append. by apply occursIn_joined.
Qed.

End GathererText.

Section GathererRelevance.
Import JS Gatherer.

(** C3.  For every article the relevance score that [categorizeContent]
    attaches is the number of distinct keywords of the fixed 30-term list
    that occur, ignoring letter case, as substrings of the scored text
    (title, a space, description), which are the keywords that occur in
    the title or in the description: the size of the set [matched a], a
    keyword counting once however often it occurs, so at most 30.  The
    articles of score 0 are dropped; the ranked list is a permutation of
    the remaining scored articles, in descending order of score, and
    articles of equal score keep the order they had in the input. *)
Theorem categorizeContent_relevance (articles : list Article) :
  let scored := withScore <$> articles in
  let relevant := relevantOf articles in
  (∀ a, relevanceScore (withScore a) = Some (size (matched a))
        ∧ (size (matched a) ≤ 30)%nat
        ∧ (∀ k, k ∈ matched a ↔ k ∈ relevanceKeywords ∧ occursCI k (fullText a))
        ∧ (∀ k, k ∈ matched a ↔
                k ∈ relevanceKeywords
                ∧ (occursCI k (title a) ∨ occursCI k (description a))))
  ∧ Forall (λ a, (0 < score a)%nat) relevant
  ∧ relevant ≡ₚ filter (λ a, (0 < score a)%nat) scored
  ∧ StronglySorted scoreGe relevant
  ∧ (∀ v, filter (λ a, score a = v) relevant
          = filter (λ a, score a = v) (filter (λ a, (0 < score a)%nat) scored))
  ∧ topStories (categorizeContent articles) = take 6 relevant.
Proof.
  intros scored relevant. split_and!.
  - intros a. split_and!.
    + simpl. by rewrite scoreOf_size_matched.
    + rewrite <- scoreOf_size_matched. apply scoreOf_le_30.
    + intros k. apply matched_spec.
    + intros k. rewrite matched_spec. split.
      * intros [Hk Hin]. split; [done|]. by apply occursCI_fullText.
      * intros [Hk Hin]. split; [done|]. by apply occursCI_fullText.
  - subst relevant. unfold relevantOf. fold scored.
    rewrite sortBy_Permutation. apply Forall_forall.
    intros a Ha. by apply list_elem_of_filter in Ha as [? _].
  - apply sortBy_Permutation.
  - apply sortBy_score_sorted.
  - intros v. apply sortBy_score_stable.
  - done.
Qed.

(** Repeating a keyword does not raise the score. *)
Example score_repetition :
  scoreOf (story "kingdom kingdom kingdom kingdom kingdom" "" "General") = 1%nat
  ∧ scoreOf (story "Kingdom" "" "General") = 1%nat
  ∧ scoreOf (story "The KINGDOM and the Church" "a gospel of grace" "General") = 4%nat
  ∧ scoreOf (story "Weather" "rain tomorrow" "General") = 0%nat.
Proof. by vm_compute. Qed.

(** Title and description are joined by a space before they are
    searched, so a keyword is not found across the two. *)
Example score_across_fields :
  scoreOf (story "The coming king" "dom of heaven" "General") = 0%nat
  ∧ scoreOf (story "The coming kingdom" "of heaven" "General") = 1%nat.
Proof. by vm_compute. Qed.

(** Ranking keeps the input order among equal scores and drops the
    article that matches nothing. *)
Example ranking_is_stable :
  title <$> relevantOf
    [ story "faith" "" "c"; story "weather" "" "c"; story "gospel church" "" "c";
      story "hope" "" "c"; story "prayer worship" "" "c" ]
  = ["gospel church"; "prayer worship"; "faith"; "hope"].
Proof. by vm_compute. Qed.

End GathererRelevance.

(** ** Content gatherer: cleaning the description *)

Section StripTags.
Import JS.

Lemma afterGt_Some s rest :
  afterGt s = Some rest → ∃ b, s = b +:+ ">" +:+ rest ∧ afterGt b = None.
Proof.
  revert rest. induction s as [|c s IH]; intros rest; simpl; [done|].
  destruct (Ascii.eqb_spec c ">") as [->|Hc].
  - intros [= ->]. by exists "".
  - intros Hs. destruct (IH _ Hs) as (b & -> & Hb).
    exists (String c b). split; [done|]. simpl.
    by destruct (Ascii.eqb_spec c ">").
Qed.

Lemma afterGt_append_gt b rest : is_Some (afterGt (b +:+ ">" +:+ rest)).
Proof.
  induction b as [|c b IH]; [by eexists|].
  rewrite append_cons. simpl. by destruct (Ascii.eqb c ">").
Qed.

Lemma afterGt_length s rest :
  afterGt s = Some rest → (String.length rest < String.length s)%nat.
Proof.
  intros Hs. apply afterGt_Some in Hs as (b & -> & _).
  rewrite !length_append. simpl. lia.
Qed.

Lemma hasTag_spec s :
  hasTag s = true ↔ ∃ a b c, s = a +:+ "<" +:+ b +:+ ">" +:+ c.
Proof.
  induction s as [|x s IH].
  - split; [done|]. intros (a & b & c & Hs). by destruct a.
  - cbn [hasTag]. rewrite orb_true_iff, andb_true_iff, Ascii.eqb_eq,
      bool_decide_eq_true, IH. split.
    + intros [[-> [rest Hrest]] | (a & b & c & ->)].
      * apply afterGt_Some in Hrest as (b & -> & _). by exists "", b, rest.
      * by exists (String x a), b, c.
    + intros (a & b & c & Hs). destruct a as [|y a].
      * left. rewrite append_nil_l, append_cons, append_nil_l in Hs.
        injection Hs as -> ->. split; [done|]. apply afterGt_append_gt.
      * right. rewrite append_cons in Hs. injection Hs as -> ->.
        by exists a, b, c.
Qed.

Lemma afterGt_None_hasTag s : afterGt s = None → hasTag s = false.
Proof.
  induction s as [|c s IH]; [done|]. simpl.
  destruct (Ascii.eqb c ">"); [done|]. intros Hs.
  rewrite Hs, (IH Hs). rewrite bool_decide_eq_false_2 by by intros [? ?].
  by rewrite andb_false_r.
Qed.

Lemma stripTagsFuel_enough n m s :
  (String.length s ≤ n)%nat → (String.length s ≤ m)%nat →
  stripTagsFuel n s = stripTagsFuel m s.
Proof.
  revert m s. induction n as [|n IH]; intros m s Hn Hm.
  - destruct s; [|simpl in Hn; lia]. by destruct m.
  - destruct s as [|c s]; [by destruct m|].
    destruct m as [|m]; [simpl in Hm; lia|]. simpl in *.
    destruct (Ascii.eqb c "<").
    + destruct (afterGt s) as [rest|] eqn:Hs; [|done].
      apply afterGt_length in Hs. apply IH; lia.
    + f_equal. apply IH; lia.
Qed.

(** The equations of the replacement, free of fuel. *)
Lemma stripTags_nil : stripTags "" = "".
Proof. reflexivity. Qed.

Lemma stripTags_cons c s :
  stripTags (String c s) =
  if Ascii.eqb c "<" then
    match afterGt s with
    | Some rest => stripTags rest
    | None => String c s
    end
  else String c (stripTags s).
Proof.
  unfold stripTags. simpl. destruct (Ascii.eqb c "<"); [|done].
  destruct (afterGt s) as [rest|] eqn:Hs; [|done].
  apply afterGt_length in Hs. apply stripTagsFuel_enough; lia.
Qed.

Lemma stripTagsFuel_noTag n s :
  (String.length s ≤ n)%nat → hasTag (stripTagsFuel n s) = false.
Proof.
  revert s. induction n as [|n IH]; intros s Hn.
  - by destruct s; [|simpl in Hn; lia].
  - destruct s as [|c s]; [done|]. simpl in *.
    destruct (Ascii.eqb c "<") eqn:Hc.
    + destruct (afterGt s) as [rest|] eqn:Hs.
      * apply afterGt_length in Hs. apply IH. lia.
      * simpl. rewrite Hc, Hs, (afterGt_None_hasTag _ Hs).
        by rewrite bool_decide_eq_false_2 by by intros [? ?].
    + simpl. rewrite Hc. simpl. apply IH. lia.
Qed.

Lemma stripTags_noTag s : hasTag (stripTags s) = false.
Proof. by apply stripTagsFuel_noTag. Qed.

Lemma hasTag_prefix a b : hasTag (a +:+ b) = false → hasTag a = false.
Proof.
  intros Hab. destruct (hasTag a) eqn:Ha; [|done].
  apply hasTag_spec in Ha as (x & y & z & ->).
  rewrite <- Hab. symmetry. apply hasTag_spec.
  exists x, y, (z +:+ b). by rewrite !append_assoc.
Qed.

Lemma substring0_noTag n s : hasTag s = false → hasTag (substring0 n s) = false.
Proof.
  intros Hs. destruct (substring0_prefix n s) as [suf Hsuf].
  rewrite Hsuf in Hs. by apply hasTag_prefix in Hs.
Qed.

Example stripTags_examples :
  stripTags "<p>Hello <b>world</b></p>" = "Hello world"
  ∧ stripTags "a < b and c > d" = "a  d"
  ∧ stripTags "1 > 0 <unclosed" = "1 > 0 <unclosed"
  ∧ stripTags "<<b>b>" = "b>".
Proof. by vm_compute. Qed.

End StripTags.

(** ** Content gatherer: parsing a feed *)

Section GathererParse.
Import JS Gatherer.

Definition titled (a : Article) : bool := nonEmpty (title a).

(** The [each] loop collects, from the first five elements, the articles
    that have a title. *)
Lemma each_spec {El} (mk : El → Article) i els acc :
  each mk i els acc = acc ++ List.filter titled (mk <$> take (5 - i) els).
Proof.
  revert i acc. induction els as [|el els IH]; intros i acc; cbn [each].
  - by rewrite take_nil, app_nil_r.
  - destruct (5 <=? i)%nat eqn:Hi.
    + apply Nat.leb_le in Hi. replace (5 - i)%nat with 0%nat by lia.
      by rewrite app_nil_r.
    + apply Nat.leb_gt in Hi. rewrite IH.
      replace (5 - i)%nat with (S (5 - S i)) by lia.
      rewrite firstn_cons, fmap_cons. cbn [List.filter].
      unfold titled at 2. destruct (nonEmpty (title (mk el))); [|done].
      by rewrite <- app_assoc.
Qed.

Definition rssArticles (feedName : string) (doc : Document) : list Article :=
  List.filter titled (itemArticle feedName <$> take 5 (items doc)).

Definition atomArticles (feedName : string) (doc : Document) : list Article :=
  List.filter titled (entryArticle feedName <$> take 5 (entries doc)).

Lemma parseFeed_spec feedName doc :
  parseFeed feedName doc =
  match rssArticles feedName doc with
  | [] => atomArticles feedName doc
  | _ => rssArticles feedName doc
  end.
Proof.
  unfold parseFeed. rewrite !each_spec.
  change (5 - 0)%nat with 5%nat. rewrite app_nil_l.
  fold (rssArticles feedName doc). fold (atomArticles feedName doc).
  by destruct (rssArticles feedName doc).
Qed.

Lemma filter_map_take_length {El} (mk : El → Article) els :
  (length (List.filter titled (mk <$> take 5 els)) ≤ 5)%nat.
Proof.
  etrans; [apply filter_length_le|].
  rewrite length_fmap, length_take. lia.
Qed.

Lemma cleanText_length s : (String.length (cleanText s) ≤ 300)%nat.
Proof. apply length_substring0. Qed.

Lemma cleanText_noTag s : hasTag (cleanText s) = false.
Proof. apply substring0_noTag, stripTags_noTag. Qed.

(** A text that went through the cleaning: no tag is left and it has at
    most 300 code units. *)
Definition cleaned (s : string) : Prop :=
  hasTag s = false ∧ (String.length s ≤ 300)%nat.

Lemma cleanText_cleaned s : cleaned (cleanText s).
Proof. split; [apply cleanText_noTag | apply cleanText_length]. Qed.

Lemma rssArticles_Forall (P : Article → Prop) feedName doc :
  (∀ el, P (itemArticle feedName el)) → Forall P (rssArticles feedName doc).
Proof.
  intros HP. apply Forall_forall. intros a Ha.
  apply list_elem_of_In, filter_In in Ha as [Ha _].
  apply list_elem_of_In, list_elem_of_fmap in Ha as (el & -> & _). apply HP.
Qed.

Lemma atomArticles_Forall (P : Article → Prop) feedName doc :
  (∀ el, P (entryArticle feedName el)) → Forall P (atomArticles feedName doc).
Proof.
  intros HP. apply Forall_forall. intros a Ha.
  apply list_elem_of_In, filter_In in Ha as [Ha _].
  apply list_elem_of_In, list_elem_of_fmap in Ha as (el & -> & _). apply HP.
Qed.

Lemma parseFeed_Forall (P : Article → Prop) feedName doc :
  (∀ el, P (itemArticle feedName el)) →
  (∀ el, P (entryArticle feedName el)) →
  Forall P (parseFeed feedName doc).
Proof.
  intros Hi He. rewrite parseFeed_spec.
  pose proof (rssArticles_Forall P feedName doc Hi) as Hrss.
  destruct (rssArticles feedName doc); [|done].
  by apply atomArticles_Forall.
Qed.






End GathererParse.

(** ** Content gatherer: fallback *)

Section GathererFallback.
Import JS Gatherer.

(** A feed that fails in any of the three ways contributes no article. *)
Lemma fetchRSSFeed_failed feed outcome :
  (∀ doc, outcome ≠ Body doc) → fetchRSSFeed feed outcome = [].
Proof. intros Hfail. destruct outcome; try done. by destruct (Hfail doc). Qed.

Lemma collect_fulfilled (values : list (list Article)) acc :
  foldl (λ allArticles result,
           match result with
           | Fulfilled value =>
               if (0 <? length value)%nat then allArticles ++ value else allArticles
           | Rejected _ => allArticles
           end) acc (Fulfilled <$> values)
  = acc ++ mjoin values.
Proof.
  revert acc. induction values as [|v values IH]; intros acc.
  - by rewrite app_nil_r.
  - rewrite fmap_cons. cbn [foldl]. rewrite IH. cbn [mjoin list_join].
    destruct v as [|a v]; simpl; [done|]. by rewrite <- app_assoc.
Qed.

Lemma gatherWebContent_spec net :
  gatherWebContent net = Ok (mjoin ((λ feed, fetchRSSFeed feed (net feed)) <$> rssFeeds)).
Proof.
  unfold gatherWebContent. f_equal.
  rewrite (list_fmap_compose (λ feed, fetchRSSFeed feed (net feed)) Fulfilled).
  apply collect_fulfilled.
Qed.


(** End-to-end scenario 1: every feed times out and the month is
    December. *)
Example gather_december_fallback :
  ∃ content,
    gatherContent (λ _, NetworkError "network timeout") "2025-12-01T09:00:00.000Z" 12 2025
      = Ok content
    ∧ isFallback content = Some true
    ∧ theme <$> monthlyTheme content = Some "The King Has Come"
    ∧ topStories content = fallbackStories
    ∧ articleCount <$> metadata content = Some 0%nat.
Proof. eexists. split; [reflexivity|]. by vm_compute. Qed.

(** One feed answers with one titled item, the others fail: the content
    is live. *)
Example gather_one_live_feed :
  let net feed :=
    if bool_decide (name feed = "Desiring God")
    then Body {| items := [ {| i_title := "Prayer and the gospel"; i_link := "l";
                               i_description := "d"; i_pubDate := "p";
                               i_category := "" |} ];
                 entries := [] |}
    else HttpError 503 in
  ∃ content,
    gatherContent net "2025-12-01T09:00:00.000Z" 12 2025 = Ok content
    ∧ isFallback content = Some false
    ∧ theme <$> monthlyTheme content = Some "The King Has Come"
    ∧ title <$> topStories content = ["Prayer and the gospel"]
    ∧ articleCount <$> metadata content = Some 1%nat.
Proof. eexists. split; [reflexivity|]. by vm_compute. Qed.

End GathererFallback.

(** ** Subscribers: deduplication *)

Section Dedup.
Import JS Subscribers.

Definition key (sub : Subscriber) : string := normalizeEmail (email sub).

(** The loop, read as a recursion over the list with the set of keys
    seen so far. *)
Fixpoint firstSeen (seen : gset string) (subs : list Subscriber) : list Subscriber :=
  match subs with
  | [] => []
  | sub :: rest =>
      if decide (key sub ∈ seen) then firstSeen seen rest
      else withEmail sub (key sub) :: firstSeen ({[key sub]} ∪ seen) rest
  end.

Lemma foldl_dedupStep subs seen unique :
  (foldl dedupStep (seen, unique) subs).2 = unique ++ firstSeen seen subs.
Proof.
  revert seen unique. induction subs as [|sub subs IH]; intros seen unique.
  - by rewrite app_nil_r.
  - cbn [foldl firstSeen]. unfold dedupStep at 2. cbn [fst snd]. fold (key sub).
    destruct (decide (key sub ∈ seen)); [apply IH|].
    by rewrite IH, <- app_assoc.
Qed.

Lemma deduplicateSubscribers_firstSeen subs :
  deduplicateSubscribers subs = firstSeen ∅ subs.
Proof. unfold deduplicateSubscribers. by rewrite foldl_dedupStep. Qed.

Lemma normalizeEmail_idemp e : normalizeEmail (normalizeEmail e) = normalizeEmail e.
Proof.
  unfold normalizeEmail.
  by rewrite toLowerCase_trim, toLowerCase_idemp, trim_idemp.
Qed.

Lemma key_withEmail sub : key (withEmail sub (key sub)) = key sub.
Proof. unfold key at 1. cbn [withEmail email]. apply normalizeEmail_idemp. Qed.

Lemma withEmail_id sub : email sub = key sub → withEmail sub (key sub) = sub.
Proof. intros <-. by destruct sub. Qed.

(** The entries kept have pairwise different keys, none of them seen
    before, and each carries its key as its email. *)
Lemma firstSeen_keys seen subs :
  NoDup (key <$> firstSeen seen subs)
  ∧ Forall (λ sub, (key sub ∉ seen) ∧ email sub = key sub) (firstSeen seen subs).
Proof.
  revert seen. induction subs as [|sub subs IH]; intros seen; cbn [firstSeen].
  - split; constructor.
  - destruct (decide (key sub ∈ seen)) as [Hin|Hnin]; [apply IH|].
    destruct (IH ({[key sub]} ∪ seen)) as [Hnd Hall].
    rewrite fmap_cons, key_withEmail. split.
    + constructor; [|done]. intros Hk.
      apply list_elem_of_fmap in Hk as (s & Hs & Hsin).
      apply (proj1 (Forall_forall _ _) Hall) in Hsin as [Hsn _].
      rewrite <- Hs in Hsn. set_solver.
    + constructor.
      * rewrite key_withEmail. by split.
      * eapply Forall_impl; [exact Hall|]. intros s [Hs ?]. split; [set_solver|done].
Qed.

(** A list whose entries are already normalized, with pairwise different
    keys not seen before, passes unchanged. *)
Lemma firstSeen_fixed seen subs :
  NoDup (key <$> subs) →
  Forall (λ sub, (key sub ∉ seen) ∧ email sub = key sub) subs →
  firstSeen seen subs = subs.
Proof.
  revert seen. induction subs as [|sub subs IH]; intros seen Hnd Hall; [done|].
  cbn [firstSeen]. apply Forall_cons in Hall as [[Hnin Hnorm] Hall].
  rewrite fmap_cons in Hnd. apply NoDup_cons in Hnd as [Hfresh Hnd].
  rewrite decide_False by done. rewrite withEmail_id by done. f_equal.
  apply IH; [done|]. apply Forall_forall. intros s Hs.
  pose proof (proj1 (Forall_forall _ _) Hall _ Hs) as [? ?]. split; [|done].
  assert (key s ≠ key sub).
  { intros Heq. apply Hfresh. rewrite <- Heq. apply list_elem_of_fmap. eauto. }
  set_solver.
Qed.

(** How many entries of the output answer to one key. *)
Definition entriesWithEmail (k : string) (subs : list Subscriber) : nat :=
  length (filter (λ sub, email sub = k) subs).

Lemma entriesWithEmail_firstSeen k seen subs :
  entriesWithEmail k (firstSeen seen subs) =
  if decide ((k ∉ seen) ∧ k ∈ key <$> subs) then 1%nat else 0%nat.
Proof.
  revert seen. induction subs as [|sub subs IH]; intros seen; cbn [firstSeen].
  - rewrite decide_False; [done|]. intros [_ H]. by apply elem_of_nil in H.
  - rewrite fmap_cons. destruct (decide (key sub ∈ seen)) as [Hin|Hnin].
    + rewrite IH. apply decide_ext. set_solver.
    + unfold entriesWithEmail in *. rewrite filter_cons. cbn [withEmail email].
      destruct (decide (key sub = k)) as [<-|Hne].
      * cbn [length]. rewrite IH. rewrite decide_False by set_solver.
        rewrite decide_True; [done|]. split; [done|]. apply elem_of_cons. by left.
      * rewrite IH. apply decide_ext. set_solver.
Qed.

(** Each entry kept is the first entry of its key in the input, with the
    email replaced by the key. *)
Lemma firstSeen_first seen subs s :
  s ∈ firstSeen seen subs →
  ∃ pre orig post,
    subs = pre ++ orig :: post ∧ s = withEmail orig (key orig)
    ∧ Forall (λ o, key o ≠ key orig) pre.
Proof.
  revert seen. induction subs as [|sub subs IH]; intros seen; cbn [firstSeen].
  - intros H. by apply elem_of_nil in H.
  - destruct (decide (key sub ∈ seen)) as [Hin|Hnin].
    + intros Hs. pose proof Hs as Hs'.
      apply IH in Hs as (pre & orig & post & -> & -> & Hpre).
      exists (sub :: pre), orig, post. split_and!; [done..|].
      constructor; [|done]. intros Heq.
      destruct (firstSeen_keys seen (pre ++ orig :: post)) as [_ Hall].
      apply (proj1 (Forall_forall _ _) Hall) in Hs' as [Hk _].
      rewrite key_withEmail in Hk. congruence.
    + intros [->|Hs]%elem_of_cons.
      * exists [], sub, subs. split_and!; [done..|constructor].
      * pose proof Hs as Hs'.
        apply IH in Hs as (pre & orig & post & -> & -> & Hpre).
        exists (sub :: pre), orig, post. split_and!; [done..|].
        constructor; [|done]. intros Heq.
        destruct (firstSeen_keys ({[key sub]} ∪ seen) (pre ++ orig :: post)) as [_ Hall].
        apply (proj1 (Forall_forall _ _) Hall) in Hs' as [Hk _].
        rewrite key_withEmail in Hk. set_solver.
Qed.

End Dedup.

Section TrimPadding.
Import JS.

Fixpoint allWs (w : string) : bool :=
  match w with
  | EmptyString => true
  | String c w' => is_ws c && allWs w'
  end.

Lemma trimStart_allWs w : allWs w = true → trimStart w = "".
Proof.
  induction w as [|c w IH]; [done|]. simpl.
  intros [Hc Hw]%andb_true_iff. rewrite Hc. by apply IH.
Qed.

Lemma trimEnd_allWs w : allWs w = true → trimEnd w = "".
Proof.
  induction w as [|c w IH]; [done|]. simpl.
  intros [Hc Hw]%andb_true_iff. by rewrite (IH Hw), Hc.
Qed.

Lemma trimStart_ws_append w s :
  allWs w = true → trimStart (w +:+ s) = trimStart s.
Proof.
  induction w as [|c w IH]; [done|]. rewrite append_cons. simpl.
  intros [Hc Hw]%andb_true_iff. rewrite Hc. by apply IH.
Qed.

Lemma trimEnd_append_ws s w :
  allWs w = true → trimEnd (s +:+ w) = trimEnd s.
Proof.
  intros Hw. induction s as [|c s IH].
  - by apply trimEnd_allWs.
  - rewrite append_cons. simpl. by rewrite IH.
Qed.

Lemma trim_padded w1 s w2 :
  allWs w1 = true → allWs w2 = true → trim (w1 +:+ s +:+ w2) = trim s.
Proof.
  intros H1 H2. unfold trim. rewrite trimStart_ws_append by done.
  induction s as [|c s IH].
  - rewrite append_nil_l. by rewrite trimStart_allWs.
  - rewrite append_cons. cbn [trimStart]. destruct (is_ws c); [done|].
    by rewrite <- append_cons, trimEnd_append_ws.
Qed.

Lemma allWs_toLowerCase w : allWs (toLowerCase w) = allWs w.
Proof. induction w as [|c w IH]; simpl; by rewrite ?is_ws_lower_char, ?IH. Qed.

End TrimPadding.

Section DedupIdempotence.
Import JS Subscribers.

(** Two emails that differ only in letter case and in white space around
    them. *)
Definition sameAddress (e1 e2 : string) : Prop :=
  ∃ l1 c1 r1 l2 c2 r2,
    e1 = l1 +:+ c1 +:+ r1 ∧ e2 = l2 +:+ c2 +:+ r2
    ∧ allWs l1 = true ∧ allWs r1 = true ∧ allWs l2 = true ∧ allWs r2 = true
    ∧ toLowerCase c1 = toLowerCase c2.

Lemma sameAddress_normalizeEmail e1 e2 :
  sameAddress e1 e2 → normalizeEmail e1 = normalizeEmail e2.
Proof.
  intros (l1 & c1 & r1 & l2 & c2 & r2 & -> & -> & Hl1 & Hr1 & Hl2 & Hr2 & Hc).
  unfold normalizeEmail. rewrite !toLowerCase_append.
  rewrite !trim_padded by by rewrite allWs_toLowerCase.
  by rewrite Hc.
Qed.

(** C6.  [deduplicateSubscribers] is idempotent, and it is
    case-insensitive on the email: the output has exactly one entry for
    each key (lower-cased, trimmed email) that occurs in the input, however
    many input entries share the key, and that entry carries the key as
    its email.  So two subscribers whose emails differ only in letter case
    or surrounding white space end up as a single output entry, that of
    the first of the two. *)
Theorem deduplicateSubscribers_idempotent (x : list Subscriber) :
  deduplicateSubscribers (deduplicateSubscribers x) = deduplicateSubscribers x
  ∧ NoDup (email <$> deduplicateSubscribers x)
  ∧ Forall (λ sub, normalizeEmail (email sub) = email sub) (deduplicateSubscribers x)
  ∧ (∀ k, entriesWithEmail k (deduplicateSubscribers x) =
          if decide (k ∈ (λ sub, normalizeEmail (email sub)) <$> x)
          then 1%nat else 0%nat)
  ∧ (∀ a b, sameAddress (email a) (email b) →
            deduplicateSubscribers [a; b] = [withEmail a (normalizeEmail (email a))]).
Proof.
  rewrite !deduplicateSubscribers_firstSeen.
  destruct (firstSeen_keys ∅ x) as [Hnd Hall].
  assert (Hemail : email <$> firstSeen ∅ x = key <$> firstSeen ∅ x).
  { apply Forall_fmap_ext. eapply Forall_impl; [exact Hall|]. by intros s [_ ?]. }
  split_and!.
  - by apply firstSeen_fixed.
  - by rewrite Hemail.
  - eapply Forall_impl; [exact Hall|]. intros s [_ Hs]. by rewrite Hs at 2.
  - intros k. rewrite entriesWithEmail_firstSeen. apply decide_ext.
    unfold key. set_solver.
  - intros a b Hab. rewrite deduplicateSubscribers_firstSeen.
    apply sameAddress_normalizeEmail in Hab. fold (key a) (key b) in Hab.
    cbn [firstSeen]. rewrite decide_False by set_solver.
    rewrite decide_True by set_solver. done.
Qed.

(** The theorem at a list with three spellings of one address. *)
Lemma deduplicateSubscribers_idempotent_witness :
  let a := {| name := "John"; email := "John@Email.com";
              subscribedAt := "2025-01-15T10:00:00.000Z" |} in
  let b := {| name := "Johnny"; email := "  john@email.COM ";
              subscribedAt := "2025-02-20T08:30:00.000Z" |} in
  sameAddress (email a) (email b)
  ∧ deduplicateSubscribers [a; b]
    = [ {| name := "John"; email := "john@email.com";
           subscribedAt := "2025-01-15T10:00:00.000Z" |} ].
Proof.
  intros a b.
  assert (Hab : sameAddress (email a) (email b)).
  { exists "", "John@Email.com", "", "  ", "john@email.COM", " ". by vm_compute. }
  split; [exact Hab|].
  destruct (deduplicateSubscribers_idempotent [a; b]) as (_ & _ & _ & _ & Hcollapse).
  rewrite (Hcollapse a b Hab). reflexivity.
Defined.

End DedupIdempotence.

(** ** Subscribers: which entry of a key is kept *)

Section DedupOrder.
Import JS Subscribers.

(** The entry kept for a key is the first one of that key in the order
    of the list; the timestamps are not looked at. *)
Lemma deduplicateSubscribers_first_seen subs s :
  s ∈ deduplicateSubscribers subs →
  ∃ pre orig post,
    subs = pre ++ orig :: post
    ∧ s = withEmail orig (normalizeEmail (email orig))
    ∧ Forall (λ o, normalizeEmail (email o) ≠ normalizeEmail (email orig)) pre.
Proof. rewrite deduplicateSubscribers_firstSeen. apply firstSeen_first. Qed.

(** C7.  Two entries of one address, the later subscription listed first
    (the order in which the forms API lists submissions, newest first):
    the entry kept is the one that is listed first, of 1 March, and the
    earlier subscription of 15 January is dropped. *)
Theorem deduplicateSubscribers_keeps_listed_first :
  let march := {| name := "Ann"; email := "ann@example.org";
                  subscribedAt := "2025-03-01T09:00:00.000Z" |} in
  let january := {| name := "Ann B."; email := "Ann@Example.org ";
                    subscribedAt := "2025-01-15T18:30:00.000Z" |} in
  normalizeEmail (email january) = normalizeEmail (email march)
  ∧ earlier (subscribedAt january) (subscribedAt march) = true
  ∧ deduplicateSubscribers [march; january] = [march]
  ∧ deduplicateSubscribers [january; march]
    = [ {| name := "Ann B."; email := "ann@example.org";
           subscribedAt := "2025-01-15T18:30:00.000Z" |} ].
Proof. by vm_compute. Qed.

End DedupOrder.

(** ** Generator: the dates of a run *)

Section GeneratorDates.
Import JSDate Generator.

Variable host : Host.




(** A loop that has ended is not changed by more iterations allowed. *)
Lemma saturdayLoop_more_fuel n :
  ∀ d sat more, saturdayLoop host n d = Some sat →
                saturdayLoop host (n + more) d = Some sat.
Proof.
  induction n as [|n IH]; intros d sat more; [done|].
  cbn [saturdayLoop Nat.add]. destruct (decide (getDay d = Some 6%Z)); [done|].
  apply IH.
Qed.

(** A date that the loop returns is a Saturday on or after the first
    day, less than a week after it. *)
Lemma saturdayLoop_Some fuel :
  ∀ d sat, saturdayLoop host fuel d = Some sat →
           ∃ day s, d = Some day ∧ sat = Some s
                    ∧ (day ≤ s < day + Z.of_nat fuel)%Z ∧ ((s + 4) `mod` 7 = 6)%Z.
Proof.
  induction fuel as [|fuel IH]; intros d sat; [done|].
  cbn [saturdayLoop]. destruct (decide (getDay d = Some 6%Z)) as [Hday|Hday].
  - intros [= <-]. destruct d as [day|]; [|done]. cbn in Hday. injection Hday as Hday.
    exists day, day. split_and!; try done; lia.
  - intros (day' & s & Hnext & -> & Hs & Hsat)%IH.
    destruct d as [day|]; [|done].
    cbn [nextDay mbind option_bind] in Hnext. unfold timeClip in Hnext.
    destruct (_ && _); [|done]. injection Hnext as <-.
    exists day, s. split_and!; try done; lia.
Qed.

(** A host whose local time is within a day of UTC. *)
Definition zoneWithinDay : Prop :=
  ∀ t, (- msPerDay ≤ localTZA host t ≤ msPerDay)%Z.

Lemma timeClip_valid day :
  zoneWithinDay → (- 99999999 ≤ day ≤ 99999999)%Z → timeClip host day = Some day.
Proof.
  intros Hzone Hday. unfold timeClip. specialize (Hzone (day * msPerDay)%Z).
  unfold msPerDay, maxTime in *.
  destruct (_ && _) eqn:Hclip; [done|].
  apply andb_false_iff in Hclip as [H|H]; apply Z.leb_gt in H; lia.
Qed.

Lemma daysFromCivil_bounds y m :
  (- 270000 ≤ y ≤ 270000)%Z → (1 ≤ m ≤ 12)%Z →
  (- 99400000 ≤ daysFromCivil y m ≤ 99400000)%Z.
Proof.
  intros Hy Hm. unfold daysFromCivil.
  destruct (m <=? 2)%Z eqn:H1; destruct (2 <? m)%Z eqn:H2; cbv zeta;
    Z.div_mod_to_equations; lia.
Qed.

(** For the years from -269000 to 269000 the first day of a month is a
    valid date, and so are the days after it up to the first Saturday. *)
Lemma newDate_valid year monthIndex :
  zoneWithinDay → (- 269000 ≤ year ≤ 269000)%Z → (0 ≤ monthIndex ≤ 11)%Z →
  ∃ day, newDate host year monthIndex = Some day
         ∧ (- 99400000 ≤ day ≤ 99400000)%Z.
Proof.
  intros Hzone Hyear Hmonth. unfold newDate.
  rewrite (Z.div_small monthIndex 12), (Z.mod_small monthIndex 12) by lia.
  set (yr := (if _ && _ then _ else _)%Z).
  assert (Hyr : (- 269000 ≤ yr ≤ 269000)%Z).
  { unfold yr. destruct (_ && _) eqn:Hc; [|lia].
    apply andb_true_iff in Hc as [H1 H2]. apply Z.leb_le in H1, H2. lia. }
  pose proof (daysFromCivil_bounds (yr + 0) (monthIndex + 1) ltac:(lia) ltac:(lia)) as Hd.
  exists (daysFromCivil (yr + 0) (monthIndex + 1)). split; [|done].
  apply timeClip_valid; [done|lia].
Qed.

Lemma saturdayLoop_finds day :
  zoneWithinDay → (- 99400000 ≤ day ≤ 99400000)%Z →
  is_Some (saturdayLoop host 7 (Some day)).
Proof.
  intros Hzone Hday.
  destruct (saturdayLoop host 7 (Some day)) as [sat|] eqn:Hloop; [done|].
  exfalso.
  assert (Hvalid : ∀ n d, (Z.of_nat n ≤ 7)%Z → (- 99400000 ≤ d ≤ 99400007 - Z.of_nat n)%Z →
            saturdayLoop host n (Some d) = None →
            ∀ k, (0 ≤ k < Z.of_nat n)%Z → ((d + k + 4) `mod` 7 ≠ 6)%Z).
  { induction n as [|n IH]; intros d Hn Hd; [intros _ k Hk; lia|].
    cbn [saturdayLoop]. destruct (decide (getDay (Some d) = Some 6%Z)) as [|Hsat]; [done|].
    cbn [nextDay mbind option_bind]. rewrite timeClip_valid by (done || lia).
    intros Hrest k Hk. destruct (decide (k = 0%Z)) as [->|Hk0].
    - intros Heq. apply Hsat. cbn. f_equal. by rewrite Z.add_0_r in Heq.
    - replace (d + k + 4)%Z with (d + 1 + (k - 1) + 4)%Z by lia.
      apply (IH (d + 1)%Z); [lia..|done|lia]. }
  pose proof (Hvalid 7%nat day ltac:(lia) ltac:(lia) Hloop) as Hdays.
  pose proof (Z.mod_pos_bound (day + 4) 7 ltac:(lia)).
  apply (Hdays (6 - (day + 4) `mod` 7)%Z); [lia|].
  replace (day + (6 - (day + 4) `mod` 7) + 4)%Z
    with (6 + ((day + 4) - (day + 4) `mod` 7))%Z by lia.
  rewrite (Z.div_mod (day + 4) 7) at 1 by lia.
  replace (6 + (7 * ((day + 4) `div` 7) + (day + 4) `mod` 7 - (day + 4) `mod` 7))%Z
    with (6 + (day + 4) `div` 7 * 7)%Z by lia.
  by rewrite Z.mod_add.
Qed.

(** The dates of a run are in order: the date of the newsletter is valid
    and the first Saturday of the month is found. *)
Lemma dates_in_order month year monthIndex :
  zoneWithinDay → (- 269000 ≤ year ≤ 269000)%Z → (1 ≤ month ≤ 12)%Z →
  monthOf host (DateFns.format_MMMM month) year = Some monthIndex →
  (0 ≤ monthIndex ≤ 11)%Z →
  is_Some (newDate host year (month - 1))
  ∧ is_Some (firstSaturday host (DateFns.format_MMMM month) year).
Proof.
  intros Hzone Hyear Hmonth Hreads Hindex.
  destruct (newDate_valid year (month - 1) Hzone Hyear ltac:(lia)) as (day & Hday & _).
  destruct (newDate_valid year monthIndex Hzone Hyear Hindex) as (first & Hfirst & Hbound).
  split; [by rewrite Hday|].
  unfold firstSaturday, firstDay. rewrite Hreads, Hfirst.
  by apply saturdayLoop_finds.
Qed.

End GeneratorDates.

(** ** Generator: bounded retries, all or nothing *)

Section GeneratorFacts.
Import Generator.

Variable api : nat → ApiResponse.
Variables (k0 : ascii) (krest : string).
Variable buildSystemPrompt : string.
Variable buildPrompt : SectionKey → Gatherer.Content → string → Z → string.
Variable host : JSDate.Host.

(** A key that is set: a non-empty string. *)
Let apiKey : option string := Some (String k0 krest).

Definition exhausted (lastError : string) : string :=
  "Groq API failed after 3 attempts: " +:+ lastError.

Definition after (w : World) (n : nat) (events : list Event) : World :=
  {| calls := calls w + n; trace := trace w ++ events |}.

(** What a request came to, read off the answer of the API: the request
    failed when the fetch was rejected, when the status was outside 2xx,
    or when the body was malformed (not JSON, without a first choice
    carrying a message, or with a content that has no [trim]); it
    completed with a text when the answer carried that text untrimmed. *)
Definition failedAt (j : nat) : Prop :=
  (∃ msg, api j = FetchRejected msg)
  ∨ (∃ status errorBody, api j = NotOk status errorBody)
  ∨ (∃ msg, api j = BadJson msg)
  ∨ api j = NoChoice
  ∨ (∃ msg, api j = ContentNotString msg).

Definition completedAt (j : nat) (text : string) : Prop :=
  ∃ content, api j = Completion content ∧ text = JS.trim content.

(** The message of the error a failed request raises. *)
Definition errorOf (r : ApiResponse) : string :=
  match r with
  | FetchRejected msg => msg
  | NotOk status errorBody =>
      "Groq API " +:+ JS.decimal (N.of_nat status) +:+ ": " +:+ errorBody
  | BadJson msg => msg
  | NoChoice => "Unexpected API response structure"
  | ContentNotString msg => msg
  | Completion _ => ""
  end.


(** The contents of the six sections of a newsletter, in the order in
    which they are generated. *)
Definition sectionContents (nl : Publish.Newsletter) : list string :=
  let s := Publish.sections nl in
  Publish.content <$>
    [ Publish.pastoralMessage s; Publish.kingdomIntelligence s;
      Publish.kingdomLiving s; Publish.prayerFocus s;
      Publish.scriptureFocus s; Publish.upcoming s ].

(** The sections in the order in which [generateNewsletter] asks for
    them. *)
Definition sectionKeys : list SectionKey :=
  [PastoralMessage; KingdomIntelligence; KingdomLiving; PrayerFocus;
   ScriptureFocus; Upcoming].

Lemma after_after w n1 ev1 n2 ev2 :
  after (after w n1 ev1) n2 ev2 = after w (n1 + n2) (ev1 ++ ev2).
Proof. unfold after. cbn [calls trace]. f_equal; [lia | by rewrite app_assoc]. Qed.

Lemma after_calls w n ev : calls (after w n ev) = (calls w + n)%nat.
Proof. reflexivity. Qed.

Lemma after_nothing w : after w 0 [] = w.
Proof. destruct w. unfold after. cbn [calls trace]. by rewrite Nat.add_0_r, app_nil_r. Qed.

(** The [try] block against the answer of the API. *)
Lemma attemptResult_failed j :
  failedAt j → attemptResult (api j) = inl (errorOf (api j)).
Proof.
  intros [(msg & ->)|[(status & body & ->)|[(msg & ->)|[->|(msg & ->)]]]]; reflexivity.
Qed.

Lemma attemptResult_completed j content :
  api j = Completion content → attemptResult (api j) = inr (JS.trim content).
Proof. by intros ->. Qed.


Lemma failedAt_not_completed j text : failedAt j → ¬ completedAt j text.
Proof.
  intros Hf (content & Hc & _). unfold failedAt in Hf. rewrite Hc in Hf.
  destruct Hf as [(? & ?)|[(? & ? & ?)|[(? & ?)|[?|(? & ?)]]]]; discriminate.
Qed.

(** One iteration of the retry loop. *)
Lemma attemptLoop_step remaining attempt lastError sys usr w :
  attemptLoop api (S remaining) attempt lastError sys usr w =
  match attemptResult (api (calls w)) with
  | inr text => (Ok text, after w 1 [Request sys usr])
  | inl message =>
      attemptLoop api remaining (S attempt) message sys usr
        (if (attempt <? 3)%nat
         then after w 1 [Request sys usr; Sleep (2000 * attempt)]
         else after w 1 [Request sys usr])
  end.
Proof.
  cbn [attemptLoop]. unfold mbind, M_bind, fetch, mret, M_ret, sleep, after.
  replace (S (calls w)) with (calls w + 1)%nat by lia.
  destruct (attemptResult (api (calls w))) as [message|text]; [|done].
  change maxRetries with 3%nat. change retryDelayMs with 2000%nat.
  destruct (attempt <? 3)%nat; cbn [calls trace]; [|done].
  by rewrite <- app_assoc.
Qed.

Lemma attemptLoop_done attempt lastError sys usr w :
  attemptLoop api 0 attempt lastError sys usr w = (Throw (exhausted lastError), w).
Proof. reflexivity. Qed.

(** The schedule of one call: a request; on failure 2000 ms and a second
    request; on failure 4000 ms and a third; on failure the error. *)
Lemma callGroqAI_schedule sys usr w :
  let c := calls w in
  let req := Request sys usr in
  callGroqAI api apiKey sys usr w =
  match attemptResult (api c) with
  | inr text => (Ok text, after w 1 [req])
  | inl _ =>
      match attemptResult (api (c + 1)) with
      | inr text => (Ok text, after w 2 [req; Sleep 2000; req])
      | inl _ =>
          match attemptResult (api (c + 2)) with
          | inr text => (Ok text, after w 3 [req; Sleep 2000; req; Sleep 4000; req])
          | inl e =>
              (Throw (exhausted e), after w 3 [req; Sleep 2000; req; Sleep 4000; req])
          end
      end
  end.
Proof.
  intros c req. unfold callGroqAI, apiKey. change maxRetries with 3%nat.
  rewrite attemptLoop_step. fold c req.
  destruct (attemptResult (api c)) as [e1|t1]; [|done].
  cbn [Nat.ltb Nat.leb]. rewrite attemptLoop_step, after_calls. fold c req.
  destruct (attemptResult (api (c + 1))) as [e2|t2]; [|by rewrite after_after].
  cbn [Nat.ltb Nat.leb]. rewrite attemptLoop_step, !after_after, !after_calls.
  fold c req. replace (c + (1 + 1))%nat with (c + 2)%nat by lia.
  destruct (attemptResult (api (c + 2))) as [e3|t3]; [|done].
  cbn [Nat.ltb Nat.leb]. by rewrite attemptLoop_done.
Qed.

(** The four ways one call can go, by the answers to its requests. *)
Lemma callGroqAI_cases sys usr w :
  let c := calls w in
  let req := Request sys usr in
  let run := callGroqAI api apiKey sys usr w in
  (∀ content, api c = Completion content →
     run = (Ok (JS.trim content), after w 1 [req]))
  ∧ (∀ content, failedAt c → api (c + 1) = Completion content →
       run = (Ok (JS.trim content), after w 2 [req; Sleep (1 * 2000); req]))
  ∧ (∀ content, failedAt c → failedAt (c + 1) → api (c + 2) = Completion content →
       run = (Ok (JS.trim content),
              after w 3 [req; Sleep (1 * 2000); req; Sleep (2 * 2000); req]))
  ∧ (failedAt c → failedAt (c + 1) → failedAt (c + 2) →
       run = (Throw (exhausted (errorOf (api (c + 2)))),
              after w 3 [req; Sleep (1 * 2000); req; Sleep (2 * 2000); req])).
Proof.
  intros c req run. unfold run. rewrite callGroqAI_schedule. fold c req.
  split_and!.
  - intros content H. by rewrite (attemptResult_completed _ _ H).
  - intros content H1 H2.
    by rewrite (attemptResult_failed _ H1), (attemptResult_completed _ _ H2).
  - intros content H1 H2 H3.
    by rewrite (attemptResult_failed _ H1), (attemptResult_failed _ H2),
       (attemptResult_completed _ _ H3).
  - intros H1 H2 H3.
    by rewrite (attemptResult_failed _ H1), (attemptResult_failed _ H2),
       (attemptResult_failed _ H3).
Qed.


Lemma bind_call {B} sys usr (k : string → M B) w :
  (callGroqAI api apiKey sys usr ≫= k) w =
  match callGroqAI api apiKey sys usr w with
  | (Ok text, w') => k text w'
  | (Throw e, w') => (Throw e, w')
  end.
Proof. reflexivity. Qed.








Lemma callGroqAI_first_try sys usr w content :
  api (calls w) = Completion content →
  callGroqAI api apiKey sys usr w
  = (Ok (JS.trim content), after w 1 [Request sys usr]).
Proof. intros H. destruct (callGroqAI_cases sys usr w) as (Hfirst & _). by apply Hfirst. Qed.



End GeneratorFacts.

(** ** Generator: runs on an example host *)

Section GeneratorRuns.
Import Generator.

Definition prompts (key : SectionKey) (content : Gatherer.Content)
    (monthName : string) (year : Z) : string :=
  match key with
  | PastoralMessage => "pastoral"
  | KingdomIntelligence => "intelligence"
  | KingdomLiving => "living"
  | PrayerFocus => "prayer"
  | ScriptureFocus => "scripture"
  | Upcoming => "upcoming"
  end.

Definition start : World := {| calls := 0; trace := [] |}.

(** An example host: it runs in UTC, and it reads the month of a date
    string that begins with an English month name, whatever the year. *)
Definition utcHost : JSDate.Host :=
  {| JSDate.localTZA := λ _, 0%Z;
     JSDate.monthOf := λ monthName _,
       (λ found : nat * Z, found.2 - 1)%Z
       <$> list_find (λ month, DateFns.format_MMMM month = monthName)
             (Z.of_nat <$> seq 1 12) |}.

(** A host in UTC that reads no date from the string when the year is
    negative. *)
Definition strictHost : JSDate.Host :=
  {| JSDate.localTZA := λ _, 0%Z;
     JSDate.monthOf := λ monthName year,
       if (year <? 0)%Z then None else JSDate.monthOf utcHost monthName year |}.

(** The first call meets a 429, a timeout and a body without choices:
    three requests, waits of 2000 and 4000 ms, then the error, and no
    request for the other five sections. *)
Example generate_aborts_on_first_section :
  let api j :=
    match j with
    | 0 => NotOk 429 "rate limit"
    | 1 => FetchRejected "network timeout"
    | 2 => NoChoice
    | _ => Completion "text"
    end%nat in
  generateNewsletter api (Some "gsk_key") "system" prompts utcHost
    "2025-06-01T12:00:00.000Z" (Gatherer.getFallbackContent 6) 6 2025 start
  = (Some (Throw "Groq API failed after 3 attempts: Unexpected API response structure"),
     {| calls := 3;
        trace := [ Request "system" "pastoral"; Sleep 2000;
                   Request "system" "pastoral"; Sleep 4000;
                   Request "system" "pastoral" ] |}).
Proof. by vm_compute. Qed.

(** The third section needs a second attempt; the newsletter is complete
    after seven requests. *)
Example generate_with_one_retry :
  let api j :=
    match j with
    | 2 => NotOk 503 "unavailable"
    | _ => Completion "  text  "
    end%nat in
  let run := generateNewsletter api (Some "gsk_key") "system" prompts utcHost
               "2025-06-01T12:00:00.000Z" (Gatherer.getFallbackContent 6) 6 2025 start in
  (match run.1 with
   | Some (Ok nl) =>
       sectionContents nl = ["text"; "text"; "text"; "text"; "text"; "text"]
       ∧ Publish.dateString (Publish.metadata nl) = "June 2025"
       ∧ Publish.contentSource (Publish.metadata nl) = "fallback"
       ∧ theme <$> Publish.meta_theme (Publish.metadata nl) = Some "Kingdom Fathers"
   | _ => False
   end)
  ∧ calls run.2 = 7%nat
  ∧ trace run.2
    = [ Request "system" "pastoral"; Request "system" "intelligence";
        Request "system" "living"; Sleep 2000; Request "system" "living";
        Request "system" "prayer"; Request "system" "scripture";
        Request "system" "upcoming" ].
Proof. by vm_compute. Qed.

(** 1 June 2025 is a Sunday; the first Saturday of the month is the 7th,
    day 20246 after 1 January 1970. *)
Example first_saturday_of_june_2025 :
  JSDate.newDate utcHost 2025 5 = Some 20240%Z
  ∧ JSDate.getDay (JSDate.newDate utcHost 2025 5) = Some 0%Z
  ∧ firstSaturday utcHost "June" 2025 = Some (Some 20246%Z).
Proof. by vm_compute. Qed.

(** A year past the range of time values: the date of the newsletter is
    invalid, and the run throws before any request. *)
Example generate_year_out_of_range :
  generateNewsletter (λ _, Completion "text") (Some "gsk_key") "system" prompts utcHost
    "2025-06-01T12:00:00.000Z" (Gatherer.getFallbackContent 6) 6 300000 start
  = (Some (Throw "Invalid time value"), start).
Proof. by vm_compute. Qed.

(** On a host that reads no date from a string with a negative year, the
    five first sections are generated and the run then never returns. *)
Example generate_negative_year :
  generateNewsletter (λ _, Completion "text") (Some "gsk_key") "system" prompts strictHost
    "2025-06-01T12:00:00.000Z" (Gatherer.getFallbackContent 6) 6 (-1) start
  = (None,
     {| calls := 5;
        trace := [ Request "system" "pastoral"; Request "system" "intelligence";
                   Request "system" "living"; Request "system" "prayer";
                   Request "system" "scripture" ] |}).
Proof. by vm_compute. Qed.

(** Without the key no request is sent and the generation throws at the
    first section, when the date of the newsletter is valid. *)
Lemma generateNewsletter_without_key api sys build host now content month year w :
  is_Some (JSDate.newDate host year (month - 1)) →
  generateNewsletter api None sys build host now content month year w
  = (Some (Throw "GROQ_API_KEY is not set. Check your .env file."), w).
Proof. intros [day Hday]. unfold generateNewsletter. by rewrite Hday. Qed.

End GeneratorRuns.

(** ** Sender: batches and delays *)

Section SenderFacts.
Import Sender.

Variable resend : nat → SendOutcome.

(** The number of failing calls among the calls [from .. from + n - 1]. *)
Definition fails (j : nat) : bool :=
  match resend j with
  | Delivered => false
  | SendError _ => true
  end.

Definition failures (from n : nat) : nat :=
  length (List.filter fails (seq from n)).

Lemma failures_S from n :
  failures from (S n) =
  ((if fails from then 1 else 0) + failures (S from) n)%nat.
Proof. unfold failures. cbn [seq List.filter]. by destruct (fails from). Qed.

Lemma failures_add from n m :
  failures from (n + m) = (failures from n + failures (from + n) m)%nat.
Proof.
  unfold failures. by rewrite seq_app, List.filter_app, length_app.
Qed.

Lemma sendOne_batch st batch :
  let st' := foldl (sendOne resend) st batch in
  trace st' = trace st ++ (Send <$> (Subscribers.email <$> batch))
  ∧ calls st' = (calls st + length batch)%nat
  ∧ (sent st' + failed st' = sent st + failed st + length batch)%nat
  ∧ failed st' = (failed st + failures (calls st) (length batch))%nat.
Proof.
  revert st. induction batch as [|sub batch IH]; intros st; cbn [foldl].
  - cbn. rewrite app_nil_r. unfold failures. cbn. split_and!; lia || done.
  - destruct (IH (sendOne resend st sub)) as (Ht & Hc & Hs & Hf).
    cbn zeta in *. rewrite Ht, Hc, Hs, Hf. cbn [length]. rewrite failures_S.
    unfold sendOne, fails.
    destruct (resend (calls st)) eqn:Hr; cbn [trace calls sent failed];
      rewrite <- app_assoc; split_and!; try done; lia.
Qed.

(** The batch lengths of [n] recipients: full batches, then the rest. *)
Definition batchLengths (n : nat) : list nat :=
  replicate (n / 10) 10%nat ++ (if (n mod 10 =? 0)%nat then [] else [(n mod 10)%nat]).

Lemma batchLengths_small n : (0 < n ≤ 10)%nat → batchLengths n = [n].
Proof.
  intros Hn. unfold batchLengths. destruct (decide (n = 10)) as [->|Hne]; [done|].
  rewrite Nat.div_small, Nat.mod_small by lia. cbn.
  destruct (Nat.eqb_spec n 0); [lia|done].
Qed.

Lemma batchLengths_step n : (10 < n)%nat → batchLengths n = 10%nat :: batchLengths (n - 10).
Proof.
  intros Hn. unfold batchLengths.
  assert (Hdiv : (n / 10 = S ((n - 10) / 10))%nat).
  { replace n with ((n - 10) + 1 * 10)%nat at 1 by lia.
    rewrite Nat.div_add by lia. lia. }
  assert (Hmod : (n mod 10 = (n - 10) mod 10)%nat).
  { replace n with ((n - 10) + 1 * 10)%nat at 1 by lia.
    by rewrite Nat.Div0.mod_add. }
  by rewrite Hdiv, Hmod.
Qed.

Lemma batchCount_small n : (0 < n ≤ 10)%nat → ((n + 9) / 10 = 1)%nat.
Proof.
  intros Hn. replace (n + 9)%nat with ((n - 1) + 1 * 10)%nat by lia.
  rewrite Nat.div_add, Nat.div_small by lia. done.
Qed.

Lemma batchCount_step n : (10 < n)%nat → ((n + 9) / 10 = S ((n - 10 + 9) / 10))%nat.
Proof.
  intros Hn. replace (n + 9)%nat with ((n - 10 + 9) + 1 * 10)%nat at 1 by lia.
  rewrite Nat.div_add by lia. lia.
Qed.

Lemma sendsOf_app t1 t2 : sendsOf (t1 ++ t2) = sendsOf t1 ++ sendsOf t2.
Proof. apply omap_app. Qed.

Lemma sleepsOf_app t1 t2 : sleepsOf (t1 ++ t2) = sleepsOf t1 ++ sleepsOf t2.
Proof. apply omap_app. Qed.

Lemma batchesOf_app t1 t2 : batchesOf (t1 ++ t2) = batchesOf t1 ++ batchesOf t2.
Proof. apply omap_app. Qed.

Lemma projections_Send emails :
  sendsOf (Send <$> emails) = emails
  ∧ sleepsOf (Send <$> emails) = []
  ∧ batchesOf (Send <$> emails) = [].
Proof.
  induction emails as [|e emails (IH1 & IH2 & IH3)]; [done|].
  unfold sendsOf, sleepsOf, batchesOf in *. rewrite fmap_cons. cbn [omap list_omap].
  by rewrite IH1, IH2, IH3.
Qed.

(** The trace of sending the batches [bs], numbered from [k]: each batch
    is announced and sent, and a wait of 2000 ms stands between a batch
    and the next. *)
Fixpoint render (k : nat) (bs : list (list string)) : list Event :=
  match bs with
  | [] => []
  | b :: rest =>
      BatchStart k (length b) :: (Send <$> b)
        ++ match rest with
           | [] => []
           | _ :: _ => Sleep 2000 :: render (S k) rest
           end
  end.

Lemma render_projections k bs :
  sendsOf (render k bs) = mjoin bs
  ∧ batchesOf (render k bs) = length <$> bs
  ∧ sleepsOf (render k bs) = replicate (pred (length bs)) 2000%nat.
Proof.
  revert k. induction bs as [|b rest IH]; intros k; [done|].
  destruct (projections_Send b) as (Hp1 & Hp2 & Hp3).
  cbn [render]. change (BatchStart k (length b) :: ?t) with ([BatchStart k (length b)] ++ t).
  rewrite !sendsOf_app, !batchesOf_app, !sleepsOf_app, Hp1, Hp2, Hp3.
  destruct rest as [|b' rest'].
  - cbn. by rewrite !app_nil_r.
  - destruct (IH (S k)) as (IH1 & IH2 & IH3).
    change (Sleep 2000 :: ?t) with ([Sleep 2000] ++ t).
    rewrite !sendsOf_app, !batchesOf_app, !sleepsOf_app, IH1, IH2, IH3.
    by cbn.
Qed.

Lemma batchLengths_pos n : (0 < n)%nat → batchLengths n ≠ [].
Proof.
  intros Hn. destruct (decide (n ≤ 10)%nat).
  - by rewrite batchLengths_small by lia.
  - by rewrite batchLengths_step by lia.
Qed.

Lemma batchLengths_0 : batchLengths 0 = [].
Proof. reflexivity. Qed.

(** The loop from index [i] on: it sends the recipients that are left as
    the batches [bs], given fuel for them. *)
Lemma batchLoop_spec subs fuel i st :
  let R := (length subs - i)%nat in
  (R ≤ fuel)%nat →
  let st' := batchLoop resend fuel subs i st in
  ∃ bs, trace st' = trace st ++ render (i / 10 + 1) bs
    ∧ mjoin bs = Subscribers.email <$> drop i subs
    ∧ length <$> bs = batchLengths R
    ∧ calls st' = (calls st + R)%nat
    ∧ (sent st' + failed st' = sent st + failed st + R)%nat
    ∧ failed st' = (failed st + failures (calls st) R)%nat.
Proof.
  revert i st. induction fuel as [|fuel IH]; intros i st R Hfuel.
  - exists []. assert (R = 0%nat) as HR by lia. rewrite HR.
    rewrite drop_ge by lia. cbn. rewrite app_nil_r. split_and!; done || lia.
  - cbn [batchLoop]. destruct (Nat.ltb_spec i (length subs)) as [Hi|Hi].
    2:{ exists []. assert (R = 0%nat) as HR by lia. rewrite HR.
        rewrite drop_ge by lia. cbn. rewrite app_nil_r. split_and!; done || lia. }
    unfold slice, batchSize, batchDelay.
    replace (i + 10 - i)%nat with 10%nat by lia.
    set (batch := take 10 (drop i subs)).
    assert (Hlen : length batch = (R `min` 10)%nat).
    { subst batch. rewrite length_take, length_drop. lia. }
    set (st1 := logEvent (BatchStart (i / 10 + 1) (length batch)) st).
    destruct (sendOne_batch st1 batch) as (Ht & Hc & Hs & Hf). cbn zeta in *.
    set (st2 := foldl (sendOne resend) st1 batch) in *.
    set (st3 := if (i + 10 <? length subs)%nat
                then logEvent (Sleep 2000) st2 else st2).
    destruct (IH (i + 10)%nat st3) as (bs' & Ht' & Hjoin' & Hlens' & Hc' & Hs' & Hf');
      [lia|].
    cbn zeta in *.
    assert (Hnum : ((i + 10) / 10 + 1 = S (i / 10 + 1))%nat).
    { replace (i + 10)%nat with (i + 1 * 10)%nat by lia.
      rewrite Nat.div_add by lia. lia. }
    assert (Hsplit : Subscribers.email <$> drop i subs
                     = (Subscribers.email <$> batch)
                         ++ (Subscribers.email <$> drop (i + 10) subs)).
    { rewrite <- fmap_app. f_equal. subst batch.
      rewrite <- (take_drop 10 (drop i subs)) at 1. by rewrite drop_drop. }
    exists ((Subscribers.email <$> batch) :: bs').
    assert (Hblen : length (Subscribers.email <$> batch) = length batch)
      by apply length_fmap.
    destruct (Nat.ltb_spec (i + 10) (length subs)) as [Hmore|Hlast].
    + (* a further batch follows: the wait is made *)
      assert (HR : (10 < R)%nat) by lia.
      replace (length subs - (i + 10))%nat with (R - 10)%nat in * by lia.
      subst st3. rewrite Ht'. cbn [logEvent trace]. rewrite Ht. subst st1.
      cbn [logEvent trace calls sent failed] in *.
      rewrite (batchLengths_step R) by lia.
      replace (length batch) with 10%nat in * by lia.
      destruct bs' as [|b' bs''].
      { symmetry in Hlens'. by apply batchLengths_pos in Hlens'; [|lia]. }
      split_and!.
      * cbn [render]. rewrite Hblen, Hnum, <- !app_assoc. done.
      * rewrite Hsplit, <- Hjoin'. reflexivity.
      * rewrite fmap_cons, Hlens', Hblen. done.
      * lia.
      * lia.
      * rewrite Hf', Hc, Hf. replace R with (10 + (R - 10))%nat at 2 by lia.
        rewrite failures_add. lia.
    + (* the last batch: no wait *)
      assert (HR : (0 < R ≤ 10)%nat) by lia.
      replace (length subs - (i + 10))%nat with 0%nat in * by lia.
      subst st3. rewrite Ht', Ht. subst st1.
      cbn [logEvent trace calls sent failed] in *.
      rewrite (batchLengths_small R) by lia.
      replace (length batch) with R in * by lia.
      rewrite batchLengths_0 in Hlens'. apply fmap_nil_inv in Hlens' as ->.
      split_and!.
      * cbn [render]. rewrite Hblen, !app_nil_r, <- !app_assoc. done.
      * rewrite Hsplit, <- Hjoin'. reflexivity.
      * rewrite fmap_cons, Hblen. done.
      * lia.
      * lia.
      * rewrite Hf', Hc, Hf. unfold failures at 2. cbn. lia.
Qed.

Lemma batchLengths_length n : length (batchLengths n) = ((n + 9) / 10)%nat.
Proof.
  assert (Hall : ∀ m n, (n ≤ m)%nat → length (batchLengths n) = ((n + 9) / 10)%nat).
  { clear n. induction m as [|m IH]; intros n Hn.
    - by replace n with 0%nat by lia.
    - destruct (decide (n = 0)) as [->|Hpos]; [done|].
      destruct (decide (n ≤ 10)%nat) as [Hsmall|Hbig].
      + by rewrite batchLengths_small, batchCount_small by lia.
      + rewrite batchLengths_step, batchCount_step by lia. cbn [length].
        f_equal. apply IH. lia. }
  by apply (Hall n).
Qed.

Lemma batchLengths_bounds n : Forall (λ size, (1 ≤ size ≤ 10)%nat) (batchLengths n).
Proof.
  unfold batchLengths. apply Forall_app. split.
  - apply Forall_replicate. lia.
  - destruct (Nat.eqb_spec (n mod 10) 0); [constructor|].
    constructor; [|constructor]. pose proof (Nat.mod_upper_bound n 10). lia.
Qed.

(** [ceil(n / b)] on the integers *)
Definition ceilDiv (n b : Z) : Z := ((n + b - 1) `div` b)%Z.

Lemma ceilDiv_10 n : ceilDiv (Z.of_nat n) 10 = Z.of_nat ((n + 9) / 10).
Proof.
  unfold ceilDiv. rewrite Nat2Z.inj_div.
  by replace (Z.of_nat n + 10 - 1)%Z with (Z.of_nat (n + 9)) by lia.
Qed.

(** An empty list: no batch, no send, no wait, where the formula of the
    specification asks for [ceil(0/10) - 1 = -1] waits.  [main] returns
    before the loop when the forms API gives no subscriber. *)
Lemma sendAll_empty_list :
  let st := sendAll (λ _, Delivered) [] in
  trace st = []
  ∧ Z.of_nat (length (sleepsOf (trace st))) = 0%Z
  ∧ (ceilDiv 0 10 - 1 = -1)%Z
  ∧ Z.of_nat (length (sleepsOf (trace st))) ≠ (ceilDiv 0 10 - 1)%Z
  ∧ mainFromKeyCheck (λ _, Delivered) (Some "re_key") None (Ok []) = Return initial
  ∧ main (λ _, Delivered) []
      {| content := true; template := true; emailHtml := Ok "<html>";
         previewWrite := Ok tt |}
      (Some "re_key") (Ok [])
    = Returned initial.
Proof. by vm_compute. Qed.

(** The address of the test mode is the argument after the first
    [--test]. *)
Lemma testEmailOf_after_flag (before rest : list string) (addr : string) :
  "--test" ∉ before →
  testEmailOf (before ++ "--test" :: addr :: rest) = Some addr.
Proof.
  intros Hnot. unfold testEmailOf.
  assert (Hfind : list_find (λ a, a = "--test") (before ++ "--test" :: addr :: rest)
                  = Some (length before, "--test")).
  { apply list_find_Some. split_and!.
    - by rewrite lookup_app_r, Nat.sub_diag by lia.
    - done.
    - intros j y Hy Hj ->. rewrite lookup_app_l in Hy by done.
      apply Hnot. by eapply list_elem_of_lookup_2. }
  rewrite Hfind. cbn [fmap option_fmap option_map fst].
  rewrite lookup_app_r by lia.
  by replace (length before + 1 - length before)%nat with 1%nat by lia.
Qed.

Lemma testEmailOf_no_flag (args : list string) :
  "--test" ∉ args → testEmailOf args = None.
Proof.
  intros Hnot. unfold testEmailOf.
  destruct (list_find _ args) as [[i a]|] eqn:Hfind; [|done].
  apply list_find_Some in Hfind as (Hi & -> & _).
  exfalso. apply Hnot. by eapply list_elem_of_lookup_2.
Qed.

(** [main] comes to the check of the API key when the content and the
    template are loaded, the email is built and [--preview] is not
    given. *)
Lemma main_comes_to_key_check args files html key netlify :
  content files = true → template files = true → emailHtml files = Ok html →
  "--preview" ∉ args →
  main resend args files key netlify
  = match mainFromKeyCheck resend key (testEmailOf args) netlify with
    | Exit code => Exited code
    | Return st => Returned st
    end.
Proof.
  intros Hcontent Htemplate Hhtml Hnot. unfold main.
  rewrite Hcontent, Htemplate, Hhtml. cbn [negb].
  by rewrite bool_decide_false by done.
Qed.

End SenderFacts.

Section SenderBatches.
Import Sender.

(** C5, amended.  For every subscriber list of length N the sender calls
    [sendEmail] exactly N times, once per subscriber and in list order,
    whatever the calls come to: each call that throws is counted in
    [failed], each other call in [sent], and the run goes on.  The list
    is sent as consecutive batches of 10, the last batch holding the
    rest (23 subscribers: 10, 10, 3), with one wait of 2000 ms between a
    batch and the next and none after the last.  For a non-empty list
    that makes ceil(N/10) batches and ceil(N/10) - 1 waits; for the
    empty list there is no batch, no call and no wait.  This is the run
    of [main] from the check of the API key on, when the key is set,
    [--test] is not given and the forms API returns the list; and
    [main] comes to that check, and so ends with this run, when the
    content and the template are loaded, the email is built and
    [--preview] is not given. *)
Theorem sendAll_batches_and_delays
    (resend : nat → SendOutcome) (subscribers : list Subscribers.Subscriber)
    (key0 : ascii) (key : string) :
  let N := length subscribers in
  let st := sendAll resend subscribers in
  ∃ bs,
    mainFromKeyCheck resend (Some (String key0 key)) None (Ok subscribers) = Return st
    ∧ trace st = render 1 bs
    ∧ mjoin bs = Subscribers.email <$> subscribers
    ∧ length <$> bs = batchLengths N
    ∧ Forall (λ b, (1 ≤ length b ≤ 10)%nat) bs
    ∧ Z.of_nat (length bs) = ceilDiv (Z.of_nat N) 10
    ∧ sendsOf (trace st) = Subscribers.email <$> subscribers
    ∧ length (sendsOf (trace st)) = N
    ∧ calls st = N
    ∧ (sent st + failed st)%nat = N
    ∧ failed st = failures resend 0 N
    ∧ sleepsOf (trace st) = replicate (length bs - 1) 2000%nat
    ∧ Z.of_nat (length (sleepsOf (trace st)))
      = (if decide (N = 0%nat) then 0 else ceilDiv (Z.of_nat N) 10 - 1)%Z
    ∧ (∀ args files html,
         content files = true → template files = true →
         emailHtml files = Ok html →
         "--preview" ∉ args → "--test" ∉ args →
         main resend args files (Some (String key0 key)) (Ok subscribers)
         = Returned st).
Proof.
  intros N st.
  destruct (batchLoop_spec resend subscribers (length subscribers) 0 initial)
    as (bs & Ht & Hjoin & Hlens & Hc & Hs & Hf); [lia|].
  cbn zeta in *. fold (sendAll resend subscribers) in *. fold st in Ht, Hc, Hs, Hf.
  rewrite Nat.sub_0_r in *. fold N in Hlens, Hc, Hs, Hf.
  cbn [initial trace calls sent failed drop] in *.
  change (0 / 10 + 1)%nat with 1%nat in Ht. rewrite app_nil_l in Ht.
  destruct (render_projections 1 bs) as (Hp1 & Hp2 & Hp3).
  assert (Hnum : length bs = ((N + 9) / 10)%nat).
  { rewrite <- batchLengths_length, <- Hlens. by rewrite length_fmap. }
  exists bs. split_and!; try done.
  - by destruct subscribers.
  - pose proof (batchLengths_bounds N) as Hb. rewrite <- Hlens in Hb.
    by apply Forall_fmap in Hb.
  - by rewrite ceilDiv_10, Hnum.
  - by rewrite Ht, Hp1.
  - by rewrite Ht, Hp1, Hjoin, length_fmap.
  - rewrite Ht, Hp3. f_equal. lia.
  - rewrite Ht, Hp3, length_replicate, ceilDiv_10, <- Hnum.
    case_decide as HN.
    + rewrite HN in Hnum. change ((0 + 9) / 10)%nat with 0%nat in Hnum. lia.
    + assert (1 ≤ length bs)%nat; [|lia].
      rewrite Hnum. apply Nat.div_le_lower_bound; lia.
  - intros args files html Hcontent Htemplate Hhtml Hpreview Htest.
    rewrite (main_comes_to_key_check _ _ _ _ _ _ Hcontent Htemplate Hhtml Hpreview).
    rewrite (testEmailOf_no_flag _ Htest). by destruct subscribers.
Qed.

(** End-to-end scenario 4: 23 subscribers, of whom the fifth and the
    twentieth cannot be reached. *)
Example send_23_subscribers :
  let subscribers :=
    (λ n, {| Subscribers.name := "S";
             Subscribers.email := JS.decimal (N.of_nat n) +:+ "@example.org";
             Subscribers.subscribedAt := "" |}) <$> seq 1 23 in
  let resend j :=
    if bool_decide (j = 4%nat ∨ j = 19%nat) then SendError "bounced" else Delivered in
  let st := sendAll resend subscribers in
  batchesOf (trace st) = [10; 10; 3]%nat
  ∧ sleepsOf (trace st) = [2000; 2000]%nat
  ∧ length (sendsOf (trace st)) = 23%nat
  ∧ sent st = 21%nat ∧ failed st = 2%nat
  ∧ last (trace st) = Some (Send "23@example.org")
  ∧ (ceilDiv 23 10 - 1 = 2)%Z
  ∧ mainFromKeyCheck resend (Some "re_key") None (Ok subscribers) = Return st
  ∧ main resend []
      {| content := true; template := true; emailHtml := Ok "<html>";
         previewWrite := Ok tt |}
      (Some "re_key") (Ok subscribers)
    = Returned st.
Proof. by vm_compute. Qed.

End SenderBatches.

(** ** Live-alert notifier: channel selection and isolation *)

Section LiveAlertFacts.
Import LiveAlert.

Variable env : Env.
Variable net : nat → Response.

Lemma attempted_app c calls1 calls2 t1 t2 :
  attempted c {| calls := calls1; trace := t1 ++ t2 |}
  = attempted c {| calls := calls2; trace := t1 |}
    || attempted c {| calls := calls2; trace := t2 |}.
Proof. unfold attempted. cbn [trace]. apply existsb_app. Qed.

Lemma attempted_request c channel target st :
  attempted c (request net channel target st).2
  = attempted c st || bool_decide (channel = c).
Proof.
  unfold request. cbn [snd]. rewrite (attempted_app c _ (calls st)).
  destruct st as [n t]. unfold attempted at 2. cbn. by rewrite orb_false_r.
Qed.

Lemma attempted_wait c ms st : attempted c (wait ms st) = attempted c st.
Proof.
  unfold wait. rewrite (attempted_app c _ (calls st)).
  destruct st as [n t]. unfold attempted at 2. cbn. by rewrite orb_false_r.
Qed.

Lemma attempted_sendNtfy c message st :
  attempted c (sendNtfy net message st).2 = attempted c st || bool_decide (Ntfy = c).
Proof.
  unfold sendNtfy.
  pose proof (attempted_request c Ntfy "https://ntfy.sh/ifm-live-alerts-2026" st) as H.
  by destruct (request net Ntfy _ st).
Qed.

Definition telegramConfigured : bool :=
  truthy (orEmpty (TELEGRAM_BOT_TOKEN env)) && truthy (orEmpty (TELEGRAM_CHANNEL_ID env)).

Definition emailConfigured : bool := truthy (orEmpty (RESEND_API_KEY env)).

Lemma attempted_sendTelegram c message st :
  attempted c (sendTelegram env net message st).2
  = attempted c st || telegramConfigured && bool_decide (Telegram = c).
Proof.
  unfold sendTelegram, telegramConfigured.
  destruct (truthy (orEmpty (TELEGRAM_BOT_TOKEN env)));
    destruct (truthy (orEmpty (TELEGRAM_CHANNEL_ID env)));
    cbn [negb orb andb snd]; rewrite ?orb_false_r; try done.
  match goal with
  | |- context [request net Telegram ?url st] =>
      pose proof (attempted_request c Telegram url st) as H;
      by destruct (request net Telegram url st)
  end.
Qed.

Lemma sendTelegram_skipped message st :
  telegramConfigured = false → sendTelegram env net message st = (false, st).
Proof.
  unfold sendTelegram, telegramConfigured.
  by destruct (truthy (orEmpty (TELEGRAM_BOT_TOKEN env))),
            (truthy (orEmpty (TELEGRAM_CHANNEL_ID env))).
Qed.

Lemma attempted_emailOne c acc email :
  attempted c (emailOne net acc email).2
  = attempted c acc.2 || bool_decide (Email = c).
Proof.
  destruct acc as [[sent failed] st]. unfold emailOne. cbn [snd].
  pose proof (attempted_request c Email email st) as H.
  destruct (request net Email email st) as [r st'].
  cbn [snd] in H. destruct r as [|[] ?]; cbn [snd]; by rewrite ?attempted_wait.
Qed.

Lemma attempted_emailAll c acc emails :
  attempted c (foldl (emailOne net) acc emails).2
  = attempted c acc.2 || bool_decide (Email = c) && (0 <? length emails)%nat.
Proof.
  revert acc. induction emails as [|e emails IH]; intros acc.
  - cbn. by rewrite andb_false_r, orb_false_r.
  - cbn [foldl]. rewrite IH, attempted_emailOne. cbn [length].
    destruct (attempted c acc.2), (bool_decide (Email = c)); cbn;
      by rewrite ?orb_true_r.
Qed.

Lemma attempted_sendEmail c message st :
  attempted c (sendEmail env net message st).2
  = attempted c st || emailConfigured && bool_decide (Email = c).
Proof.
  unfold sendEmail, emailConfigured.
  destruct (truthy (orEmpty (RESEND_API_KEY env)));
    cbn [negb andb snd]; rewrite ?orb_false_r; [|done].
  change (length subscribers =? 0)%nat with false. cbv iota.
  pose proof (attempted_emailAll c (0%nat, 0%nat, st) subscribers) as H.
  destruct (foldl (emailOne net) (0%nat, 0%nat, st) subscribers) as [[sent failed] st'].
  cbn [snd] in *. rewrite H. by rewrite andb_true_r.
Qed.

Lemma sendEmail_skipped message st :
  emailConfigured = false → sendEmail env net message st = (false, st).
Proof.
  unfold sendEmail, emailConfigured.
  by destruct (truthy (orEmpty (RESEND_API_KEY env))).
Qed.

End LiveAlertFacts.

Section LiveAlertChannels.
Import LiveAlert.

(** The platform filter: [all], or the channel by name. *)
Definition selects (platform : option string) (name : string) : bool :=
  platformIs platform "all" || platformIs platform name.

(** With [--test] the push channel is used whatever [--platform] names. *)
Lemma main_test_ignores_platform :
  let env := {| TELEGRAM_BOT_TOKEN := Some "123456:token";
                TELEGRAM_CHANNEL_ID := Some "@ifm_live";
                RESEND_API_KEY := Some "re_key" |} in
  let args := ["--test"; "--platform"; "telegram"] in
  let run := main env (λ _, Answer true true) args in
  argAfter "--platform" args "all" = Some "telegram"
  ∧ selects (Some "telegram") "ntfy" = false
  ∧ attempted Ntfy run.2 = true
  ∧ attempted Telegram run.2 = false
  ∧ run.1 = {["ntfy" := true]}.
Proof. by vm_compute. Qed.

Lemma sendNtfy_result net message st :
  sendNtfy net message st
  = (delivered (net (calls st)), (sendNtfy net message st).2).
Proof. reflexivity. Qed.

Lemma sendNtfy_calls net message st :
  calls (sendNtfy net message st).2 = S (calls st).
Proof. reflexivity. Qed.

Lemma sendTelegram_result env net message st :
  (sendTelegram env net message st).1
  = telegramConfigured env && delivered (net (calls st)).
Proof.
  unfold sendTelegram, telegramConfigured.
  by destruct (truthy (orEmpty (TELEGRAM_BOT_TOKEN env))),
            (truthy (orEmpty (TELEGRAM_CHANNEL_ID env))).
Qed.

Lemma sendEmail_result env net message st :
  (sendEmail env net message st).1 && negb (emailConfigured env) = false.
Proof.
  unfold sendEmail, emailConfigured.
  destruct (truthy (orEmpty (RESEND_API_KEY env))); cbn [negb]; [|done].
  by rewrite andb_false_r.
Qed.

Lemma attempted_initial c : attempted c initial = false.
Proof. reflexivity. Qed.

(** C8, amended.  Invoked with [--platform telegram] alone and no
    TELEGRAM_BOT_TOKEN, the notifier ends with the results object
    [{telegram: false}] and has sent no request at all: the telegram
    channel is skipped, ntfy and email are not tried.  In general,
    without [--test], a channel is tried exactly when the platform filter
    selects it ([all], or the channel by name) and its configuration is
    present (ntfy needs none); with [--test] ntfy alone is tried,
    whatever the platform filter says.  What a request comes to has no
    part in this: a channel that fails keeps no other channel from being
    tried, and a selected channel without configuration is reported as
    [false]. *)
Theorem main_channels (env : Env) (net : nat → Response) (args : list string) :
  let isTest := bool_decide ("--test" ∈ args) in
  let platform := argAfter "--platform" args "all" in
  let ntfySelected := isTest || selects platform "ntfy" in
  let telegramSelected := negb isTest && selects platform "telegram" in
  let emailSelected := negb isTest && selects platform "email" in
  let results := (main env net args).1 in
  let st := (main env net args).2 in
  attempted Ntfy st = ntfySelected
  ∧ attempted Telegram st = telegramSelected && telegramConfigured env
  ∧ attempted Email st = emailSelected && emailConfigured env
  ∧ results !! "ntfy"
    = (if ntfySelected then Some (delivered (net 0)) else None)
  ∧ results !! "telegram"
    = (if telegramSelected
       then Some (telegramConfigured env
                  && delivered (net (if ntfySelected then 1 else 0)%nat))
       else None)
  ∧ match results !! "email" with
    | Some b => emailSelected = true ∧ b && negb (emailConfigured env) = false
    | None => emailSelected = false
    end
  ∧ main {| TELEGRAM_BOT_TOKEN := None;
            TELEGRAM_CHANNEL_ID := TELEGRAM_CHANNEL_ID env;
            RESEND_API_KEY := RESEND_API_KEY env |} net ["--platform"; "telegram"]
    = ({["telegram" := false]}, initial).
Proof.
  intros isTest platform ntfySelected telegramSelected emailSelected results st.
  assert (Hmain : main env net args =
    let message := argAfter "--message" args DEFAULT_MESSAGE in
    let r1 := if ntfySelected
              then (<["ntfy" := (sendNtfy net message initial).1]> ∅,
                    (sendNtfy net message initial).2)
              else (∅, initial) in
    let r2 := if telegramSelected
              then (<["telegram" := (sendTelegram env net message r1.2).1]> r1.1,
                    (sendTelegram env net message r1.2).2)
              else r1 in
    let r3 := if emailSelected
              then (<["email" := (sendEmail env net message r2.2).1]> r2.1,
                    (sendEmail env net message r2.2).2)
              else r2 in
    r3).
  { unfold main. fold isTest platform. rewrite <- orb_assoc.
    fold (selects platform "ntfy") (selects platform "telegram")
      (selects platform "email").
    fold ntfySelected telegramSelected emailSelected. cbv zeta.
    destruct ntfySelected, telegramSelected, emailSelected;
      cbv beta iota; cbn [fst snd];
      repeat (match goal with
              | |- context [let '(_, _) := sendNtfy ?n ?m ?s in _] =>
                  destruct (sendNtfy n m s)
              | |- context [let '(_, _) := sendTelegram ?e ?n ?m ?s in _] =>
                  destruct (sendTelegram e n m s)
              | |- context [let '(_, _) := sendEmail ?e ?n ?m ?s in _] =>
                  destruct (sendEmail e n m s)
              end; cbn [fst snd]; cbv beta iota);
      reflexivity. }
  assert (Hscenario :
    main {| TELEGRAM_BOT_TOKEN := None;
            TELEGRAM_CHANNEL_ID := TELEGRAM_CHANNEL_ID env;
            RESEND_API_KEY := RESEND_API_KEY env |} net ["--platform"; "telegram"]
    = ({["telegram" := false]}, initial)) by reflexivity.
  subst results st. rewrite Hmain. clear Hmain. cbv zeta.
  set (message := argAfter "--message" args DEFAULT_MESSAGE).
  destruct ntfySelected, telegramSelected, emailSelected; cbn [fst snd andb];
    rewrite ?attempted_sendEmail, ?attempted_sendTelegram, ?attempted_sendNtfy,
      ?attempted_initial;
    rewrite ?lookup_insert_eq, ?lookup_insert_ne, ?lookup_empty by done;
    rewrite ?sendTelegram_result, ?sendNtfy_calls;
    cbn [orb andb bool_decide decide_rel Channel_eq_dec];
    rewrite ?andb_false_r, ?andb_true_r, ?orb_false_r;
    split_and!; try done; try apply sendEmail_result.
Qed.

End LiveAlertChannels.

(** ** Signup function: the welcome email and the response *)

Section SignupFacts.
Import Signup.

Example isValidEmail_examples :
  isValidEmail (Some "ann@example.org") = true
  ∧ isValidEmail (Some "  ann@example.org ") = true
  ∧ isValidEmail (Some "a@b..c") = true
  ∧ isValidEmail (Some "ann@example") = false
  ∧ isValidEmail (Some "ann@.org") = false
  ∧ isValidEmail (Some "ann@example.") = false
  ∧ isValidEmail (Some "@example.org") = false
  ∧ isValidEmail (Some "ann@@example.org") = false
  ∧ isValidEmail (Some "ann smith@example.org") = false
  ∧ isValidEmail (Some "") = false
  ∧ isValidEmail None = false.
Proof. by vm_compute. Qed.

Definition jsonHeaders : gmap string string :=
  {["content-type" := "application/json"]}.

Definition post (data : Data) : Event :=
  {| httpMethod := "POST"; headers := jsonHeaders;
     body := {| asJson := Ok data; asForm := {| email := None; name := None |} |} |}.

(** A POST whose body, read by the parser that its content type selects,
    gives the data [data]. *)
Definition carries (event : Event) (data : Data) : Prop :=
  httpMethod event = "POST"
  ∧ (if JS.includes (default "" (headers event !! "content-type")) "application/json"
     then asJson (body event) = Ok data
     else asForm (body event) = data).

Lemma handler_carries key mail event data :
  carries event data →
  handler key mail event =
  if negb (isValidEmail (email data)) then
    (reply 400 false "Please provide a valid email address." None, [])
  else
    match sendWelcomeEmail key mail (JS.trim (default "" (email data)))
            (default "" (name data)) with
    | (Throw _, effects) =>
        (reply 500 false
           "Something went wrong. Please try again or email us directly at increasingfaithministry@gmail.com."
           None, effects)
    | (Ok emailResult, effects) =>
        match flags emailResult with
        | Throw _ =>
            (reply 500 false
               "Something went wrong. Please try again or email us directly at increasingfaithministry@gmail.com."
               None, effects)
        | Ok (skipped, error) =>
            (reply 200 true
               "Welcome to the Kingdom Report! Check your inbox for a welcome message."
               (Some (negb skipped && negb error)), effects)
        end
    end.
Proof.
  intros [Hpost Hdata]. unfold handler. rewrite Hpost. cbn [String.eqb Ascii.eqb].
  change (("POST" =? "OPTIONS")%string) with false.
  change (("POST" =? "POST")%string) with true. cbn [negb].
  destruct (JS.includes _ "application/json"); by rewrite Hdata.
Qed.

(** A syntactically valid email: the signup succeeds when the welcome
    email is skipped for want of a key, and when the mail API answers
    with an error status. *)
Lemma handler_skipped_or_refused key mail event data :
  carries event data → isValidEmail (email data) = true →
  key = None ∨ key = Some "" ∨ (∃ status, mail = Status false status true) →
  ∃ effects,
    handler key mail event =
    (reply 200 true
       "Welcome to the Kingdom Report! Check your inbox for a welcome message."
       (Some false), effects).
Proof.
  intros Hc Hvalid Hcase. rewrite (handler_carries _ _ _ _ Hc), Hvalid. cbn [negb].
  destruct Hcase as [->|[->|[status ->]]]; [by eexists..|].
  unfold sendWelcomeEmail. destruct key as [[|c k]|]; by eexists.
Qed.

(** An email that fails validation: status 400, and no request to the
    mail API. *)
Lemma handler_invalid_email key mail event data :
  carries event data → isValidEmail (email data) = false →
  handler key mail event =
  (reply 400 false "Please provide a valid email address." None, []).
Proof.
  intros Hc Hinvalid. by rewrite (handler_carries _ _ _ _ Hc), Hinvalid.
Qed.

(** With a key set, a fetch that rejects makes [sendWelcomeEmail] throw,
    and the handler answers 500 to a signup with a valid email. *)
Lemma handler_fetch_rejected c k msg event data :
  carries event data → isValidEmail (email data) = true →
  ∃ effects,
    handler (Some (String c k)) (FetchRejected msg) event =
    (reply 500 false
       "Something went wrong. Please try again or email us directly at increasingfaithministry@gmail.com."
       None, effects)
    ∧ effects = [WelcomePost (JS.trim (default "" (email data)))].
Proof.
  intros Hc Hvalid. rewrite (handler_carries _ _ _ _ Hc), Hvalid. by eexists.
Qed.

(** C10.  A POST with the valid email ann@example.org, the key set, and
    a request to the mail API that is rejected (no connection): the
    handler tries the welcome email and answers 500 with
    [success: false], where the same signup is answered 200 when the key
    is missing or the mail API answers 422. *)
Theorem handler_welcome_failure_fails_signup :
  let event := post {| email := Some "ann@example.org"; name := Some "Ann" |} in
  isValidEmail (Some "ann@example.org") = true
  ∧ (statusCode <$> [ (handler (Some "re_key") (FetchRejected "ECONNRESET") event).1;
                      (handler (Some "re_key") (Status true 200 false) event).1;
                      (handler (Some "re_key") (Status false 422 true) event).1;
                      (handler None (FetchRejected "ECONNRESET") event).1 ])
    = [500; 500; 200; 200]%nat
  ∧ (success <$> payload (handler (Some "re_key") (FetchRejected "ECONNRESET") event).1)
    = Some false
  ∧ (handler (Some "re_key") (FetchRejected "ECONNRESET") event).2
    = [WelcomePost "ann@example.org"].
Proof. by vm_compute. Qed.

End SignupFacts.


(** * Further properties of the scripts *)

(** ** Content gatherer: the buckets *)

Section GathererBuckets.
Import JS Gatherer.

Lemma sublist_List_filter {A} (f : A → bool) (l : list A) :
  sublist (List.filter f l) l.
Proof.
  induction l as [|x l IH]; simpl; [constructor|].
  destruct (f x); by constructor.
Qed.

Lemma Forall_List_filter {A} (f : A → bool) (l : list A) :
  Forall (λ x, f x = true) (List.filter f l).
Proof.
  apply Forall_forall. intros x Hx. by apply list_elem_of_In, filter_In in Hx as [_ ?].
Qed.

(** A bucket: the first [n] elements of a list that pass a test. *)
Lemma bucket_spec {A} (f : A → bool) (n : nat) (l : list A) :
  (length (take n (List.filter f l)) ≤ n)%nat
  ∧ sublist (take n (List.filter f l)) l
  ∧ Forall (λ x, f x = true) (take n (List.filter f l)).
Proof.
  split_and!.
  - rewrite length_take. lia.
  - etrans; [apply sublist_take|apply sublist_List_filter].
  - apply Forall_take, Forall_List_filter.
Qed.

Lemma relevantOf_positive articles :
  Forall (λ a, (0 < score a)%nat) (relevantOf articles).
Proof.
  unfold relevantOf. rewrite sortBy_Permutation. apply Forall_forall.
  intros a Ha. by apply list_elem_of_filter in Ha as [? _].
Qed.

(** X1.  [categorizeContent] gives at most 6 top stories and at most 3
    articles in each of the four themed buckets.  Every bucket is drawn
    from the ranked list of relevant articles and keeps its order, so
    every article in a bucket has a positive score, and every article of
    a themed bucket matches the pattern of its bucket. *)
Theorem categorizeContent_buckets (articles : list Article) :
  let c := categorizeContent articles in
  let relevant := relevantOf articles in
  ((length (topStories c) ≤ 6)%nat ∧ sublist (topStories c) relevant)
  ∧ ((length (missionNews c) ≤ 3)%nat ∧ sublist (missionNews c) relevant
     ∧ Forall (λ a, testAny ["mission"; "plant"; "evangel"; "unreached"] a = true)
         (missionNews c))
  ∧ ((length (persecutionUpdates c) ≤ 3)%nat ∧ sublist (persecutionUpdates c) relevant
     ∧ Forall (λ a, testAny ["persecut"; "martyr"; "imprison"; "underground"] a = true)
         (persecutionUpdates c))
  ∧ ((length (revivalReports c) ≤ 3)%nat ∧ sublist (revivalReports c) relevant
     ∧ Forall (λ a, testAny ["revival"; "awaken"; "movement"; "growth"; "bapti"] a = true)
         (revivalReports c))
  ∧ ((length (cultureInfluence c) ≤ 3)%nat ∧ sublist (cultureInfluence c) relevant
     ∧ Forall (λ a, testAny ["culture"; "societ"; "education"; "government";
                             "business"; "art"; "media"; "transform"] a = true)
         (cultureInfluence c))
  ∧ Forall (λ a, (0 < score a)%nat)
      (topStories c ++ missionNews c ++ persecutionUpdates c
         ++ revivalReports c ++ cultureInfluence c).
Proof.
  intros c relevant.
  assert (Hpos : ∀ l, sublist l relevant → Forall (λ a, (0 < score a)%nat) l).
  { intros l Hl. apply Forall_forall. intros a Ha.
    apply (proj1 (Forall_forall _ _) (relevantOf_positive articles)).
    by eapply elem_of_sublist. }
  assert (Htop : (length (topStories c) ≤ 6)%nat ∧ sublist (topStories c) relevant).
  { subst c. cbn [categorizeContent topStories]. split.
    - rewrite length_take. lia.
    - apply sublist_take. }
  split_and!; try apply Htop; try apply bucket_spec.
  rewrite !Forall_app. split_and!; apply Hpos; try apply Htop; apply bucket_spec.
Qed.

Lemma StronglySorted_app_between {A} (R : A → A → Prop) (l1 l2 : list A) :
  StronglySorted R (l1 ++ l2) → Forall (λ a, Forall (R a) l2) l1.
Proof.
  induction l1 as [|x l1 IH]; intros Hs; [constructor|].
  apply StronglySorted_inv in Hs as [Hs Hx]. constructor.
  - by apply Forall_app in Hx as [_ ?].
  - by apply IH.
Qed.

(** X2.  The top stories are the highest ranked: no relevant article
    that is left out of the top stories has a higher score than an
    article that is in. *)
Theorem categorizeContent_top_stories_highest (articles : list Article) :
  let c := categorizeContent articles in
  topStories c ++ drop 6 (relevantOf articles) = relevantOf articles
  ∧ Forall (λ top, Forall (λ rest, (score rest ≤ score top)%nat)
                     (drop 6 (relevantOf articles)))
      (topStories c).
Proof.
  intros c. subst c. cbn [categorizeContent topStories]. split.
  - apply take_drop.
  - apply (StronglySorted_app_between scoreGe).
    rewrite take_drop. apply sortBy_score_sorted.
Qed.

End GathererBuckets.

(** ** Content gatherer: what the feeds can contribute *)

Section GathererFeeds.
Import JS Gatherer.

Lemma parseFeed_length feedName doc : (length (parseFeed feedName doc) ≤ 5)%nat.
Proof.
  rewrite parseFeed_spec.
  pose proof (filter_map_take_length (itemArticle feedName) (items doc)) as Hrss.
  pose proof (filter_map_take_length (entryArticle feedName) (entries doc)) as Hatom.
  fold (rssArticles feedName doc) in Hrss. fold (atomArticles feedName doc) in Hatom.
  by destruct (rssArticles feedName doc).
Qed.

Lemma orElse_nonEmpty a b : b ≠ "" → orElse a b ≠ "".
Proof. unfold orElse. by destruct a. Qed.

(** What holds of every article that came out of a feed. *)
Definition fromFeed (feedName : string) (a : Article) : Prop :=
  source a = feedName ∧ category a ≠ "" ∧ cleaned (description a)
  ∧ is_Some (link a) ∧ is_Some (pubDate a) ∧ relevanceScore a = None.

Lemma fetchRSSFeed_spec feed outcome :
  (length (fetchRSSFeed feed outcome) ≤ 5)%nat
  ∧ Forall (λ a, fromFeed (name feed) a ∧ title a ≠ "") (fetchRSSFeed feed outcome).
Proof.
  assert (Hnone : (length (@nil Article) ≤ 5)%nat
                  ∧ Forall (λ a, fromFeed (name feed) a ∧ title a ≠ "") [])
    by (split; [cbn; lia|constructor]).
  destruct outcome as [msg|status|msg|doc]; [exact Hnone..|].
  cbn [fetchRSSFeed try_catch]. split; [apply parseFeed_length|].
  assert (Hfrom : Forall (fromFeed (name feed)) (parseFeed (name feed) doc)).
  { apply parseFeed_Forall; intros el; unfold fromFeed; cbn;
      (split_and!; [done| |apply cleanText_cleaned|by eexists..|done]).
    - by apply orElse_nonEmpty.
    - done. }
  assert (Htitled : Forall (λ a, titled a = true) (parseFeed (name feed) doc)).
  { rewrite parseFeed_spec. fold (rssArticles (name feed) doc).
    pose proof (Forall_List_filter titled
      (itemArticle (name feed) <$> take 5 (items doc))) as Hrss.
    fold (rssArticles (name feed) doc) in Hrss.
    destruct (rssArticles (name feed) doc); [|done].
    apply Forall_List_filter. }
  apply Forall_forall. intros a Ha. split.
  - by apply (proj1 (Forall_forall _ _) Hfrom).
  - apply (proj1 (Forall_forall _ _) Htitled) in Ha. unfold titled in Ha.
    by destruct (title a).
Qed.

Lemma mjoin_length_bound {A} (ls : list (list A)) (n : nat) :
  Forall (λ l, (length l ≤ n)%nat) ls → (length (mjoin ls) ≤ length ls * n)%nat.
Proof.
  induction 1 as [|l ls Hl Hls IH]; [done|].
  change (mjoin (l :: ls)) with (l ++ mjoin ls).
  rewrite length_app. cbn [length Nat.mul]. lia.
Qed.

(** X3.  Whatever the feeds answer, [gatherWebContent] returns at most
    25 articles (5 from each of the 5 configured feeds).  Every one of
    them has a title, a category (General when the feed gives none), the
    name of a configured feed as its source, and a description without
    markup of at most 300 code units. *)
Theorem gatherWebContent_bounded (net : FeedSource → FetchOutcome) :
  ∃ allArticles,
    gatherWebContent net = Ok allArticles
    ∧ (length allArticles ≤ 25)%nat
    ∧ Forall (λ a, title a ≠ "" ∧ category a ≠ ""
                   ∧ source a ∈ name <$> rssFeeds
                   ∧ cleaned (description a)) allArticles.
Proof.
  rewrite gatherWebContent_spec. eexists. split; [done|]. split.
  - etrans; [apply (mjoin_length_bound _ 5)|].
    + apply Forall_fmap, Forall_forall. intros feed _. apply fetchRSSFeed_spec.
    + by rewrite length_fmap.
  - apply Forall_forall. intros a Ha.
    apply list_elem_of_join in Ha as (l & Ha & Hl).
    apply list_elem_of_fmap in Hl as (feed & -> & Hfeed).
    destruct (fetchRSSFeed_spec feed (net feed)) as [_ Hall].
    apply (proj1 (Forall_forall _ _) Hall) in Ha as [(Hsrc & Hcat & Hdesc & _) Htitle].
    split_and!; try done. rewrite Hsrc. by apply list_elem_of_fmap_2.
Qed.

(** X4.  For a month outside 1..12 the fallback content carries the
    theme of January; whatever the month, the fallback content has a
    theme, is marked as fallback and its buckets hold curated stories
    only. *)
Theorem getFallbackContent_month (month : Z) :
  let c := getFallbackContent month in
  (if bool_decide (1 ≤ month ≤ 12)%Z
   then monthlyTheme c = monthlyThemes !! month
   else theme <$> monthlyTheme c = Some "New Kingdom Beginnings")
  ∧ is_Some (monthlyTheme c)
  ∧ isFallback c = Some true
  ∧ Forall (λ a, a ∈ fallbackStories)
      (topStories c ++ missionNews c ++ persecutionUpdates c
         ++ revivalReports c ++ cultureInfluence c).
Proof.
  intros c.
  assert (Hdom : is_Some (monthlyThemes !! month) ↔ (1 ≤ month ≤ 12)%Z).
  { rewrite <- elem_of_dom.
    replace (dom monthlyThemes) with (list_to_set (seqZ 1 12) : gset Z)
      by (by vm_compute).
    rewrite elem_of_list_to_set, elem_of_seqZ. lia. }
  split_and!.
  - subst c. cbn [getFallbackContent monthlyTheme]. case_bool_decide as Hm.
    + apply Hdom in Hm as [t Ht]. by rewrite Ht.
    + destruct (monthlyThemes !! month) as [t|] eqn:Ht.
      * destruct Hm. apply Hdom. by eexists.
      * by vm_compute.
  - subst c. cbn [getFallbackContent monthlyTheme].
    destruct (monthlyThemes !! month); [by eexists|]. vm_compute. by eexists.
  - done.
  - subst c. cbn [getFallbackContent topStories missionNews persecutionUpdates
      revivalReports cultureInfluence].
    apply Forall_forall. intros a Ha.
    assert (Hpick : ∀ i, a ∈ pick i → a ∈ fallbackStories).
    { intros i Hi. unfold pick in Hi.
      destruct (fallbackStories !! i) as [b|] eqn:Hb; cbn in Hi.
      - apply list_elem_of_singleton in Hi as ->. by eapply list_elem_of_lookup_2.
      - by apply elem_of_nil in Hi. }
    rewrite !elem_of_app in Ha. naive_solver.
Qed.

End GathererFeeds.

(** ** Content gatherer: tag stripping and the irrelevant-only case *)

Section GathererEdges.
Import JS Gatherer.

Lemma stripTags_fixed s : hasTag s = false → stripTags s = s.
Proof.
  induction s as [|c s IH]; [done|]. rewrite stripTags_cons. cbn [hasTag].
  intros [Hhere Hrest]%orb_false_iff. destruct (Ascii.eqb c "<").
  - cbn [andb] in Hhere. apply bool_decide_eq_false in Hhere.
    destruct (afterGt s) as [rest|]; [|done]. destruct Hhere. by eexists.
  - by rewrite IH.
Qed.

Lemma stripTagsFuel_length n s :
  (String.length (stripTagsFuel n s) ≤ String.length s)%nat.
Proof.
  revert s. induction n as [|n IH]; intros s; [done|].
  destruct s as [|c s]; [done|]. cbn [stripTagsFuel].
  destruct (Ascii.eqb c "<").
  - destruct (afterGt s) as [rest|] eqn:Hs; [|done].
    apply afterGt_length in Hs. specialize (IH rest). cbn [String.length]. lia.
  - cbn [String.length]. specialize (IH s). lia.
Qed.

Lemma substring0_short n s : (String.length s ≤ n)%nat → substring0 n s = s.
Proof.
  revert s. induction n as [|n IH]; intros [|c s] Hs; cbn in *; try done; [lia|].
  rewrite IH; [done|lia].
Qed.

(** X5.  Removing tags is idempotent and never lengthens a text: what
    [replace(/<[^>]*>/g, '')] returns holds no further match, a text
    without a match is returned as it is, and so a description that has
    been cleaned once is not changed by cleaning it again. *)
Theorem stripTags_idempotent (s : string) :
  stripTags (stripTags s) = stripTags s
  ∧ (String.length (stripTags s) ≤ String.length s)%nat
  ∧ (if hasTag s then True else stripTags s = s)
  ∧ cleanText (cleanText s) = cleanText s.
Proof.
  split_and!.
  - apply stripTags_fixed, stripTags_noTag.
  - apply stripTagsFuel_length.
  - destruct (hasTag s) eqn:Hs; [done|]. by apply stripTags_fixed.
  - unfold cleanText at 1. rewrite stripTags_fixed by apply cleanText_noTag.
    apply substring0_short, cleanText_length.
Qed.

Lemma sortBy_nil {A} (cmp : A → A → Z) : sortBy cmp [] = [].
Proof. reflexivity. Qed.

Lemma relevantOf_none articles :
  Forall (λ a, scoreOf a = 0%nat) articles → relevantOf articles = [].
Proof.
  intros Hall. unfold relevantOf.
  replace (filter (λ a, (0 < score a)%nat) (withScore <$> articles)) with (@nil Article);
    [done|].
  induction Hall as [|a articles Ha Hall IH]; [done|].
  rewrite fmap_cons, filter_cons, <- IH. rewrite decide_False; [done|].
  rewrite score_withScore, Ha. lia.
Qed.

(** X6.  When the feeds give articles but none of them matches a
    keyword, [gatherContent] does not fall back: the content is live
    ([isFallback] false), its top stories and all four buckets are
    empty, and it carries the theme of the month. *)
Theorem gatherContent_nothing_relevant
    (net : FeedSource → FetchOutcome) (now : string) (month year : Z) :
  let articles := mjoin ((λ feed, fetchRSSFeed feed (net feed)) <$> rssFeeds) in
  articles ≠ [] →
  Forall (λ a, scoreOf a = 0%nat) articles →
  ∃ c,
    gatherContent net now month year = Ok c
    ∧ isFallback c = Some false
    ∧ topStories c = [] ∧ missionNews c = [] ∧ persecutionUpdates c = []
    ∧ revivalReports c = [] ∧ cultureInfluence c = []
    ∧ monthlyTheme c = monthlyTheme (getFallbackContent month)
    ∧ (articleCount <$> metadata c) = Some (length articles).
Proof.
  intros articles Hne Hzero. unfold gatherContent.
  rewrite gatherWebContent_spec. cbn [try_catch]. fold articles.
  destruct (Nat.ltb_spec 0 (length articles)) as [_|Hlen].
  2:{ destruct articles; [done|cbn in Hlen; lia]. }
  eexists. split; [reflexivity|].
  unfold categorizeContent. rewrite (relevantOf_none _ Hzero).
  cbn [setIsFallback monthlyTheme]. rewrite bool_decide_eq_true_2 by done.
  done.
Qed.

(** The theorem at a run where one feed answers with a weather item. *)
Lemma gatherContent_nothing_relevant_witness :
  let net feed :=
    if bool_decide (name feed = "Desiring God")
    then Body {| items := [ {| i_title := "Weather report"; i_link := "l";
                               i_description := "Rain tomorrow"; i_pubDate := "p";
                               i_category := "" |} ];
                 entries := [] |}
    else NetworkError "timeout" in
  ∃ c, gatherContent net "2025-06-01T00:00:00.000Z" 6 2025 = Ok c
       ∧ isFallback c = Some false ∧ topStories c = []
       ∧ theme <$> monthlyTheme c = Some "Kingdom Fathers".
Proof.
  intros net.
  destruct (gatherContent_nothing_relevant net "2025-06-01T00:00:00.000Z" 6 2025)
    as (c & Hc & Hfb & Htop & _ & _ & _ & _ & Hth & _).
  - by vm_compute.
  - change (mjoin ((λ feed, fetchRSSFeed feed (net feed)) <$> rssFeeds))
      with [ {| title := "Weather report"; link := Some "l";
                description := "Rain tomorrow"; pubDate := Some "p";
                category := "General"; source := "Desiring God";
                relevanceScore := None |} ].
    constructor; [by vm_compute|constructor].
  - exists c. rewrite Hth. split_and!; [done..|by vm_compute].
Defined.

End GathererEdges.

(** ** Publisher: republishing, archive size, date keys *)

Section PublishMore.
Import Publish.






Lemma decimal_inj n1 n2 : JS.decimal n1 = JS.decimal n2 → n1 = n2.
Proof.
  unfold JS.decimal. intros Heq.
  assert (Hnn : ∀ n, N.to_uint n ≠ Decimal.Nil).
  { intros [|p]; [done|]. apply DecimalPos.Unsigned.to_uint_nonnil. }
  apply DecimalN.Unsigned.to_uint_inj.
  pose proof (NilZero.usu _ (Hnn n1)) as H1.
  pose proof (NilZero.usu _ (Hnn n2)) as H2.
  rewrite Heq in H1. congruence.
Qed.

Lemma append_inj_length a1 b1 a2 b2 :
  String.length a1 = String.length a2 →
  a1 +:+ b1 = a2 +:+ b2 → a1 = a2 ∧ b1 = b2.
Proof.
  revert a2. induction a1 as [|x a1 IH]; intros [|y a2] Hlen Heq;
    try discriminate; [done|].
  rewrite !append_cons in Heq. injection Heq as -> Heq.
  injection Hlen as Hlen. by destruct (IH _ Hlen Heq) as [-> ->].
Qed.

Lemma formatDateKey_inj (y1 m1 y2 m2 : Z) :
  (1000 ≤ y1 ≤ 9999)%Z → (1 ≤ m1 ≤ 12)%Z →
  (1000 ≤ y2 ≤ 9999)%Z → (1 ≤ m2 ≤ 12)%Z →
  formatDateKey y1 m1 = formatDateKey y2 m2 → y1 = y2 ∧ m1 = m2.
Proof.
  intros Hy1 Hm1 Hy2 Hm2 Heq.
  destruct (formatDateKey_zero_padded y1 m1 Hm1 Hy1) as [E1 _].
  destruct (formatDateKey_zero_padded y2 m2 Hm2 Hy2) as [E2 _].
  rewrite E1, E2 in Heq.
  apply append_inj_length in Heq as [Hy Hrest];
    [|by rewrite !decimal_4_digits by lia].
  apply decimal_inj in Hy. split; [lia|].
  rewrite !append_cons, !append_nil_l in Hrest. injection Hrest as Hmm.
  assert (Hall : forallb (λ a, forallb (λ b,
             implb (String.eqb (JS.addLeadingZeros (Z.to_N a) 2)
                              (JS.addLeadingZeros (Z.to_N b) 2))
                   (a =? b)%Z) (seqZ 1 12)) (seqZ 1 12) = true)
    by (vm_compute; reflexivity).
  rewrite forallb_forall in Hall.
  assert (Hin1 : In m1 (seqZ 1 12)) by (apply list_elem_of_In, elem_of_seqZ; lia).
  assert (Hin2 : In m2 (seqZ 1 12)) by (apply list_elem_of_In, elem_of_seqZ; lia).
  specialize (Hall m1 Hin1). rewrite forallb_forall in Hall.
  specialize (Hall m2 Hin2). rewrite Hmm, String.eqb_refl in Hall.
  by apply Z.eqb_eq.
Qed.

(** X9.  Within the years 1000..9999 the date key identifies the month:
    newsletters of different years or of different months (1..12) get
    different date keys, so they never replace one another in the
    archive. *)
Theorem formatDateKey_distinct (y1 m1 y2 m2 : Z) :
  (1000 ≤ y1 ≤ 9999)%Z → (1 ≤ m1 ≤ 12)%Z →
  (1000 ≤ y2 ≤ 9999)%Z → (1 ≤ m2 ≤ 12)%Z →
  y1 ≠ y2 ∨ m1 ≠ m2 →
  formatDateKey y1 m1 ≠ formatDateKey y2 m2.
Proof.
  intros Hy1 Hm1 Hy2 Hm2 Hne Heq.
  destruct (formatDateKey_inj y1 m1 y2 m2) as [? ?]; try done.
  by destruct Hne.
Qed.

Lemma formatDateKey_distinct_witness :
  formatDateKey 2025 12 ≠ formatDateKey 2026 1
  ∧ formatDateKey 2025 1 ≠ formatDateKey 2025 11.
Proof.
  split; apply formatDateKey_distinct; try lia.
Defined.

End PublishMore.

(** ** Subscribers: the order of the deduplicated list *)

Section DedupSublist.
Import JS Subscribers.

Lemma firstSeen_sublist seen subs :
  firstSeen seen subs `sublist_of` (λ sub, withEmail sub (key sub)) <$> subs.
Proof.
  revert seen. induction subs as [|sub subs IH]; intros seen; cbn [firstSeen].
  - constructor.
  - rewrite fmap_cons. destruct (decide (key sub ∈ seen)).
    + apply sublist_cons, IH.
    + apply sublist_skip, IH.
Qed.

Lemma firstSeen_app seen xs ys :
  ∃ rest, firstSeen seen (xs ++ ys) = firstSeen seen xs ++ rest.
Proof.
  revert seen. induction xs as [|x xs IH]; intros seen.
  - by exists (firstSeen seen ys).
  - cbn [app firstSeen]. destruct (decide (key x ∈ seen)); [apply IH|].
    destruct (IH ({[key x]} ∪ seen)) as [rest ->]. by exists rest.
Qed.

(** X10.  [deduplicateSubscribers] only drops entries and rewrites the
    email: its output is, in the order of the input, a subsequence of the
    input with each email lower-cased and trimmed, never longer than the
    input, with names and subscription times untouched.  Entries added at
    the end of the input never change what is kept of the entries before
    them: the result for the shorter list is a prefix of the result for
    the longer one. *)
Theorem deduplicateSubscribers_subsequence (subs more : list Subscriber) :
  deduplicateSubscribers subs
    `sublist_of` (λ sub, withEmail sub (normalizeEmail (email sub))) <$> subs
  ∧ (length (deduplicateSubscribers subs) ≤ length subs)%nat
  ∧ (name <$> deduplicateSubscribers subs) `sublist_of` (name <$> subs)
  ∧ (subscribedAt <$> deduplicateSubscribers subs) `sublist_of` (subscribedAt <$> subs)
  ∧ deduplicateSubscribers subs `prefix_of` deduplicateSubscribers (subs ++ more).
Proof.
  rewrite !deduplicateSubscribers_firstSeen.
  pose proof (firstSeen_sublist ∅ subs) as Hsub.
  split_and!.
  - exact Hsub.
  - apply sublist_length in Hsub. by rewrite length_fmap in Hsub.
  - apply (fmap_sublist name) in Hsub. by rewrite <- list_fmap_compose in Hsub.
  - apply (fmap_sublist subscribedAt) in Hsub. by rewrite <- list_fmap_compose in Hsub.
  - destruct (firstSeen_app ∅ subs more) as [rest ->]. by exists rest.
Qed.

End DedupSublist.

(** ** Signup: what the email pattern accepts, what the handler sends *)

Section SignupPattern.
Import JS Signup.

Lemma allPlain_append a b : allPlain (a +:+ b) = allPlain a && allPlain b.
Proof.
  induction a as [|x a IH]; [done|].
  rewrite append_cons. cbn [allPlain]. by rewrite IH, andb_assoc.
Qed.

Lemma splitAt_Some s l r : splitAt s = Some (l, r) → s = l +:+ String "@" r.
Proof.
  revert l. induction s as [|c s IH]; intros l; cbn [splitAt]; [done|].
  destruct (Ascii.eqb_spec c "@") as [->|_].
  - by intros [= <- <-].
  - destruct (splitAt s) as [[l' r']|]; [|done].
    intros [= <- <-]. rewrite append_cons. f_equal. by apply IH.
Qed.

Lemma splitAt_plain a r : allPlain a = true → splitAt (a +:+ String "@" r) = Some (a, r).
Proof.
  induction a as [|x a IH]; [done|].
  rewrite append_cons. cbn [allPlain splitAt].
  intros [Hx Ha]%andb_true_iff. unfold plainChar in Hx.
  apply andb_true_iff in Hx as [_ Hx]. apply negb_true_iff in Hx.
  by rewrite Hx, (IH Ha).
Qed.

Lemma dotBeforeEnd_spec s :
  dotBeforeEnd s = true ↔ ∃ p q, s = p +:+ String "." q ∧ q ≠ "".
Proof.
  induction s as [|c s IH]; cbn [dotBeforeEnd].
  - split; [done|]. intros ([|??] & q & Hs & _); discriminate.
  - rewrite orb_true_iff, andb_true_iff, negb_true_iff, IH. split.
    + intros [[Hc Hs]|(p & q & -> & Hq)].
      * apply Ascii.eqb_eq in Hc as ->. exists "", s. split; [done|].
        intros ->. by rewrite String.eqb_refl in Hs.
      * exists (String c p), q. by rewrite append_cons.
    + intros ([|x p] & q & Hs & Hq).
      * rewrite append_nil_l in Hs. injection Hs as -> ->. left.
        split; [done|]. by apply String.eqb_neq.
      * rewrite append_cons in Hs. injection Hs as -> ->. right. by exists p, q.
Qed.

(** A run of one or more characters that are neither white space nor
    [@]: what [[^\s@]+] matches as a whole. *)
Definition plainRun (s : string) : Prop := s ≠ "" ∧ allPlain s = true.

(** X11.  The email pattern accepts exactly the strings that read
    [a@b.c] with [a], [b] and [c] non-empty and free of white space and
    of [@]: one [@], a dot after it with something on both sides, nothing
    else asked. *)
Theorem emailRegex_accepts (s : string) :
  emailRegex s = true ↔
  ∃ a b c, s = a +:+ "@" +:+ b +:+ "." +:+ c
           ∧ plainRun a ∧ plainRun b ∧ plainRun c.
Proof.
  unfold emailRegex, plainRun. split.
  - destruct (splitAt s) as [[l r]|] eqn:Hsplit; [|done].
    apply splitAt_Some in Hsplit as ->.
    rewrite !andb_true_iff, negb_true_iff.
    intros [[[Hl Hpl] Hpr] Hdot]. apply String.eqb_neq in Hl.
    destruct r as [|x r]; [done|]. cbn [innerDot] in Hdot.
    apply dotBeforeEnd_spec in Hdot as (p & q & -> & Hq).
    exists l, (String x p), q.
    rewrite <- append_cons, allPlain_append in Hpr.
    apply andb_true_iff in Hpr as [Hb Hc]. cbn [allPlain] in Hc.
    apply andb_true_iff in Hc as [_ Hc].
    split_and!; try done.
  - intros (a & b & c & -> & [Ha Hpa] & [Hb Hpb] & [Hc Hpc]).
    change ("@" +:+ b +:+ "." +:+ c) with (String "@" (b +:+ String "." c)).
    rewrite (splitAt_plain _ _ Hpa).
    rewrite !andb_true_iff, negb_true_iff. split_and!.
    + by apply String.eqb_neq.
    + done.
    + rewrite allPlain_append, Hpb. cbn [allPlain]. by rewrite Hpc.
    + destruct b as [|x b]; [done|]. rewrite append_cons. cbn [innerDot].
      apply dotBeforeEnd_spec. by exists b, c.
Qed.

End SignupPattern.

Section SignupRequests.
Import JS Signup.

Variable RESEND_API_KEY : option string.
Variable mail : MailResponse.

(** The answers of the mail API on which [sendWelcomeEmail] or the
    handler after it throws: a fetch that rejects, a body that cannot be
    read, a 2xx body that parses to [null]. *)
Definition mailThrows : Prop :=
  (∃ msg, mail = FetchRejected msg)
  ∨ (∃ ok status, mail = Status ok status false)
  ∨ (∃ status, mail = Json2xx status JsonNull).

(** The answers that the handler reports as an email sent: status 2xx
    and a body that parses to the mail API's object, or to another value
    other than [null] whose [skipped] and [error] are both falsy. *)
Definition mailSent : Prop :=
  (∃ status, mail = Status true status true)
  ∨ (∃ status, mail = Json2xx status (JsonValue false false)).

Lemma sendWelcomeEmail_effects address name :
  (sendWelcomeEmail RESEND_API_KEY mail address name).2 =
  match RESEND_API_KEY with
  | None | Some EmptyString => []
  | Some _ => [WelcomePost address]
  end.
Proof.
  unfold sendWelcomeEmail.
  destruct RESEND_API_KEY as [[|k0 k]|]; [done| |done].
  by destruct mail as [?|[] ? []|? ?].
Qed.

(** The answer to a signup whose email is valid, with the key set. *)
Lemma sendWelcomeEmail_flags k0 k address name :
  let sent := sendWelcomeEmail (Some (String k0 k)) mail address name in
  match sent.1 with
  | Throw _ => mailThrows ∧ ¬ mailSent
  | Ok emailResult =>
      match flags emailResult with
      | Throw _ => mailThrows ∧ ¬ mailSent
      | Ok (skipped, error) =>
          ¬ mailThrows ∧ (negb skipped && negb error = true ↔ mailSent)
      end
  end.
Proof.
  unfold mailThrows, mailSent.
  destruct mail as [msg|[] status []|status [|[] []]]; cbn;
    repeat split;
    try (intros H; decompose [ex or] H; discriminate);
    try discriminate; eauto 6.
Qed.

(** X12.  Whatever the request, the handler posts to the mail API at
    most once, and only for a POST, with the key set, to a recipient that
    matches the email pattern and has no white space around it.  The
    answer is one of 204, 405, 400, 500 and 200, and it reports success
    exactly with status 200.  When a request was made, the answer is 500
    exactly when the fetch was rejected, the body of the answer could not
    be read, or a 2xx body parsed to [null], and it is 200 otherwise.
    [emailSent] is true exactly when a request was made and the mail API
    answered 2xx with a body that parsed to a value other than [null]
    whose [skipped] and [error] fields are both falsy, as they are in
    the object that the mail API sends. *)
Theorem handler_posts_at_most_once (event : Event) :
  let result := handler RESEND_API_KEY mail event in
  (result.2 = []
   ∨ ∃ address,
       result.2 = [WelcomePost address]
       ∧ emailRegex address = true ∧ trim address = address
       ∧ httpMethod event = "POST"
       ∧ ∃ k0 k, RESEND_API_KEY = Some (String k0 k))
  ∧ statusCode result.1 ∈ [204; 405; 400; 500; 200]%nat
  ∧ (statusCode result.1 = 200%nat ↔ success <$> payload result.1 = Some true)
  ∧ (result.2 ≠ [] →
     (statusCode result.1 = 500%nat ↔ mailThrows)
     ∧ (statusCode result.1 = 200%nat ↔ ¬ mailThrows))
  ∧ ((payload result.1 ≫= emailSent) = Some true ↔ result.2 ≠ [] ∧ mailSent).
Proof.
  cbv zeta. unfold handler.
  destruct (String.eqb_spec (httpMethod event) "OPTIONS") as [|_].
  { cbn. split_and!; [by left|set_solver|done|done|]. split; [done|by intros [? _]]. }
  destruct (String.eqb_spec (httpMethod event) "POST") as [Hpost|_]; cbn [negb]; last first.
  { cbn. split_and!; [by left|set_solver|done|done|]. split; [done|by intros [? _]]. }
  destruct (if includes _ _ then asJson (body event) else Ok (asForm (body event)))
    as [data|msg]; last first.
  { cbn. split_and!; [by left|set_solver|done|done|]. split; [done|by intros [? _]]. }
  destruct (isValidEmail (email data)) eqn:Hvalid; cbn [negb]; last first.
  { cbn. split_and!; [by left|set_solver|done|done|]. split; [done|by intros [? _]]. }
  set (address := trim (default "" (email data))).
  assert (Hre : emailRegex address = true ∧ trim address = address).
  { unfold address. destruct (email data) as [[|c e]|]; try done.
    split; [exact Hvalid|apply trim_idemp]. }
  destruct RESEND_API_KEY as [[|k0 k]|] eqn:Hkey.
  1,3: cbn; split_and!; [by left|set_solver|done|done|];
       (split; [done|by intros [? _]]).
  pose proof (sendWelcomeEmail_effects address (default "" (name data))) as Heff.
  pose proof (sendWelcomeEmail_flags k0 k address (default "" (name data))) as Hflags.
  rewrite Hkey in Heff. cbv zeta in Hflags.
  destruct (sendWelcomeEmail (Some (String k0 k)) mail address (default "" (name data)))
    as [[emailResult|msg] effects]; cbn [fst snd] in *; subst effects.
  2:{ cbn. destruct Hflags as [Hthrows Hnot]. split_and!.
      - right. exists address. destruct Hre. split_and!; by eauto.
      - set_solver.
      - done.
      - intros _. split; split; [done|done|done|by intros []].
      - split; [done|]. by intros [_ Hsent]. }
  destruct (flags emailResult) as [[skipped error]|msg].
  - cbn. destruct Hflags as [Hnot Hsent]. split_and!.
    + right. exists address. destruct Hre. split_and!; by eauto.
    + set_solver.
    + done.
    + intros _. split; split; [done|by intros ?%Hnot|done|done].
    + split.
      * intros [= Hs]. split; [done|]. by apply Hsent.
      * intros [_ Hs]. f_equal. by apply Hsent.
  - cbn. destruct Hflags as [Hthrows Hnot]. split_and!.
    + right. exists address. destruct Hre. split_and!; by eauto.
    + set_solver.
    + done.
    + intros _. split; split; [done|done|done|by intros []].
    + split; [done|]. by intros [_ Hsent].
Qed.

End SignupRequests.

Section SignupRequestsRun.
Import JS Signup.

(** Four answers of the mail API to the same signup: the API's object,
    a body [null], a body with a truthy [error], a body with neither
    field. *)
Example handler_reads_the_parsed_body :
  let event := post {| email := Some " ann@example.org "; name := None |} in
  let answer mail := (handler (Some "re_key") mail event).1 in
  (λ mail, (statusCode (answer mail), payload (answer mail) ≫= emailSent))
  <$> [ Status true 200 true; Json2xx 200 JsonNull;
        Json2xx 200 (JsonValue false true); Json2xx 202 (JsonValue false false) ]
  = [ (200%nat, Some true); (500%nat, None); (200%nat, Some false);
      (200%nat, Some true) ].
Proof. by vm_compute. Qed.

End SignupRequestsRun.

(** ** Live alerts: the email blast *)

Section LiveAlertEmail.
Import LiveAlert.

Variable env : Env.
Variable net : nat → Response.

(** The mail API took the message: a 2xx answer. *)
Definition accepted (r : Response) : bool :=
  match r with
  | Answer true _ => true
  | _ => false
  end.

(** The recipients of the requests of a trace on one channel, and its
    timer waits, in order. *)
Definition postsOn (channel : Channel) (t : list Event) : list string :=
  omap (λ ev, match ev with
              | Post c target => if decide (c = channel) then Some target else None
              | Sleep _ => None
              end) t.

Definition waitsOf (t : list Event) : list nat :=
  omap (λ ev, match ev with Sleep ms => Some ms | Post _ _ => None end) t.

(** The events of the loop over [emails] when its first request is
    number [from]: each request, followed by the wait if it is accepted. *)
Fixpoint blast (from : nat) (emails : list string) : list Event :=
  match emails with
  | [] => []
  | email :: rest =>
      Post Email email
        :: (if accepted (net from) then [Sleep 600] else [])
        ++ blast (S from) rest
  end.

(** How many of the requests number [from], ..., [from + n - 1] are
    accepted. *)
Definition acceptedIn (from n : nat) : nat :=
  length (List.filter (λ j, accepted (net j)) (seq from n)).

Lemma acceptedIn_S from n :
  acceptedIn from (S n)
  = ((if accepted (net from) then 1 else 0) + acceptedIn (S from) n)%nat.
Proof. unfold acceptedIn. cbn [seq List.filter]. by destruct (accepted (net from)). Qed.

Lemma postsOn_app c t1 t2 : postsOn c (t1 ++ t2) = postsOn c t1 ++ postsOn c t2.
Proof. apply omap_app. Qed.

Lemma waitsOf_app t1 t2 : waitsOf (t1 ++ t2) = waitsOf t1 ++ waitsOf t2.
Proof. apply omap_app. Qed.

Lemma emailOne_spec sent failed st email :
  emailOne net (sent, failed, st) email =
  if accepted (net (calls st))
  then (S sent, failed,
        {| calls := S (calls st);
           trace := trace st ++ [Post Email email; Sleep 600] |})
  else (sent, S failed,
        {| calls := S (calls st); trace := trace st ++ [Post Email email] |}).
Proof.
  unfold emailOne, request, wait. cbn [calls trace].
  destruct (net (calls st)) as [msg|[] readable]; cbn [accepted]; try done.
  by rewrite <- app_assoc.
Qed.

Lemma emailAll_spec emails sent failed st :
  let t := blast (calls st) emails in
  foldl (emailOne net) (sent, failed, st) emails =
  ((sent + acceptedIn (calls st) (length emails))%nat,
   (failed + (length emails - acceptedIn (calls st) (length emails)))%nat,
   {| calls := calls st + length emails; trace := trace st ++ t |})
  ∧ postsOn Email t = emails
  ∧ postsOn Ntfy t = [] ∧ postsOn Telegram t = []
  ∧ waitsOf t = replicate (acceptedIn (calls st) (length emails)) 600%nat
  ∧ (acceptedIn (calls st) (length emails) ≤ length emails)%nat.
Proof.
  revert sent failed st. induction emails as [|e emails IH]; intros sent failed st.
  - cbn [foldl length blast]. unfold acceptedIn. cbn.
    rewrite !Nat.add_0_r, app_nil_r. by destruct st.
  - cbn [foldl length blast]. rewrite emailOne_spec, acceptedIn_S.
    destruct (accepted (net (calls st))).
    + destruct (IH (S sent) failed
                  {| calls := S (calls st);
                     trace := trace st ++ [Post Email e; Sleep 600] |})
        as (-> & Hposts & Hn & Ht & Hwaits & Hle).
      cbn [calls trace] in *.
      change (Post Email e :: [Sleep 600] ++ ?t) with ([Post Email e; Sleep 600] ++ t).
      rewrite !postsOn_app, waitsOf_app, Hposts, Hn, Ht, Hwaits.
      split_and!; [|done..|lia].
      rewrite <- app_assoc. f_equal; [f_equal; lia|]. f_equal; lia.
    + destruct (IH sent (S failed)
                  {| calls := S (calls st); trace := trace st ++ [Post Email e] |})
        as (-> & Hposts & Hn & Ht & Hwaits & Hle).
      cbn [calls trace] in *.
      change (Post Email e :: [] ++ ?t) with ([Post Email e] ++ t).
      rewrite !postsOn_app, waitsOf_app, Hposts, Hn, Ht, Hwaits.
      split_and!; [|done..|lia].
      rewrite <- app_assoc. f_equal; [f_equal; lia|]. f_equal; lia.
Qed.

(** X13.  With the mail key set, [sendEmail] sends exactly one request
    per subscriber of the list, in the order of the list, whatever the
    answers are: a failed send is not tried again and keeps no later
    subscriber from being tried.  Each accepted send, and no other, is
    followed at once by a wait of 600 ms.  The result is [true] exactly
    when at least one of the six sends was accepted. *)
Theorem sendEmail_one_request_each (message : option string) (st : State) :
  emailConfigured env = true →
  let t := blast (calls st) subscribers in
  trace (sendEmail env net message st).2 = trace st ++ t
  ∧ calls (sendEmail env net message st).2 = (calls st + 6)%nat
  ∧ postsOn Email t = subscribers
  ∧ postsOn Ntfy t = [] ∧ postsOn Telegram t = []
  ∧ waitsOf t = replicate (acceptedIn (calls st) 6) 600%nat
  ∧ (sendEmail env net message st).1 = (0 <? acceptedIn (calls st) 6)%nat.
Proof.
  unfold emailConfigured, sendEmail. intros ->. cbn [negb].
  change (length subscribers =? 0)%nat with false. cbv iota.
  destruct (emailAll_spec subscribers 0 0 st)
    as (-> & Hposts & Hn & Ht & Hwaits & _).
  cbn [fst snd calls trace]. by split_and!.
Qed.

End LiveAlertEmail.

Section LiveAlertEmailRun.
Import LiveAlert.

Lemma sendEmail_one_request_each_witness :
  let env := {| TELEGRAM_BOT_TOKEN := None; TELEGRAM_CHANNEL_ID := None;
                RESEND_API_KEY := Some "re_key" |} in
  let net := λ j, if Nat.even j then Answer false true else Answer true true in
  emailConfigured env = true
  ∧ trace (LiveAlert.sendEmail env net None initial).2
    = [ Post Email "curtisstephensjr@gmail.com";
        Post Email "deborahliadi@gmail.com"; Sleep 600;
        Post Email "andrewstaneatia@gmail.com";
        Post Email "hawkins.lynette@yahoo.com"; Sleep 600;
        Post Email "tammystephens66@yahoo.com";
        Post Email "cdubdub23@gmail.com"; Sleep 600 ]
  ∧ (LiveAlert.sendEmail env net None initial).1 = true.
Proof.
  intros env net. split; [reflexivity|].
  destruct (sendEmail_one_request_each env net None initial eq_refl)
    as (Htrace & _ & _ & _ & _ & _ & Hres).
  split; [exact Htrace|exact Hres].
Defined.

End LiveAlertEmailRun.

(** ** Sender: the guards of [main], the preview and the test mode *)

Section SenderGuards.
Import Sender.

Variable resend : nat → SendOutcome.

(** The one send of the test mode. *)
Lemma sendAll_single (subscriber : Subscribers.Subscriber) :
  let st := sendAll resend [subscriber] in
  trace st = [BatchStart 1 1; Send (Subscribers.email subscriber)]
  ∧ calls st = 1%nat
  ∧ (sent st, failed st)
    = match resend 0 with
      | Delivered => (1, 0)
      | SendError _ => (0, 1)
      end%nat.
Proof.
  cbv zeta. unfold sendAll. cbn [length batchLoop Nat.ltb Nat.leb].
  unfold slice, batchSize. cbn [drop take Nat.sub Nat.add foldl length].
  unfold sendOne, logEvent, initial. cbn [calls trace sent failed app].
  by destruct (resend 0).
Qed.

(** X14.  [main] of the sender, from its first line.  When the content
    or the template is missing, or the email cannot be built, the run
    exits with code 1.  Otherwise, with [--preview] among the arguments
    the run writes the preview and returns, or exits with code 1 when
    the file cannot be written; the mail key plays no part and nothing
    is sent.  Otherwise, without the mail key the run exits with code 1
    before anything is sent.  Otherwise, with a test address (the
    argument after the first [--test], when it is not empty) exactly one
    email is sent, to that address, as a single batch with no wait, and
    what the forms API would have answered plays no part, even an error;
    without a test address an error of the forms API ends the run with
    code 1, an empty list ends it with nothing sent, and any other list
    is sent in batches. *)
Theorem main_guards_and_test_mode
    (args : list string) (files : Files) (RESEND_API_KEY : option string)
    (netlify : Res (list Subscribers.Subscriber)) :
  let run := main resend args files RESEND_API_KEY netlify in
  let loaded :=
    content files = true ∧ template files = true ∧ ∃ html, emailHtml files = Ok html in
  let keySet := ∃ k0 k, RESEND_API_KEY = Some (String k0 k) in
  (∀ before addr rest,
     args = before ++ "--test" :: addr :: rest → "--test" ∉ before →
     testEmailOf args = Some addr)
  ∧ ("--test" ∉ args → testEmailOf args = None)
  ∧ (¬ loaded → run = Exited 1)
  ∧ (loaded → "--preview" ∈ args →
     run = match previewWrite files with
           | Ok _ => PreviewSaved
           | Throw _ => Exited 1
           end)
  ∧ (loaded → "--preview" ∉ args → ¬ keySet → run = Exited 1)
  ∧ (loaded → "--preview" ∉ args → keySet →
     match testEmailOf args with
     | Some (String c e) =>
         ∃ st, run = Returned st
               ∧ trace st = [BatchStart 1 1; Send (String c e)]
               ∧ calls st = 1%nat
               ∧ (sent st, failed st)
                 = match resend 0 with
                   | Delivered => (1, 0)
                   | SendError _ => (0, 1)
                   end%nat
     | _ =>
         match netlify with
         | Throw _ => run = Exited 1
         | Ok [] => run = Returned initial
         | Ok subscribers => run = Returned (sendAll resend subscribers)
         end
     end).
Proof.
  cbv zeta. unfold main. split_and!.
  - intros before addr rest -> Hnot. by apply testEmailOf_after_flag.
  - apply testEmailOf_no_flag.
  - intros Hnot. destruct (content files); [|done].
    destruct (template files); [|done].
    destruct (emailHtml files) as [html|msg]; [|done].
    exfalso. apply Hnot. by eauto.
  - intros (-> & -> & html & ->) Hin. cbn [negb].
    rewrite bool_decide_true by done. by destruct (previewWrite files).
  - intros (-> & -> & html & ->) Hnot Hkey. cbn [negb].
    rewrite bool_decide_false by done.
    destruct RESEND_API_KEY as [[|k0 k]|]; [done| |done].
    exfalso. apply Hkey. by eauto.
  - intros (-> & -> & html & ->) Hnot (k0 & k & ->). cbn [negb].
    rewrite bool_decide_false by done.
    destruct (testEmailOf args) as [[|c e]|]; cbn [mainFromKeyCheck].
    + by destruct netlify as [[|? ?]|].
    + eexists. split; [reflexivity|]. apply sendAll_single.
    + by destruct netlify as [[|? ?]|].
Qed.

(** A preview without the mail key; the same run without [--preview];
    a preview with [--test], which sends nothing; the test address as
    read from the arguments. *)
Example main_preview_needs_no_key :
  let files := {| content := true; template := true; emailHtml := Ok "<html>";
                  previewWrite := Ok tt |} in
  main resend ["--preview"] files None (Throw "no token") = PreviewSaved
  ∧ main resend [] files None (Throw "no token") = Exited 1
  ∧ main resend ["--preview"; "--test"; "ann@example.org"] files
      (Some "re_key") (Ok []) = PreviewSaved
  ∧ testEmailOf ["--test"; "ann@example.org"] = Some "ann@example.org"
  ∧ testEmailOf ["--test"] = None.
Proof. by vm_compute. Qed.

End SenderGuards.

(** ** Generator: the requests of a run, section by section *)

Section GeneratorTrace.
Import Generator.

Variable api : nat → ApiResponse.
Variables (k0 : ascii) (krest : string).
Variable buildSystemPrompt : string.
Variable buildPrompt : SectionKey → Gatherer.Content → string → Z → string.
Variable host : JSDate.Host.


(** X16.  On a host whose local time is within a day of UTC and which
    reads a month from the date string of [generateUpcoming], for a month
    from 1 to 12 and a year from -269000 to 269000: when each of the
    first six requests of a run is answered with a completion,
    [generateNewsletter] returns after exactly six requests, one per
    section in the fixed order, with no wait at all; the six sections
    hold the six completions, trimmed, in that order, and the metadata
    carry the month, the year, the month name followed by the four-digit
    year, the theme of the content, and the source [fallback] or [web]
    after the content's fallback flag. *)
Theorem generateNewsletter_first_try
    (now : string) (content : Gatherer.Content) (month year monthIndex : Z)
    (w : World) (completions : nat → string) :
  zoneWithinDay host →
  (1 ≤ month ≤ 12)%Z →
  (- 269000 ≤ year ≤ 269000)%Z →
  JSDate.monthOf host (DateFns.format_MMMM month) year = Some monthIndex →
  (0 ≤ monthIndex ≤ 11)%Z →
  (∀ j, (j < 6)%nat → api (calls w + j) = Completion (completions j)) →
  ∃ nl w',
    generateNewsletter api (Some (String k0 krest)) buildSystemPrompt
      buildPrompt host now content month year w = (Some (Ok nl), w')
    ∧ sectionContents nl = (λ j, JS.trim (completions j)) <$> seq 0 6
    ∧ trace w'
      = trace w
        ++ ((λ key, Request buildSystemPrompt
                      (buildPrompt key content (DateFns.format_MMMM month) year))
              <$> sectionKeys)
    ∧ calls w' = (calls w + 6)%nat
    ∧ Publish.month (Publish.metadata nl) = month
    ∧ Publish.year (Publish.metadata nl) = year
    ∧ Publish.dateString (Publish.metadata nl)
      = DateFns.format_MMMM month +:+ " " +:+ DateFns.format_yyyy year month
    ∧ Publish.meta_theme (Publish.metadata nl) = Gatherer.monthlyTheme content
    ∧ Publish.contentSource (Publish.metadata nl)
      = (if bool_decide (Gatherer.isFallback content = Some true)
         then "fallback" else "web").
Proof.
  intros Hzone Hmonth Hyear Hreads Hindex H.
  destruct (dates_in_order host month year monthIndex Hzone Hyear Hmonth Hreads Hindex)
    as [[day Hdate] [saturday Hsat]].
  assert (H0 : api (calls w) = Completion (completions 0%nat))
    by (rewrite <- (Nat.add_0_r (calls w)); apply H; lia).
  pose proof (H 1%nat ltac:(lia)) as H1. pose proof (H 2%nat ltac:(lia)) as H2.
  pose proof (H 3%nat ltac:(lia)) as H3. pose proof (H 4%nat ltac:(lia)) as H4.
  pose proof (H 5%nat ltac:(lia)) as H5.
  unfold generateNewsletter. rewrite Hdate, Hsat.
  unfold firstFive, generateSection.
  rewrite bind_call, (callGroqAI_first_try _ _ _ _ _ _ _ H0).
  rewrite bind_call, (callGroqAI_first_try _ _ _ _ _ _ (completions 1%nat)) by done.
  rewrite after_after.
  rewrite bind_call, (callGroqAI_first_try _ _ _ _ _ _ (completions 2%nat)) by done.
  rewrite after_after.
  rewrite bind_call, (callGroqAI_first_try _ _ _ _ _ _ (completions 3%nat)) by done.
  rewrite after_after.
  rewrite bind_call, (callGroqAI_first_try _ _ _ _ _ _ (completions 4%nat)) by done.
  rewrite after_after. cbn [mret M_ret].
  rewrite (callGroqAI_first_try _ _ _ _ _ _ (completions 5%nat)) by done.
  rewrite after_after.
  eexists _, _. split; [reflexivity|].
  split_and!; try reflexivity.
  cbn [Publish.contentSource Publish.metadata].
  by destruct (Gatherer.isFallback content) as [[]|].
Qed.

End GeneratorTrace.

Section GeneratorFirstTry.
Import Generator.

Lemma generateNewsletter_first_try_witness :
  let api := λ j : nat, Completion (" text " +:+ JS.decimal (N.of_nat j) +:+ " ") in
  zoneWithinDay utcHost
  ∧ JSDate.monthOf utcHost (DateFns.format_MMMM 6) 2025 = Some 5%Z
  ∧ (∀ j, (j < 6)%nat →
          api (calls start + j)%nat
          = Completion (" text " +:+ JS.decimal (N.of_nat j) +:+ " "))
  ∧ ∃ nl w',
      generateNewsletter api (Some "gsk_key") "system" prompts utcHost
        "2025-06-01T12:00:00.000Z" (Gatherer.getFallbackContent 6) 6 2025 start
      = (Some (Ok nl), w')
      ∧ sectionContents nl
        = ["text 0"; "text 1"; "text 2"; "text 3"; "text 4"; "text 5"]
      ∧ calls w' = 6%nat
      ∧ Publish.dateString (Publish.metadata nl) = "June 2025".
Proof.
  intros api.
  assert (Hzone : zoneWithinDay utcHost) by (intros t; cbn; unfold JSDate.msPerDay; lia).
  assert (Hreads : JSDate.monthOf utcHost (DateFns.format_MMMM 6) 2025 = Some 5%Z)
    by reflexivity.
  assert (Hall : ∀ j, (j < 6)%nat →
            api (calls start + j)%nat
            = Completion (" text " +:+ JS.decimal (N.of_nat j) +:+ " ")) by done.
  split; [exact Hzone|]. split; [exact Hreads|]. split; [exact Hall|].
  destruct (generateNewsletter_first_try api "g" "sk_key" "system" prompts utcHost
              "2025-06-01T12:00:00.000Z" (Gatherer.getFallbackContent 6) 6 2025 5
              start _ Hzone ltac:(lia) ltac:(lia) Hreads ltac:(lia) Hall)
    as (nl & w' & Hrun & Hsections & _ & Hcalls & _ & _ & Hdate & _).
  exists nl, w'. split_and!; [exact Hrun|exact Hsections|exact Hcalls|exact Hdate].
Defined.

End GeneratorFirstTry.

(** ** Forms API: pagination and guards of [getSubscribers] *)

Section FormsPages.
Import Forms.

Variable env : Env.
Variable forms : Answer (list Form).
Variable pages : nat → Answer (list Submission).

Lemma pageLoop_requests fuel formId page allSubmissions reqs :
  ∃ k, (k ≤ fuel)%nat
       ∧ (pageLoop env pages fuel formId page allSubmissions reqs).2
         = reqs ++ (SubmissionsPage (siteId env) formId <$> seq page k).
Proof.
  revert page allSubmissions reqs.
  induction fuel as [|fuel IH]; intros page allSubmissions reqs.
  - exists 0%nat. cbn. by rewrite app_nil_r.
  - cbn [pageLoop].
    destruct (netlifyGet (pages page)) as [submissions|e];
      [|exists 1%nat; split; [lia|done]].
    destruct (length submissions =? 0)%nat; [exists 1%nat; split; [lia|done]|].
    destruct (length submissions <? perPage)%nat; [exists 1%nat; split; [lia|done]|].
    destruct (IH (S page) (allSubmissions ++ submissions)
                (reqs ++ [SubmissionsPage (siteId env) formId page]))
      as (k & Hk & ->).
    exists (S k). split; [lia|]. by rewrite <- app_assoc.
Qed.

(** The loop over full pages [page], ..., [page + n - 1] and a last page
    that is not full. *)
Lemma pageLoop_all_pages (contents : nat → list Submission) n :
  ∀ fuel formId page allSubmissions reqs,
    (∀ j, (j ≤ n)%nat → pages (page + j) = Json (contents (page + j)%nat)) →
    (∀ j, (j < n)%nat → (perPage ≤ length (contents (page + j)%nat))%nat) →
    (length (contents (page + n)%nat) < perPage)%nat →
    (n < fuel)%nat →
    pageLoop env pages fuel formId page allSubmissions reqs
    = (Some (Ok (allSubmissions ++ mjoin (contents <$> seq page (S n)))),
       reqs ++ (SubmissionsPage (siteId env) formId <$> seq page (S n))).
Proof.
  induction n as [|n IH]; intros fuel formId page allSubmissions reqs Hjson Hfull Hlast Hfuel.
  - destruct fuel as [|fuel]; [lia|]. cbn [pageLoop].
    rewrite <- (Nat.add_0_r page) at 1. rewrite Hjson by lia.
    rewrite Nat.add_0_r in *. cbn [netlifyGet seq fmap list_fmap mjoin list_join].
    rewrite app_nil_r.
    destruct (length (contents page) =? 0)%nat eqn:Hzero.
    + apply Nat.eqb_eq in Hzero. apply length_zero_iff_nil in Hzero.
      by rewrite Hzero, app_nil_r.
    + apply Nat.ltb_lt in Hlast. by rewrite Hlast.
  - destruct fuel as [|fuel]; [lia|]. cbn [pageLoop].
    rewrite <- (Nat.add_0_r page) at 1. rewrite Hjson by lia.
    rewrite Nat.add_0_r. cbn [netlifyGet].
    pose proof (Hfull 0%nat ltac:(lia)) as Hfirst. rewrite Nat.add_0_r in Hfirst.
    assert (Hpos : (0 < perPage)%nat) by (unfold perPage; lia).
    destruct (length (contents page) =? 0)%nat eqn:Hzero;
      [apply Nat.eqb_eq in Hzero; lia|].
    destruct (length (contents page) <? perPage)%nat eqn:Hlt;
      [apply Nat.ltb_lt in Hlt; lia|].
    rewrite (IH fuel formId (S page)); try lia.
    + cbn [seq fmap list_fmap mjoin list_join]. by rewrite <- !app_assoc.
    + intros j Hj. replace (S page + j)%nat with (page + S j)%nat by lia.
      apply Hjson. lia.
    + intros j Hj. replace (S page + j)%nat with (page + S j)%nat by lia.
      apply Hfull. lia.
    + by replace (S page + n)%nat with (page + S n)%nat by lia.
Qed.

(** X17.  With both settings present, the newsletter form on the site
    and every page answered: when pages 1 to [n] are full (100
    submissions or more) and page [n + 1] is not, [getSubscribers] asks
    for the forms once and then for the pages 1, 2, ..., [n + 1], each
    once and in this order, stops there, and returns the subscribers of
    all these pages in page order, less those whose email is empty or has
    no [@]. *)
Theorem getSubscribers_all_pages
    (fs : list Form) (form : Form) (contents : nat → list Submission)
    (n fuel : nat) :
  validateConfig env = Ok tt →
  forms = Json fs →
  List.find (λ f, String.eqb (form_name f) FORM_NAME) fs = Some form →
  (∀ j, (j ≤ n)%nat → pages (1 + j) = Json (contents (1 + j)%nat)) →
  (∀ j, (j < n)%nat → (perPage ≤ length (contents (1 + j)%nat))%nat) →
  (length (contents (1 + n)%nat) < perPage)%nat →
  (n < fuel)%nat →
  getSubscribers env forms pages fuel
  = (Some (Ok (List.filter hasAt
                 (toSubscriber <$> mjoin (contents <$> seq 1 (S n))))),
     FormsOf (siteId env)
       :: (SubmissionsPage (siteId env) (id form) <$> seq 1 (S n))).
Proof.
  intros Hconfig Hforms Hfind Hjson Hfull Hlast Hfuel.
  unfold getSubscribers, getFormId. rewrite Hconfig, Hforms. cbn [netlifyGet].
  rewrite Hfind.
  by rewrite (pageLoop_all_pages contents n fuel).
Qed.

(** X18.  Whatever the API answers and however long the run is followed:
    a missing or empty token or site id makes [getSubscribers] throw
    before any request; otherwise the first request is the one for the
    forms, and after it only submission pages are asked for, numbered
    1, 2, 3, ... without gap or repetition.  A list that is returned
    holds only subscribers whose email is not empty and contains [@]. *)
Theorem getSubscribers_requests (fuel : nat) :
  let run := getSubscribers env forms pages fuel in
  (validateConfig env ≠ Ok tt → (∃ e, run.1 = Some (Throw e)) ∧ run.2 = [])
  ∧ (validateConfig env = Ok tt →
     ∃ k, (k ≤ fuel)%nat ∧ ∃ formId,
       run.2 = FormsOf (siteId env)
                 :: (SubmissionsPage (siteId env) formId <$> seq 1 k))
  ∧ (∀ subscribers, run.1 = Some (Ok subscribers) →
       Forall (λ sub, Subscribers.email sub ≠ ""
                      ∧ JS.includes (Subscribers.email sub) "@" = true)
         subscribers).
Proof.
  cbv zeta. unfold getSubscribers. split_and!.
  - destruct (validateConfig env) as [[]|e]; [done|]. intros _. by eauto.
  - intros ->. unfold getFormId.
    destruct (netlifyGet forms) as [fs|e]; cbn [fst snd];
      [|exists 0%nat; split; [lia|by exists ""]].
    destruct (List.find _ fs) as [form|]; cbn [fst snd];
      [|exists 0%nat; split; [lia|by exists ""]].
    destruct (pageLoop_requests fuel (id form) 1 [] ([] ++ [FormsOf (siteId env)]))
      as (k & Hk & Hreqs).
    exists k. split; [done|]. exists (id form).
    destruct (pageLoop env pages fuel (id form) 1 [] ([] ++ [FormsOf (siteId env)]))
      as [[[all|e]|] reqs]; cbn [fst snd] in *; by rewrite Hreqs.
  - intros subscribers.
    destruct (validateConfig env) as [[]|e]; [|done].
    destruct (getFormId env forms []) as [[formId|e] reqs]; [|done].
    destruct (pageLoop env pages fuel formId 1 [] reqs) as [[[all|e]|] reqs'];
      cbn [fst]; try done.
    intros [= <-]. apply Forall_forall. intros sub Hsub.
    apply list_elem_of_In, List.filter_In in Hsub as [_ Hat].
    unfold hasAt in Hat. by destruct (Subscribers.email sub).
Qed.

End FormsPages.

Section FormsRun.
Import Forms.

(** A site with 102 submissions: a full first page, and two more on the
    second, one of them without an address. *)
Definition signup (e : string) : Submission :=
  {| data_name := Some "Ann"; data_Name := None;
     data_email := Some e; data_Email := None;
     created_at := "2025-01-15T10:00:00.000Z" |}.

Definition twoPages (page : nat) : list Submission :=
  match page with
  | 1 => replicate 100 (signup "ann@example.org")
  | 2 => [signup "bob@example.org"; signup "no address"]
  | _ => []
  end%nat.

Lemma getSubscribers_all_pages_witness :
  let env := {| NETLIFY_ACCESS_TOKEN := Some "token"; NETLIFY_SITE_ID := Some "site" |} in
  let fs := [ {| form_name := "contact"; id := "f1" |};
              {| form_name := "newsletter-subscribers"; id := "f2" |} ] in
  ∃ subscribers,
    getSubscribers env (Json fs) (λ page, Json (twoPages page)) 5
    = (Some (Ok subscribers),
       [FormsOf "site"; SubmissionsPage "site" "f2" 1; SubmissionsPage "site" "f2" 2])
    ∧ length subscribers = 101%nat
    ∧ last subscribers
      = Some {| Subscribers.name := "Ann"; Subscribers.email := "bob@example.org";
                Subscribers.subscribedAt := "2025-01-15T10:00:00.000Z" |}.
Proof.
  intros env fs. eexists. split.
  - apply (getSubscribers_all_pages env (Json fs) (λ page, Json (twoPages page))
             fs {| form_name := "newsletter-subscribers"; id := "f2" |}
             twoPages 1 5); try reflexivity.
    + intros j Hj. assert (j = 0%nat) as -> by lia. cbn. unfold perPage.
      rewrite ?length_replicate. lia.
    + cbn. unfold perPage. lia.
    + lia.
  - split; reflexivity.
Defined.

End FormsRun.

(** ** The pipeline of index.js *)

Section IndexArgs.
Import Index.

Variable parseInt : string → option Z.
Variables (thisMonth thisYear : Z).

(** What a parse that returns says of the options it started from and of
    the arguments it read. *)
Definition parsedFrom (args : list string) (options options' : Options) : Prop :=
  (month options' = month options ∨ (1 ≤ month options' ≤ 12)%Z)
  ∧ (year options' = year options ∨ (2020 ≤ year options')%Z)
  ∧ ("--month" ∉ args → month options' = month options)
  ∧ ("--year" ∉ args → year options' = year options)
  ∧ (dryRun options' = true → dryRun options = true ∨ "--dry-run" ∈ args)
  ∧ (dryRun options = true → dryRun options' = true)
  ∧ (parseInt "--dry-run" = None → "--dry-run" ∈ args → dryRun options' = true)
  ∧ Forall (λ a, a ∈ ["--month"; "--year"; "--dry-run"] ∨ is_Some (parseInt a)) args.

Lemma parseLoop_parsedFrom n :
  ∀ args options options',
    (length args ≤ n)%nat →
    parseLoop parseInt args options = Some options' →
    parsedFrom args options options'.
Proof.
  induction n as [|n IH]; intros args options options' Hlen.
  - destruct args; [|cbn in Hlen; lia]. intros [= <-].
    unfold parsedFrom. split_and!; try by eauto.
    all: try (intros ? H; by apply elem_of_nil in H).
  - destruct args as [|arg rest].
    { intros [= <-]. unfold parsedFrom. split_and!; try by eauto.
      all: try (intros ? H; by apply elem_of_nil in H). }
    cbn [parseLoop]. cbn [length] in Hlen.
    destruct (String.eqb_spec arg "--month") as [->|Hm].
    { destruct rest as [|value rest']; [done|].
      destruct (parseInt value) as [m|] eqn:Hvalue; [|done].
      destruct ((m <? 1)%Z || (12 <? m)%Z) eqn:Hrange; [done|].
      apply orb_false_iff in Hrange as [H1 H12].
      apply Z.ltb_ge in H1, H12.
      intros Hparse. apply IH in Hparse; [|cbn [length] in Hlen; lia].
      destruct Hparse as (Hmo & Hy & Hnm & Hny & Hd & Hd' & Hdry & Hall).
      cbn [month year dryRun] in *.
      unfold parsedFrom. split_and!.
      - right. destruct Hmo as [->|?]; lia.
      - done.
      - intros Hnot. exfalso. apply Hnot. apply elem_of_cons. by left.
      - intros Hnot. apply Hny. intros Hin. apply Hnot.
        apply elem_of_cons. right. apply elem_of_cons. by right.
      - intros Ht. destruct (Hd Ht) as [?|Hin]; [by left|right].
        apply elem_of_cons. right. apply elem_of_cons. by right.
      - done.
      - intros Hnone Hin. apply Hdry; [done|].
        apply elem_of_cons in Hin as [?|Hin]; [done|].
        apply elem_of_cons in Hin as [Heq|Hin]; [subst value; congruence|done].
      - apply Forall_cons_2; [left; set_solver|].
        apply Forall_cons_2; [right; by rewrite Hvalue|done]. }
    destruct (String.eqb_spec arg "--year") as [->|Hy].
    { destruct rest as [|value rest']; [done|].
      destruct (parseInt value) as [y|] eqn:Hvalue; [|done].
      destruct (y <? 2020)%Z eqn:Hrange; [done|].
      apply Z.ltb_ge in Hrange.
      intros Hparse. apply IH in Hparse; [|cbn [length] in Hlen; lia].
      destruct Hparse as (Hmo & Hye & Hnm & Hny & Hd & Hd' & Hdry & Hall).
      cbn [month year dryRun] in *.
      unfold parsedFrom. split_and!.
      - done.
      - right. destruct Hye as [->|?]; lia.
      - intros Hnot. apply Hnm. intros Hin. apply Hnot.
        apply elem_of_cons. right. apply elem_of_cons. by right.
      - intros Hnot. exfalso. apply Hnot. apply elem_of_cons. by left.
      - intros Ht. destruct (Hd Ht) as [?|Hin]; [by left|right].
        apply elem_of_cons. right. apply elem_of_cons. by right.
      - done.
      - intros Hnone Hin. apply Hdry; [done|].
        apply elem_of_cons in Hin as [?|Hin]; [done|].
        apply elem_of_cons in Hin as [Heq|Hin]; [subst value; congruence|done].
      - apply Forall_cons_2; [left; set_solver|].
        apply Forall_cons_2; [right; by rewrite Hvalue|done]. }
    destruct (String.eqb_spec arg "--dry-run") as [->|Hd]; [|done].
    intros Hparse. apply IH in Hparse; [|lia].
    destruct Hparse as (Hmo & Hye & Hnm & Hny & Hd & Hd' & Hdry & Hall).
    cbn [month year dryRun] in *.
    unfold parsedFrom. split_and!; try done.
    + intros Hnot. apply Hnm. intros Hin. apply Hnot. apply elem_of_cons. by right.
    + intros Hnot. apply Hny. intros Hin. apply Hnot. apply elem_of_cons. by right.
    + intros _. right. apply elem_of_cons. by left.
    + intros _. by apply Hd'.
    + intros _ _. by apply Hd'.
    + apply Forall_cons_2; [left; set_solver|done].
Qed.

(** X19.  When the month of the clock is in 1..12, options that
    [parseArgs] returns have a month in 1..12 and a year that is the
    clock's or at least 2020; without [--month] (or [--year]) among the
    arguments the value is the clock's.  The dry-run flag is set only if
    [--dry-run] is among the arguments, and every argument read was one
    of the three flags or a number: anything else ends the process with
    code 1 instead. *)
Theorem parseArgs_options_in_range (args : list string) (options : Options) :
  (1 ≤ thisMonth ≤ 12)%Z →
  parseArgs parseInt thisMonth thisYear args = Some options →
  (1 ≤ month options ≤ 12)%Z
  ∧ (year options = thisYear ∨ (2020 ≤ year options)%Z)
  ∧ ("--month" ∉ args → month options = thisMonth)
  ∧ ("--year" ∉ args → year options = thisYear)
  ∧ (dryRun options = true → "--dry-run" ∈ args)
  ∧ Forall (λ a, a ∈ ["--month"; "--year"; "--dry-run"] ∨ is_Some (parseInt a)) args.
Proof.
  intros Hmonth Hparse.
  apply (parseLoop_parsedFrom (length args)) in Hparse; [|done].
  destruct Hparse as (Hmo & Hye & Hnm & Hny & Hd & _ & _ & Hall).
  cbn [month year dryRun] in *.
  split; [destruct Hmo as [->|?]; lia|].
  split_and!; try done.
  intros Ht. by destruct (Hd Ht).
Qed.

End IndexArgs.

Section IndexArgsRun.
Import Index.

(** [parseInt] on a string of decimal digits. *)
Definition digitsValue (s : string) : option Z :=
  (λ u, Z.of_N (N.of_uint u)) <$> NilZero.uint_of_string s.

Lemma parseArgs_options_in_range_witness :
  let args := ["--year"; "2026"; "--month"; "3"; "--dry-run"] in
  (1 ≤ 11 ≤ 12)%Z
  ∧ parseArgs digitsValue 11 2025 args
    = Some {| month := 3; year := 2026; dryRun := true |}
  ∧ "--dry-run" ∈ args.
Proof.
  intros args.
  assert (Hclock : (1 ≤ 11 ≤ 12)%Z) by lia.
  assert (Hparse : parseArgs digitsValue 11 2025 args
                   = Some {| month := 3; year := 2026; dryRun := true |})
    by reflexivity.
  split; [exact Hclock|]. split; [exact Hparse|].
  destruct (parseArgs_options_in_range digitsValue 11 2025 args _ Hclock Hparse)
    as (_ & _ & _ & _ & Hdry & _).
  by apply Hdry.
Defined.

End IndexArgsRun.
Section IndexPipeline.
Import Index.

Variable parseInt : string → option Z.
Variables (thisMonth thisYear : Z).
Variable GROQ_API_KEY : option string.
Variable feeds : Gatherer.FeedSource → Gatherer.FetchOutcome.
Variable api : nat → Generator.ApiResponse.
Variable buildSystemPrompt : string.
Variable buildPrompt : Generator.SectionKey → Gatherer.Content → string → Z → string.
Variables (gatheredAt generatedAt : string).
Variable host : JSDate.Host.

Lemma monthlyThemes_in_range (month : Z) :
  (1 ≤ month ≤ 12)%Z → is_Some (Gatherer.monthlyThemes !! month).
Proof.
  intros Hmonth. rewrite <- elem_of_dom.
  replace (dom Gatherer.monthlyThemes) with (list_to_set (seqZ 1 12) : gset Z)
    by (by vm_compute).
  rewrite elem_of_list_to_set, elem_of_seqZ. lia.
Qed.

Lemma getFallbackContent_theme (month : Z) :
  is_Some (Gatherer.monthlyTheme (Gatherer.getFallbackContent month))
  ∧ ((1 ≤ month ≤ 12)%Z →
     Gatherer.monthlyTheme (Gatherer.getFallbackContent month)
     = Gatherer.monthlyThemes !! month).
Proof.
  unfold Gatherer.getFallbackContent. cbn [Gatherer.monthlyTheme]. split.
  - destruct (Gatherer.monthlyThemes !! month); [done|]. vm_compute. by eexists.
  - intros [t Ht]%monthlyThemes_in_range. by rewrite Ht.
Qed.

(** The theme of the content gathered is that of the fallback content of
    the month, whatever the feeds give. *)
Lemma gatherContent_theme (now : string) (month year : Z) :
  ∃ content,
    Gatherer.gatherContent feeds now month year = Ok content
    ∧ Gatherer.monthlyTheme content
      = Gatherer.monthlyTheme (Gatherer.getFallbackContent month).
Proof.
  unfold Gatherer.gatherContent. eexists. split; [reflexivity|].
  cbn [Gatherer.setMetadata Gatherer.monthlyTheme].
  destruct (0 <? length _)%nat.
  - rewrite bool_decide_true by done. done.
  - destruct (getFallbackContent_theme month) as [[t Ht] _].
    case_bool_decide; [done|done].
Qed.

(** The metadata of a newsletter that [generateNewsletter] returns. *)
Lemma generateNewsletter_metadata now content month year w nl w' :
  Generator.generateNewsletter api GROQ_API_KEY buildSystemPrompt buildPrompt host
    now content month year w = (Some (Ok nl), w') →
  Publish.metadata nl
  = {| Publish.title := "The Kingdom Report";
       Publish.subtitle := "Monthly Intelligence from Increasing Faith Ministries";
       Publish.month := month;
       Publish.year := year;
       Publish.monthName := DateFns.format_MMMM month;
       Publish.dateString :=
         DateFns.format_MMMM month +:+ " " +:+ DateFns.format_yyyy year month;
       Publish.generatedAt := now;
       Publish.ministry := "Increasing Faith Ministries";
       Publish.pastor := "Curtis Stephens Jr.";
       Publish.contentSource :=
         if default false (Gatherer.isFallback content) then "fallback" else "web";
       Publish.meta_theme := Gatherer.monthlyTheme content |}.
Proof.
  unfold Generator.generateNewsletter.
  destruct (JSDate.newDate host year (month - 1)); [|discriminate].
  destruct (Generator.firstFive _ _ _ _ _ _ _ w) as [[[[[[t1 t2] t3] t4] t5]|e] w1];
    [|discriminate].
  destruct (Generator.firstSaturday _ _ _); [|discriminate].
  destruct (Generator.generateSection _ _ _ _ _ _ _ _ w1) as [[upcoming|e] w2];
    [|discriminate].
  by intros [= <- <-].
Qed.

(** X20.  A run of the pipeline that reaches the publisher, with the
    month of the clock in 1..12: the arguments parsed without
    [--dry-run] taking effect, and the newsletter handed over is that of
    the month and year of the options, with the theme that the table of
    monthly themes gives for that month, whatever the feeds returned and
    whatever the completions say.  Published over any archive, its entry
    comes first, under the date key of that year and month, with the
    title, the date string, the theme name and the two file names made
    from the key, and no other entry of the archive written has this
    key. *)
Theorem main_published_entry
    (args : list string) (nl : Publish.Newsletter) (w : Generator.World)
    (file : Publish.ArchiveFile) :
  (1 ≤ thisMonth ≤ 12)%Z →
  main parseInt thisMonth thisYear GROQ_API_KEY feeds api buildSystemPrompt
    buildPrompt gatheredAt generatedAt host args = (Published nl, w) →
  ∃ options t,
    parseArgs parseInt thisMonth thisYear args = Some options
    ∧ dryRun options = false
    ∧ (1 ≤ month options ≤ 12)%Z
    ∧ Gatherer.monthlyThemes !! month options = Some t
    ∧ Publish.meta_theme (Publish.metadata nl) = Some t
    ∧ ∃ older,
        Publish.archiveWritten (Publish.publishNewsletter file nl)
        = {| Publish.dateKey := Publish.formatDateKey (year options) (month options);
             Publish.ae_title := "The Kingdom Report";
             Publish.ae_dateString :=
               DateFns.format_MMMM (month options) +:+ " "
               +:+ DateFns.format_yyyy (year options) (month options);
             Publish.ae_theme := Some (theme t);
             Publish.ae_generatedAt := generatedAt;
             Publish.jsonFile :=
               Publish.formatDateKey (year options) (month options) +:+ ".json";
             Publish.htmlFile :=
               Publish.formatDateKey (year options) (month options) +:+ ".html" |}
          :: older
        ∧ Forall (λ entry, Publish.dateKey entry
                           ≠ Publish.formatDateKey (year options) (month options))
            older.
Proof.
  intros Hclock. unfold main.
  destruct (parseArgs parseInt thisMonth thisYear args) as [options|] eqn:Hparse;
    [|done].
  assert (Hmonth : (1 ≤ month options ≤ 12)%Z).
  { apply (parseLoop_parsedFrom parseInt (length args)) in Hparse; [|done].
    destruct Hparse as (Hmo & _). cbn [month] in Hmo. destruct Hmo as [->|?]; lia. }
  destruct GROQ_API_KEY as [[|k0 k]|] eqn:Hkey; [done| |done].
  destruct (gatherContent_theme gatheredAt (month options) (year options))
    as (content & -> & Htheme).
  destruct (Generator.generateNewsletter _ _ _ _ _ _ _ _ _ _) as [[[nl'|e]|] w'] eqn:Hgen;
    [|done|done].
  destruct (dryRun options) eqn:Hdry; [done|].
  intros [= -> ->].
  rewrite <- Hkey in Hgen. apply generateNewsletter_metadata in Hgen.
  destruct (getFallbackContent_theme (month options)) as [_ Htable].
  destruct (monthlyThemes_in_range _ Hmonth) as [t Ht].
  exists options, t.
  split; [done|]. split; [done|]. split; [exact Hmonth|]. split; [exact Ht|]. split.
  - rewrite Hgen. cbn [Publish.meta_theme]. by rewrite Htheme, Htable.
  - unfold Publish.publishNewsletter, Publish.newEntry. rewrite Hgen.
    cbn [Publish.archiveWritten Publish.metadata Publish.year Publish.month
         Publish.title Publish.dateString Publish.meta_theme Publish.generatedAt].
    rewrite Htheme, Htable by done. rewrite Ht. cbn [fmap option_fmap option_map].
    eexists. split; [reflexivity|].
    apply Forall_forall. intros entry Hentry.
    by apply list_elem_of_filter in Hentry as [? _].
Qed.

(** X21.  Without the key the pipeline exits with code 1 before any
    request is sent, whatever the arguments, [--dry-run] among them or
    not.  And when [--dry-run] is among the arguments (and is not read as
    a number), the publisher is never reached, with or without the key:
    the run exits with code 1, ends with the preview, or never returns
    from the generator. *)
Theorem main_dry_run_never_publishes (args : list string) :
  let run := main parseInt thisMonth thisYear GROQ_API_KEY feeds api
               buildSystemPrompt buildPrompt gatheredAt generatedAt host args in
  (GROQ_API_KEY = None ∨ GROQ_API_KEY = Some "" →
   run = (Exit 1, {| Generator.calls := 0; Generator.trace := [] |}))
  ∧ (parseInt "--dry-run" = None ∧ "--dry-run" ∈ args →
     run.1 = Exit 1 ∨ (∃ nl, run.1 = Preview nl) ∨ run.1 = Hangs).
Proof.
  cbv zeta. unfold main. split.
  - intros Hkey.
    destruct (parseArgs parseInt thisMonth thisYear args) as [options|]; [|done].
    by destruct Hkey as [->| ->].
  - intros [Hnan Hin].
    destruct (parseArgs parseInt thisMonth thisYear args) as [options|] eqn:Hparse;
      [|by left].
    apply (parseLoop_parsedFrom parseInt (length args)) in Hparse; [|done].
    destruct Hparse as (_ & _ & _ & _ & _ & _ & Hdry & _).
    rewrite (Hdry Hnan Hin).
    destruct GROQ_API_KEY as [[|k0 k]|]; [by left| |by left].
    destruct (Gatherer.gatherContent _ _ _ _); [|by left].
    destruct (Generator.generateNewsletter _ _ _ _ _ _ _ _ _ _) as [[[nl|e]|] w];
      cbn [fst]; by eauto.
Qed.

End IndexPipeline.

Section IndexRuns.
Import Index.

(** Feeds that cannot be reached, and a completion API that answers every
    request. *)
Definition offline (feed : Gatherer.FeedSource) : Gatherer.FetchOutcome :=
  Gatherer.NetworkError "ENOTFOUND".

Definition answering (j : nat) : Generator.ApiResponse :=
  Generator.Completion "text".

Lemma main_published_entry_witness :
  let run := main digitsValue 11 2025 (Some "gsk_key") offline answering "system"
               prompts "2025-11-03T08:00:00.000Z" "2025-11-03T08:00:05.000Z" utcHost
               ["--month"; "6"] in
  (1 ≤ 11 ≤ 12)%Z
  ∧ ∃ nl w older,
      run = (Published nl, w)
      ∧ Publish.archiveWritten (Publish.publishNewsletter (Publish.Parsed [staleEntry "2025-06" "first"; staleEntry "2025-05" "may"]) nl)
        = {| Publish.dateKey := "2025-06";
             Publish.ae_title := "The Kingdom Report";
             Publish.ae_dateString := "June 2025";
             Publish.ae_theme := Some "Kingdom Fathers";
             Publish.ae_generatedAt := "2025-11-03T08:00:05.000Z";
             Publish.jsonFile := "2025-06.json";
             Publish.htmlFile := "2025-06.html" |} :: older.
Proof.
  intros run.
  assert (Hclock : (1 ≤ 11 ≤ 12)%Z) by lia.
  split; [exact Hclock|].
  destruct (main digitsValue 11 2025 (Some "gsk_key") offline answering "system"
              prompts "2025-11-03T08:00:00.000Z" "2025-11-03T08:00:05.000Z" utcHost
              ["--month"; "6"]) as [r w] eqn:Hrun.
  assert (Hr : ∃ nl, r = Published nl).
  { apply (f_equal fst) in Hrun. cbn [fst] in Hrun. rewrite <- Hrun.
    eexists. vm_compute. reflexivity. }
  destruct Hr as [nl ->].
  destruct (main_published_entry digitsValue 11 2025 (Some "gsk_key") offline
              answering "system" prompts "2025-11-03T08:00:00.000Z"
              "2025-11-03T08:00:05.000Z" utcHost ["--month"; "6"] nl w
              (Publish.Parsed [staleEntry "2025-06" "first"; staleEntry "2025-05" "may"]) Hclock Hrun)
    as (options & t & Hparse & _ & _ & Ht & _ & older & Hwritten & _).
  exists nl, w, older. split; [reflexivity|].
  rewrite Hwritten.
  assert (Hoptions : options = {| month := 6; year := 2025; dryRun := false |}).
  { vm_compute in Hparse. by injection Hparse as <-. }
  subst options. cbn [month year] in *.
  assert (t = {| theme := "Kingdom Fathers"; focus := "Fatherhood as Kingdom leadership" |})
    as ->.
  { vm_compute in Ht. by injection Ht as <-. }
  reflexivity.
Defined.

(** Two runs: one without the key and without [--dry-run], which exits
    before any request; one with the key and [--dry-run], which ends
    with the preview after six requests. *)
Lemma main_dry_run_never_publishes_witness :
  let noKey := main digitsValue 11 2025 None offline answering "system"
                 prompts "2025-11-03T08:00:00.000Z" "2025-11-03T08:00:05.000Z" utcHost
                 ["--month"; "6"] in
  let dry := main digitsValue 11 2025 (Some "gsk_key") offline answering "system"
               prompts "2025-11-03T08:00:00.000Z" "2025-11-03T08:00:05.000Z" utcHost
               ["--month"; "6"; "--dry-run"] in
  noKey = (Exit 1, {| Generator.calls := 0; Generator.trace := [] |})
  ∧ digitsValue "--dry-run" = None
  ∧ (dry.1 = Exit 1 ∨ (∃ nl, dry.1 = Preview nl) ∨ dry.1 = Hangs)
  ∧ dry.1 ≠ Exit 1 ∧ dry.1 ≠ Hangs
  ∧ Generator.calls dry.2 = 6%nat.
Proof.
  intros noKey dry.
  assert (Hnan : digitsValue "--dry-run" = None) by reflexivity.
  assert (Hin : "--dry-run" ∈ ["--month"; "6"; "--dry-run"]) by set_solver.
  split.
  { exact (proj1 (main_dry_run_never_publishes digitsValue 11 2025 None
                    offline answering "system" prompts "2025-11-03T08:00:00.000Z"
                    "2025-11-03T08:00:05.000Z" utcHost ["--month"; "6"])
             (or_introl eq_refl)). }
  split; [exact Hnan|].
  split.
  { exact (proj2 (main_dry_run_never_publishes digitsValue 11 2025 (Some "gsk_key")
                    offline answering "system" prompts "2025-11-03T08:00:00.000Z"
                    "2025-11-03T08:00:05.000Z" utcHost ["--month"; "6"; "--dry-run"])
             (conj Hnan Hin)). }
  by vm_compute.
Defined.

End IndexRuns.

(** ** The invitation mailing *)

Section InviteFacts.
Import Invite.

Variable net : nat → Response.

Definition invited (t : list Event) : list string :=
  omap (λ ev, match ev with Post to => Some to | Sleep _ => None end) t.

Definition pauses (t : list Event) : list nat :=
  omap (λ ev, match ev with Sleep ms => Some ms | Post _ => None end) t.

(** The wait that follows a request, if any. *)
Definition pauseAfter (r : Response) : list nat :=
  match errorMessage r with
  | None => [600]
  | Some message => if JS.includes message "429" then [3000] else []
  end%nat.

Definition refused (r : Response) : bool :=
  match r with
  | Accepted => false
  | _ => true
  end.

(** The events of the loop over [emails] when its first request is
    number [from]: each request, followed by its wait if it has one. *)
Fixpoint mailing (from : nat) (emails : list string) : list Event :=
  match emails with
  | [] => []
  | email :: rest =>
      Post email :: (Sleep <$> pauseAfter (net from)) ++ mailing (S from) rest
  end.

Lemma invited_Sleep l : invited (Sleep <$> l) = [].
Proof. by induction l. Qed.

Lemma pauses_Sleep l : pauses (Sleep <$> l) = l.
Proof. induction l as [|ms l IH]; [done|]. cbn. by f_equal. Qed.

Lemma mailing_projections from emails :
  invited (mailing from emails) = emails
  ∧ pauses (mailing from emails)
    = mjoin ((λ j, pauseAfter (net j)) <$> seq from (length emails)).
Proof.
  revert from. induction emails as [|e emails IH]; intros from; [done|].
  destruct (IH (S from)) as [Hposts Hpauses].
  cbn [mailing length seq fmap list_fmap mjoin list_join].
  change (Post e :: ?a ++ ?t) with ([Post e] ++ a ++ t).
  unfold invited, pauses in *. rewrite !omap_app.
  fold (invited (Sleep <$> pauseAfter (net from))).
  fold (pauses (Sleep <$> pauseAfter (net from))).
  rewrite invited_Sleep, pauses_Sleep, Hposts, Hpauses. done.
Qed.

Lemma inviteAll_spec emails st :
  let st' := foldl (inviteOne net) st emails in
  trace st' = trace st ++ mailing (calls st) emails
  ∧ calls st' = (calls st + length emails)%nat
  ∧ (sent st' + failed st' = sent st + failed st + length emails)%nat
  ∧ failed st'
    = (failed st
       + length (List.filter (λ j, refused (net j)) (seq (calls st) (length emails))))%nat.
Proof.
  revert st. induction emails as [|e emails IH]; intros st; cbn [foldl].
  - cbn. rewrite app_nil_r. split_and!; try done; lia.
  - destruct (IH (inviteOne net st e)) as (Ht & Hcalls & Hsum & Hfailed).
    cbv zeta in *. rewrite Ht, Hcalls, Hsum, Hfailed. clear Ht Hcalls Hsum Hfailed.
    cbn [length seq List.filter mailing].
    unfold inviteOne, pauseAfter.
    destruct (net (calls st)) as [msg|status [err|msg]|] eqn:Hnet;
      cbn [errorMessage calls trace sent failed refused];
      try destruct (JS.includes _ "429");
      cbn [fmap list_fmap length]; rewrite <- ?app_assoc;
      split_and!; try done; lia.
Qed.

Lemma pauseAfter_429 body : pauseAfter (Refused 429 (Ok body)) = [3000]%nat.
Proof.
  unfold pauseAfter. cbn [errorMessage].
  assert (H : JS.includes ("Resend " +:+ JS.decimal (N.of_nat 429) +:+ ": " +:+ body)
                "429" = true); [|by rewrite H].
  apply includes_spec. exists "Resend ", (": " +:+ body).
  by change (JS.decimal (N.of_nat 429)) with "429".
Qed.

(** X22.  The invitation run sends exactly one request per address of
    the list, in the order of the list: no address is tried a second
    time, whatever the answer, a rate-limit answer included.  An accepted
    request is followed at once by a wait of 600 ms; an answer with
    status 429 by a wait of 3000 ms before the next address; each address
    is counted once, as sent or as failed. *)
Theorem main_one_request_per_address (emails : list string) :
  let st := main net emails in
  trace st = mailing 0 emails
  ∧ invited (trace st) = emails
  ∧ calls st = length emails
  ∧ (sent st + failed st)%nat = length emails
  ∧ failed st = length (List.filter (λ j, refused (net j)) (seq 0 (length emails)))
  ∧ pauses (trace st)
    = mjoin ((λ j, pauseAfter (net j)) <$> seq 0 (length emails))
  ∧ (∀ body, pauseAfter (Refused 429 (Ok body)) = [3000]%nat)
  ∧ pauseAfter Accepted = [600]%nat.
Proof.
  cbv zeta. unfold main.
  destruct (inviteAll_spec emails initial) as (Ht & Hcalls & Hsum & Hfailed).
  destruct (mailing_projections 0 emails) as [Hposts Hpauses].
  cbv zeta in *. cbn [initial trace calls sent failed app] in *.
  rewrite Ht, Hcalls, Hsum, Hfailed, Hposts, Hpauses.
  split_and!; first [done | apply pauseAfter_429].
Qed.

(** A run over three addresses: the second meets the rate limit and is
    passed over after 3000 ms; the third meets an error that only
    mentions the number. *)
Example invite_rate_limited :
  let net j :=
    match j with
    | 0 => Accepted
    | 1 => Refused 429 (Ok "rate_limit_exceeded")
    | _ => Refused 500 (Ok "upstream said 429")
    end%nat in
  let st := main net ["a@example.org"; "b@example.org"; "c@example.org"] in
  trace st
  = [Post "a@example.org"; Sleep 600; Post "b@example.org"; Sleep 3000;
     Post "c@example.org"; Sleep 3000]
  ∧ sent st = 1%nat ∧ failed st = 2%nat.
Proof. by vm_compute. Qed.

End InviteFacts.

(** ** The Apps Script sender *)

Section AppsScriptSheet.
Import AppsScript.

(** Two rows that agree on the columns Name, Email and Active. *)
Definition sameABD (r r' : Row) : Prop :=
  colA r = colA r' ∧ colB r = colB r' ∧ colD r = colD r'.

Lemma rowSubscriber_sameABD i r r' :
  sameABD r r' → rowSubscriber i r = rowSubscriber i r'.
Proof. intros (HA & HB & HD). unfold rowSubscriber. by rewrite HA, HB, HD. Qed.

Lemma activeLoop_sameABD i rows rows' subscribers :
  Forall2 sameABD rows rows' →
  activeLoop i rows subscribers = activeLoop i rows' subscribers.
Proof.
  intros H. revert i subscribers.
  induction H as [|r r' rows rows' Hr _ IH]; intros i subscribers; [done|].
  cbn [activeLoop]. rewrite (rowSubscriber_sameABD i r r' Hr).
  destruct (rowSubscriber i r') as [[sub|]|e]; by rewrite ?IH.
Qed.

Lemma activeLoop_blank i n rows subscribers :
  activeLoop i (rows ++ replicate n blank) subscribers
  = activeLoop i rows subscribers.
Proof.
  revert i subscribers. induction rows as [|r rows IH]; intros i subscribers.
  - cbn [app]. revert i. induction n as [|n IHn]; intros i; [done|]. exact (IHn (S i)).
  - cbn [app activeLoop]. destruct (rowSubscriber i r) as [[sub|]|e]; by rewrite ?IH.
Qed.

Lemma drop_1_blank (data : list Row) n :
  ∃ m, drop 1 (data ++ replicate n blank) = drop 1 data ++ replicate m blank.
Proof.
  destruct data as [|r data].
  - destruct n as [|n]; [by exists 0%nat|by exists n].
  - by exists n.
Qed.

(** Marking a row leaves the list of active subscribers as it was. *)
Lemma getActiveSubscribers_markAsSent cells row month now data :
  getActiveSubscribers (Some (markAsSent cells row month now data))
  = getActiveSubscribers (Some data).
Proof.
  unfold getActiveSubscribers, markAsSent.
  set (padded := data ++ replicate (row - length data) blank).
  set (f := λ r : Row, _).
  assert (Hsame : Forall2 sameABD (alter f (row - 1)%nat padded) padded).
  { apply Forall2_same_length_lookup. split; [by rewrite length_alter|].
    intros k r r' Hr Hr'.
    destruct (decide (k = (row - 1)%nat)) as [->|Hne].
    - rewrite list_lookup_alter_eq, Hr' in Hr. injection Hr as <-. by unfold f.
    - rewrite list_lookup_alter_ne in Hr by done. by simplify_eq. }
  rewrite (activeLoop_sameABD 1 _ (drop 1 padded)) by by apply Forall2_drop.
  unfold padded. destruct (drop_1_blank data (row - length data)) as [m ->].
  apply activeLoop_blank.
Qed.

Lemma length_markAsSent cells row month now data :
  (row ≤ length data)%nat →
  length (markAsSent cells row month now data) = length data.
Proof.
  intros Hrow. unfold markAsSent. rewrite length_alter, length_app, length_replicate. lia.
Qed.

(** The rows of the subscribers found lie in the data range. *)
Lemma activeLoop_rows i rows acc subscribers bound :
  activeLoop i rows acc = Ok subscribers →
  (i + length rows ≤ bound)%nat →
  Forall (λ sub, row sub ≤ bound)%nat acc →
  Forall (λ sub, row sub ≤ bound)%nat subscribers.
Proof.
  revert i acc. induction rows as [|r rows IH]; intros i acc; cbn [activeLoop length].
  - by intros [= <-].
  - unfold rowSubscriber.
    destruct (truthy (colB r) && active (colD r)).
    + destruct (colB r) as [b|s|shown t]; try done.
      intros Hloop Hbound Hacc. apply (IH _ _ Hloop); [lia|].
      apply Forall_app. split; [done|]. constructor; [|done]. cbn [row]. lia.
    + intros Hloop Hbound Hacc. apply (IH _ _ Hloop); [lia|done].
Qed.

Lemma getActiveSubscribers_rows data subscribers :
  getActiveSubscribers (Some data) = Ok subscribers →
  Forall (λ sub, row sub ≤ length data)%nat subscribers.
Proof.
  unfold getActiveSubscribers. destruct data as [|r data].
  - by intros [= <-].
  - cbn [drop length]. intros Hloop.
    apply (activeLoop_rows _ _ _ _ _ Hloop); [rewrite drop_0; lia|done].
Qed.

End AppsScriptSheet.

Section AppsScriptRun.
Import AppsScript.

Variable gmail : nat → Outcome.
Variable now : Cell.

Definition mailed (t : list Event) : list string :=
  omap (λ ev, match ev with Email to => Some to | Sleep _ => None end) t.

Definition delays (t : list Event) : list nat :=
  omap (λ ev, match ev with Sleep ms => Some ms | Email _ => None end) t.

(** The mail for subscriber [i] went out. *)
Definition wentOut (i : nat) : bool :=
  match gmail i with
  | SendThrows => false
  | _ => true
  end.

Lemma sendTo_spec content limit i sub st :
  let st' := sendTo gmail now content limit i sub st in
  trace st'
  = trace st ++ Email (email sub)
      :: (if (i <? limit - 1)%nat then [Sleep 2000] else [])
  ∧ sent st' = (sent st + if wentOut i then 1 else 0)%nat
  ∧ getActiveSubscribers (Some (data st')) = getActiveSubscribers (Some (data st))
  ∧ ((row sub ≤ length (data st))%nat → length (data st') = length (data st)).
Proof.
  unfold sendTo, wentOut.
  destruct (gmail i) as [| |cells]; destruct (i <? limit - 1)%nat;
    cbn [trace sent data]; rewrite <- ?app_assoc;
    split_and!; try done; try lia;
    try apply getActiveSubscribers_markAsSent;
    try apply length_markAsSent.
Qed.

Lemma sendLoop_spec content limit subscribers :
  ∀ i st,
    Forall (λ sub, row sub ≤ length (data st))%nat subscribers →
    let st' := sendLoop gmail now content limit i subscribers st in
    ∃ t,
      trace st' = trace st ++ t
      ∧ mailed t = email <$> take (limit - i) subscribers
      ∧ delays t
        = replicate (Nat.min (limit - 1) (i + length subscribers) - i) 2000%nat
      ∧ sent st'
        = (sent st
           + length (List.filter wentOut
                       (seq i (Nat.min (limit - i) (length subscribers)))))%nat
      ∧ getActiveSubscribers (Some (data st')) = getActiveSubscribers (Some (data st))
      ∧ length (data st') = length (data st).
Proof.
  induction subscribers as [|sub rest IH]; intros i st Hrows; cbn [sendLoop].
  - exists []. rewrite app_nil_r, take_nil, Nat.min_0_r. cbn [length].
    replace (Nat.min (limit - 1) (i + 0) - i)%nat with 0%nat by lia.
    cbn. split_and!; try done; lia.
  - apply Forall_cons in Hrows as [Hrow Hrows].
    destruct (i <? limit)%nat eqn:Hi.
    + apply Nat.ltb_lt in Hi.
      destruct (sendTo_spec content limit i sub st) as (Ht & Hs & Hact & Hlen).
      cbv zeta in *. specialize (Hlen Hrow).
      destruct (IH (S i) (sendTo gmail now content limit i sub st))
        as (t & Ht' & Hm & Hd & Hs' & Hact' & Hlen').
      { by rewrite Hlen. }
      cbv zeta in *. rewrite Ht', Hs', Hact', Hlen', Ht, Hs, Hact, Hlen.
      eexists. split; [by rewrite <- app_assoc|].
      unfold mailed, delays in *. cbn [length].
      replace (limit - i)%nat with (S (limit - S i)) by lia.
      replace (Nat.min (S (limit - S i)) (S (length rest)))
        with (S (Nat.min (limit - S i) (length rest))) by lia.
      cbn [take fmap list_fmap seq List.filter].
      change (Email (email sub) :: ?a ++ t) with ([Email (email sub)] ++ a ++ t).
      rewrite !omap_app, Hm, Hd.
      split_and!; try done.
      * by destruct (i <? limit - 1)%nat.
      * destruct (i <? limit - 1)%nat eqn:Hlast.
        -- apply Nat.ltb_lt in Hlast. cbn [omap list_omap app].
           replace (Nat.min (limit - 1) (i + S (length rest)) - i)%nat
             with (S (Nat.min (limit - 1) (S i + length rest) - S i)) by lia.
           done.
        -- apply Nat.ltb_ge in Hlast. cbn [omap list_omap app].
           match goal with
           | |- replicate ?a _ = replicate ?b _ => by replace a with b by lia
           end.
      * destruct (wentOut i); cbn [length]; lia.
    + apply Nat.ltb_ge in Hi. exists [].
      rewrite app_nil_r.
      replace (limit - i)%nat with 0%nat by lia.
      replace (Nat.min (limit - 1) (i + length (sub :: rest)) - i)%nat
        with 0%nat by lia.
      cbn. split_and!; try done; lia.
Qed.

(** A list with a separator between every two of its elements. *)
Fixpoint between {A} (sep : A) (l : list A) : list A :=
  match l with
  | [] => []
  | x :: rest =>
      match rest with
      | [] => [x]
      | _ :: _ => x :: sep :: between sep rest
      end
  end.

(** The events of the loop when the limit lies within the list. *)
Lemma sendLoop_trace content limit subscribers :
  ∀ i st,
    (limit ≤ i + length subscribers)%nat →
    trace (sendLoop gmail now content limit i subscribers st)
    = trace st
      ++ between (Sleep 2000) (Email <$> (email <$> take (limit - i) subscribers)).
Proof.
  induction subscribers as [|sub rest IH]; intros i st Hlimit; cbn [sendLoop].
  - by rewrite take_nil, app_nil_r.
  - cbn [length] in Hlimit. destruct (i <? limit)%nat eqn:Hi.
    + apply Nat.ltb_lt in Hi. rewrite IH by lia.
      destruct (sendTo_spec content limit i sub st) as (-> & _).
      rewrite <- app_assoc. f_equal.
      replace (limit - i)%nat with (S (limit - S i)) by lia.
      cbn [take fmap list_fmap app].
      destruct (i <? limit - 1)%nat eqn:Hlast.
      * apply Nat.ltb_lt in Hlast.
        destruct rest as [|sub' rest']; [cbn [length] in Hlimit; lia|].
        replace (limit - S i)%nat with (S (limit - S (S i))) by lia.
        done.
      * apply Nat.ltb_ge in Hlast.
        by replace (limit - S i)%nat with 0%nat by lia.
    + apply Nat.ltb_ge in Hi. replace (limit - i)%nat with 0%nat by lia.
      by rewrite app_nil_r.
Qed.

(** X23.  A run of [sendNewsletter] that returns: the mails go, one
    each and in sheet order, to the first 50 active subscribers of the
    sheet and to no one else, with a wait of 2000 ms between two mails
    and none after the last; every mail that went out is counted as
    sent.  Marking the rows changes neither the number of rows nor the
    list of active subscribers: read again after the run, the sheet
    gives the same subscribers, so a following run starts with the same
    first 50 and a subscriber after the fiftieth is reached by no
    run. *)
Theorem sendNewsletter_first_fifty
    (content : Content) (html : string) (sheet : list Row)
    (subscribers : list Subscriber) :
  emailHtml content = Ok html →
  getActiveSubscribers (Some sheet) = Ok subscribers →
  ∃ st,
    sendNewsletter gmail now (Some content) (Some sheet) = Ok st
    ∧ trace st
      = between (Sleep 2000) (Email <$> (email <$> take 50 subscribers))
    ∧ mailed (trace st) = email <$> take 50 subscribers
    ∧ (length (mailed (trace st)) ≤ 50)%nat
    ∧ delays (trace st)
      = replicate (Nat.min (length subscribers) 50 - 1) 2000%nat
    ∧ sent st
      = length (List.filter wentOut (seq 0 (Nat.min (length subscribers) 50)))
    ∧ length (data st) = length sheet
    ∧ getActiveSubscribers (Some (data st)) = Ok subscribers.
Proof.
  intros Hhtml Hsubs. unfold sendNewsletter. rewrite Hsubs, Hhtml.
  destruct (length subscribers =? 0)%nat eqn:Hzero.
  - apply Nat.eqb_eq, length_zero_iff_nil in Hzero. subst subscribers.
    eexists. split; [reflexivity|]. cbn. split_and!; try done; lia.
  - apply Nat.eqb_neq in Hzero.
    pose proof (getActiveSubscribers_rows sheet subscribers Hsubs) as Hrows.
    destruct (sendLoop_spec content (Nat.min (length subscribers) maxPerRun)
                subscribers 0
                {| sent := 0; failed := 0; trace := []; data := default [] (Some sheet) |}
                Hrows)
      as (t & Ht & Hm & Hd & Hs & Hact & Hlen).
    pose proof (sendLoop_trace content (Nat.min (length subscribers) maxPerRun)
                  subscribers 0
                  {| sent := 0; failed := 0; trace := [];
                     data := default [] (Some sheet) |} ltac:(lia)) as Htrace.
    cbv zeta in *. cbn [trace sent data default from_option app] in *.
    eexists. split; [reflexivity|].
    split.
    { rewrite Htrace, Nat.sub_0_r. unfold maxPerRun.
      destruct (decide (length subscribers ≤ 50)%nat).
      - by rewrite !take_ge by lia.
      - by replace (Nat.min (length subscribers) 50) with 50%nat by lia. }
    rewrite Ht, Hs, Hact, Hlen, Hm, Hd. unfold maxPerRun in *.
    rewrite Nat.sub_0_r.
    split_and!; try done.
    + destruct (decide (length subscribers ≤ 50)%nat).
      * by rewrite !take_ge by lia.
      * by replace (Nat.min (length subscribers) 50) with 50%nat by lia.
    + rewrite length_fmap, length_take. lia.
    + match goal with
      | |- replicate ?a _ = replicate ?b _ => by replace a with b by lia
      end.
    + by replace (Nat.min (Nat.min (length subscribers) 50) (length subscribers))
        with (Nat.min (length subscribers) 50) by lia.
Qed.

End AppsScriptRun.

Section AppsScriptRuns.
Import AppsScript.

(** A sheet with a header and [n] subscribers, all active. *)
Definition member (n : nat) : Row :=
  {| colA := Text "Member";
     colB := Text (JS.decimal (N.of_nat n) +:+ "@example.org");
     colC := Text ""; colD := Flag true; colE := Text ""; colF := Text "" |}.

Definition header : Row :=
  {| colA := Text "Name"; colB := Text "Email"; colC := Text "Subscribed Date";
     colD := Text "Active"; colE := Text "Last Sent"; colF := Text "" |}.

Definition roster (n : nat) : list Row := header :: (member <$> seq 1 n).

Lemma sendNewsletter_first_fifty_witness :
  let content := {| month := Text "June 2025"; emailHtml := Ok "<html>" |} in
  let gmail := λ _ : nat, SentMarked in
  let now := Other "Mon Jun 02 2025" true in
  ∃ subscribers st st',
    getActiveSubscribers (Some (roster 52)) = Ok subscribers
    ∧ length subscribers = 52%nat
    ∧ sendNewsletter gmail now (Some content) (Some (roster 52)) = Ok st
    ∧ last (mailed (trace st)) = Some "50@example.org"
    ∧ sendNewsletter gmail now (Some content) (Some (data st)) = Ok st'
    ∧ mailed (trace st') = mailed (trace st).
Proof.
  intros content gmail now.
  destruct (getActiveSubscribers (Some (roster 52))) as [subscribers|e] eqn:Hsubs;
    [|by vm_compute in Hsubs].
  destruct (sendNewsletter_first_fifty gmail now content "<html>" (roster 52)
              subscribers eq_refl Hsubs)
    as (st & Hrun & _ & Hmailed & _ & _ & _ & _ & Hagain).
  destruct (sendNewsletter_first_fifty gmail now content "<html>" (data st)
              subscribers eq_refl Hagain)
    as (st' & Hrun' & _ & Hmailed' & _).
  exists subscribers, st, st'.
  assert (Hlist : subscribers
                  = (λ n, {| name := Text "Member";
                             email := JS.decimal (N.of_nat n) +:+ "@example.org";
                             row := n + 1 |}) <$> seq 1 52).
  { vm_compute in Hsubs. injection Hsubs as <-. by vm_compute. }
  split_and!; try done.
  - by rewrite Hlist.
  - rewrite Hmailed, Hlist. by vm_compute.
  - by rewrite Hmailed', Hmailed.
Defined.

End AppsScriptRuns.

Section AppsScriptActive.
Import AppsScript.

(** The subscriber made of the row at index [i] whose email cell holds
    the text [s]. *)
Definition subscriberAt (i : nat) (r : Row) (s : string) : Subscriber :=
  {| name := if truthy (colA r) then colA r else Text "Friend";
     email := JS.trim s;
     row := i + 1 |}.

(** A row that counts: a non-empty text in the email column and an
    Active cell that is not [false], ['FALSE'] or ['No']. *)
Definition listed (r : Row) (s : string) : Prop :=
  colB r = Text s ∧ s ≠ "" ∧ active (colD r) = true.

Lemma rowSubscriber_listed i r sub :
  rowSubscriber i r = Ok (Some sub) ↔ ∃ s, listed r s ∧ sub = subscriberAt i r s.
Proof.
  unfold rowSubscriber, listed, subscriberAt. split.
  - destruct (truthy (colB r) && active (colD r)) eqn:Hcond; [|done].
    apply andb_true_iff in Hcond as [Hemail Hactive].
    destruct (colB r) as [b|s|shown t]; try done.
    intros [= <-]. exists s. split_and!; try done. by intros ->.
  - intros (s & (-> & Hs & ->) & ->). destruct s; [done|]. done.
Qed.

Lemma rowSubscriber_none i r s : rowSubscriber i r = Ok None → ¬ listed r s.
Proof.
  unfold rowSubscriber, listed. intros Hnone (HB & Hs & Hactive).
  rewrite HB, Hactive in Hnone. by destruct s.
Qed.

Lemma activeLoop_spec rows :
  ∀ i acc subscribers,
    activeLoop i rows acc = Ok subscribers →
    ∃ new,
      subscribers = acc ++ new
      ∧ Forall (λ sub, i < row sub)%nat new
      ∧ StronglySorted (λ a b, row a < row b)%nat new
      ∧ ∀ sub, sub ∈ new ↔
               ∃ k r s, rows !! k = Some r ∧ listed r s
                        ∧ sub = subscriberAt (i + k) r s.
Proof.
  induction rows as [|r rows IH]; intros i acc subscribers; cbn [activeLoop].
  - intros [= <-]. exists []. rewrite app_nil_r. split_and!; try done; [constructor|].
    intros sub. split; [by intros H%elem_of_nil|]. by intros (k & r & s & Hk & _).
  - destruct (rowSubscriber i r) as [[sub0|]|e] eqn:Hrow; [| |done].
    + intros (new & -> & Hlow & Hsorted & Hmem)%IH.
      apply rowSubscriber_listed in Hrow as (s0 & Hlisted & ->).
      exists (subscriberAt i r s0 :: new). rewrite <- app_assoc. split_and!; try done.
      * constructor; [cbn; lia|]. eapply Forall_impl; [exact Hlow|]. cbn. lia.
      * constructor; [done|]. eapply Forall_impl; [exact Hlow|]. cbn. lia.
      * intros sub. rewrite elem_of_cons, Hmem. split.
        -- intros [->|(k & r' & s & Hk & Hl & ->)].
           ++ exists 0%nat, r, s0. by rewrite Nat.add_0_r.
           ++ exists (S k), r', s. split_and!; try done.
              by replace (i + S k)%nat with (S i + k)%nat by lia.
        -- intros ([|k] & r' & s & Hk & Hl & ->).
           ++ left. cbn in Hk. injection Hk as <-. rewrite Nat.add_0_r.
              destruct Hlisted as (HB & _), Hl as (HB' & _). congruence.
           ++ right. exists k, r', s. split_and!; try done.
              by replace (i + S k)%nat with (S i + k)%nat by lia.
    + intros (new & -> & Hlow & Hsorted & Hmem)%IH.
      exists new. split_and!; try done.
      * eapply Forall_impl; [exact Hlow|]. cbn. lia.
      * intros sub. rewrite Hmem. split.
        -- intros (k & r' & s & Hk & Hl & ->). exists (S k), r', s. split_and!; try done.
           by replace (i + S k)%nat with (S i + k)%nat by lia.
        -- intros ([|k] & r' & s & Hk & Hl & ->).
           ++ cbn in Hk. injection Hk as <-. by destruct (rowSubscriber_none i r s Hrow).
           ++ exists k, r', s. split_and!; try done.
              by replace (i + S k)%nat with (S i + k)%nat by lia.
Qed.

(** X24.  When [getActiveSubscribers] returns, its list holds exactly
    the rows below the header whose email cell is a non-empty text and
    whose Active cell is none of [false], ['FALSE'] and ['No']: each such
    row once, in sheet order, with the email trimmed, the name (or
    [Friend] for an empty name) and the row's number in the sheet, one
    more than its index, which is where [markAsSent] writes.  The header
    row is never a subscriber. *)
Theorem getActiveSubscribers_listed_rows
    (sheet : list Row) (subscribers : list Subscriber) :
  getActiveSubscribers (Some sheet) = Ok subscribers →
  StronglySorted (λ a b, row a < row b)%nat subscribers
  ∧ Forall (λ sub, 2 ≤ row sub ≤ length sheet)%nat subscribers
  ∧ ∀ sub, sub ∈ subscribers ↔
           ∃ i r s, (1 ≤ i)%nat ∧ sheet !! i = Some r ∧ listed r s
                    ∧ sub = subscriberAt i r s.
Proof.
  intros Hsubs.
  pose proof (getActiveSubscribers_rows sheet subscribers Hsubs) as Hrows.
  unfold getActiveSubscribers in Hsubs.
  apply activeLoop_spec in Hsubs as (new & -> & Hlow & Hsorted & Hmem).
  cbn [app] in *. split_and!.
  - done.
  - apply Forall_forall. intros sub Hsub.
    pose proof (proj1 (Forall_forall _ _) Hlow _ Hsub).
    pose proof (proj1 (Forall_forall _ _) Hrows _ Hsub). cbn in *. lia.
  - intros sub. rewrite Hmem. split.
    + intros (k & r & s & Hk & Hl & ->). exists (S k), r, s.
      rewrite lookup_drop in Hk. split_and!; try done. lia.
    + intros ([|k] & r & s & Hi & Hk & Hl & ->); [lia|].
      exists k, r, s. rewrite lookup_drop. by split_and!.
Qed.

End AppsScriptActive.

Section AppsScriptActiveRun.
Import AppsScript.

Lemma getActiveSubscribers_listed_rows_witness :
  let sheet :=
    [ header;
      {| colA := Text "Ann"; colB := Text " ann@example.org "; colC := Text "";
         colD := Flag true; colE := Text ""; colF := Text "" |};
      {| colA := Text "Bob"; colB := Text "bob@example.org"; colC := Text "";
         colD := Text "No"; colE := Text ""; colF := Text "" |};
      {| colA := Text ""; colB := Text "cy@example.org"; colC := Text "";
         colD := Text "no"; colE := Text ""; colF := Text "" |} ] in
  let subscribers :=
    [ {| name := Text "Ann"; email := "ann@example.org"; row := 2 |};
      {| name := Text "Friend"; email := "cy@example.org"; row := 4 |} ] in
  getActiveSubscribers (Some sheet) = Ok subscribers
  ∧ Forall (λ sub, 2 ≤ row sub ≤ length sheet)%nat subscribers.
Proof.
  intros sheet subscribers.
  assert (Hsubs : getActiveSubscribers (Some sheet) = Ok subscribers) by reflexivity.
  split; [exact Hsubs|].
  exact (proj1 (proj2 (getActiveSubscribers_listed_rows sheet subscribers Hsubs))).
Defined.

End AppsScriptActiveRun.

Section AppsScriptImport.
Import AppsScript.

(** The email of a submission as the import compares and stores it. *)
Definition importKey (sub : Submission) : string :=
  JS.trim (JS.toLowerCase (default "" (sub_email sub))).

Definition importedRow (sub : Submission) : Row :=
  {| colA := Text (default "" (sub_name sub)); colB := Text (importKey sub);
     colC := Other (created_at sub) true;
     colD := Flag true; colE := Text ""; colF := Text "" |}.

Definition lowerB (r : Row) : string := JS.toLowerCase (toString (colB r)).

Lemma importKey_lower sub : JS.toLowerCase (importKey sub) = importKey sub.
Proof.
  unfold importKey. by rewrite toLowerCase_trim, toLowerCase_idemp.
Qed.

Lemma importOne_cases existing data added sub :
  importOne (existing, data, added) sub =
  if decide (importKey sub = "" ∨ importKey sub ∈ existing)
  then (existing, data, added)
  else ({[importKey sub]} ∪ existing, data ++ [importedRow sub], S added).
Proof.
  unfold importOne. fold (importKey sub).
  change {| colA := Text (default "" (sub_name sub)); colB := Text (importKey sub);
            colC := Other (created_at sub) true; colD := Flag true;
            colE := Text ""; colF := Text "" |} with (importedRow sub).
  destruct (importKey sub) as [|c k] eqn:Hkey.
  - rewrite decide_True; [done|by left].
  - destruct (decide (String c k ∈ existing)) as [Hin|Hnin].
    + rewrite decide_True; [done|by right].
    + rewrite decide_False; [done|]. by intros [?|?].
Qed.

Lemma importAll_spec submissions :
  ∀ existing data added,
    ∃ existing' new,
      foldl importOne (existing, data, added) submissions
      = (existing', data ++ new, (added + length new)%nat)
      ∧ (∀ k, k ∈ existing' ↔ k ∈ existing ∨ k ∈ lowerB <$> new)
      ∧ Forall (λ sub, importKey sub = "" ∨ importKey sub ∈ existing') submissions
      ∧ new `sublist_of` importedRow <$> submissions
      ∧ Forall (λ r, lowerB r ∉ existing ∧ lowerB r ≠ "") new
      ∧ NoDup (lowerB <$> new).
Proof.
  induction submissions as [|sub rest IH]; intros existing data added.
  - exists existing, []. cbn [foldl length]. rewrite app_nil_r, Nat.add_0_r.
    split_and!; try done; try (by constructor); set_solver.
  - cbn [foldl]. rewrite importOne_cases.
    destruct (decide (importKey sub = "" ∨ importKey sub ∈ existing)) as [Hskip|Hnew].
    + destruct (IH existing data added)
        as (existing' & new & -> & Hmem & Hall & Hsub & Hfresh & Hnd).
      exists existing', new. split_and!; try done.
      * constructor; [|done]. destruct Hskip as [?|Hin]; [by left|right].
        apply Hmem. by left.
      * rewrite fmap_cons. by apply sublist_cons.
    + destruct (IH ({[importKey sub]} ∪ existing) (data ++ [importedRow sub]) (S added))
        as (existing' & new & -> & Hmem & Hall & Hsub & Hfresh & Hnd).
      assert (Hrow : lowerB (importedRow sub) = importKey sub)
        by apply importKey_lower.
      exists existing', (importedRow sub :: new). split_and!.
      * rewrite <- app_assoc. cbn [length app]. f_equal; first [done|lia].
      * intros k. rewrite Hmem, fmap_cons, Hrow. set_solver.
      * constructor; [|done]. right. apply Hmem. left. set_solver.
      * rewrite fmap_cons. by apply sublist_skip.
      * constructor.
        -- rewrite Hrow. split; [|]; intros ?; apply Hnew; by eauto.
        -- eapply Forall_impl; [exact Hfresh|]. intros r [? ?]. split; [set_solver|done].
      * rewrite fmap_cons, Hrow. constructor; [|done].
        intros Hin. apply list_elem_of_fmap in Hin as (r & Hr & Hrin).
        apply (proj1 (Forall_forall _ _) Hfresh) in Hrin as [Hn _].
        rewrite <- Hr in Hn. set_solver.
Qed.

Lemma importAll_nothing_new submissions existing data added :
  Forall (λ sub, importKey sub = "" ∨ importKey sub ∈ existing) submissions →
  foldl importOne (existing, data, added) submissions = (existing, data, added).
Proof.
  induction 1 as [|sub rest Hsub _ IH]; [done|].
  cbn [foldl]. rewrite importOne_cases, decide_True by done. exact IH.
Qed.

Lemma existingEmails_app data new :
  data ≠ [] →
  ∀ k, k ∈ existingEmails (data ++ new) ↔ k ∈ existingEmails data ∨ k ∈ lowerB <$> new.
Proof.
  intros Hdata k. unfold existingEmails. destruct data as [|r data]; [done|].
  cbn [app drop]. rewrite !drop_0, fmap_app, !elem_of_list_to_set, elem_of_app.
  done.
Qed.

(** X25.  On a sheet that has its header row, [importFromNetlify] only
    appends rows.  The rows it adds come from the submissions, in their
    order; each carries an email (lower-cased and trimmed) that is not
    empty and was not yet in the email column (compared in lower case),
    and no two of them carry the same email.  Afterwards the email of
    every submission is empty or in the column, so that a second run on
    the same submissions adds nothing: the import is idempotent. *)
Theorem importFromNetlify_idempotent
    (submissions : list Submission) (data : list Row) :
  data ≠ [] →
  ∃ new,
    importFromNetlify submissions data = (data ++ new, length new)
    ∧ new `sublist_of` importedRow <$> submissions
    ∧ NoDup (lowerB <$> new)
    ∧ Forall (λ r, lowerB r ∉ existingEmails data ∧ lowerB r ≠ "") new
    ∧ Forall (λ sub, importKey sub = ""
                     ∨ importKey sub ∈ existingEmails (data ++ new)) submissions
    ∧ importFromNetlify submissions (data ++ new) = (data ++ new, 0%nat).
Proof.
  intros Hdata. unfold importFromNetlify.
  destruct (importAll_spec submissions (existingEmails data) data 0)
    as (existing' & new & -> & Hmem & Hall & Hsub & Hfresh & Hnd).
  exists new. cbn [Nat.add].
  assert (Hall' : Forall (λ sub, importKey sub = ""
                     ∨ importKey sub ∈ existingEmails (data ++ new)) submissions).
  { eapply Forall_impl; [exact Hall|]. intros sub [?|Hin]; [by left|right].
    apply existingEmails_app; [done|]. by apply Hmem. }
  split_and!; try done.
  by rewrite (importAll_nothing_new _ _ _ _ Hall').
Qed.

End AppsScriptImport.

Section AppsScriptImportRun.
Import AppsScript.

Definition ann : Submission :=
  {| sub_email := Some " Ann@Example.org"; sub_name := Some "Ann";
     created_at := "2025-01-15T10:00:00.000Z" |}.

Definition annAgain : Submission :=
  {| sub_email := Some "ann@example.org"; sub_name := Some "Ann B.";
     created_at := "2025-03-01T09:00:00.000Z" |}.

Lemma importFromNetlify_idempotent_witness :
  [header] ≠ []
  ∧ ∃ new,
      importFromNetlify [ann; annAgain] [header] = ([header] ++ new, 1%nat)
      ∧ colB <$> new = [Text "ann@example.org"]
      ∧ importFromNetlify [ann; annAgain] ([header] ++ new) = ([header] ++ new, 0%nat).
Proof.
  assert (Hheader : [header] ≠ []) by done.
  split; [exact Hheader|].
  destruct (importFromNetlify_idempotent [ann; annAgain] [header] Hheader)
    as (new & Hfirst & _ & _ & _ & _ & Hsecond).
  exists new.
  assert (Hnew : new = [importedRow ann]).
  { vm_compute in Hfirst. injection Hfirst as Hnew _.
    rewrite <- Hnew. by vm_compute. }
  split_and!; [|by rewrite Hnew|exact Hsecond].
  rewrite Hfirst. by rewrite Hnew.
Defined.

(** On a sheet with no row at all the first row appended is taken for
    the header by the next run, which adds the same subscriber again. *)
Example importFromNetlify_empty_sheet :
  let first := importFromNetlify [ann] [] in
  let second := importFromNetlify [ann] first.1 in
  first = ([importedRow ann], 1%nat)
  ∧ second = ([importedRow ann; importedRow ann], 1%nat).
Proof. by vm_compute. Qed.

End AppsScriptImportRun.
